(** * Antigravity auth plugin: account pool, endpoint failover and payload
      transformation

    A shallow embedding of the request-routing engine
    ([src/plugin/accounts.ts], [src/plugin/fetch-wrapper.ts], with the loader
    of [src/plugin/storage.ts]) and of the payload transformers
    ([src/plugin/transform/gemini.ts], [src/plugin/transform/claude.ts],
    [src/plugin/request-helpers.ts], [src/plugin/request.ts],
    [src/plugin/cache.ts]).

    Conventions of the embedding:
    - JavaScript numbers that hold counts, indices, HTTP statuses and
      millisecond durations are integers of [Z];
    - [Date.now()] is an explicit argument [now], one for each reading
      where a result depends on the clock advancing between two readings
      ([getCurrentOrNextAt], [selectAccountAt]);
    - what the orchestrator does to the outside world (attempts, sleeps,
      toasts, saves) is a list of events; the calls of the host client it
      awaits are taken to return, and the failures inside the response
      normalizer, which decide its answer, are oracles of a [Runtime];
    - the snapshot mixes revisions: both revisions of [claude.ts] are
      embedded where a claim cites both, and the transformers' calls of the
      signature cache are evaluated against [cache.ts] as it is there;
    - a [ManagedAccount] object lives in the [accounts] array of its manager
      and is referred to by its position there: the functions that return an
      account in the source return that position here, and the mutations of
      the object are written to the array;
    - strings are [string]; a JavaScript string is truthy when it is not
      empty. *)

From Stdlib Require Import ZArith Lia List String Ascii Bool.
From stdpp Require Import base option list gmap strings pretty.
Import ListNotations.
Open Scope Z_scope.
Set Warnings "-register-all".
Set Default Proof Using "Type".

(** ** JavaScript helpers *)

Definition truthy (s : string) : bool :=
  match s with EmptyString => false | _ => true end.

(** An ASCII digit, [[0-9]]. *)
Definition isDigit (c : ascii) : bool :=
  let n := nat_of_ascii c in (48 <=? n)%nat && (n <=? 57)%nat.

(** [x ?? y] on an optional value. *)
Definition nullish {A} (x : option A) (y : option A) : option A :=
  match x with Some _ => x | None => y end.

(** JSON values, as [JSON.parse] yields them.  Objects keep their fields in
    order; a field is read at its first occurrence. *)
Inductive JValue :=
| JNull
| JBool (b : bool)
| JNum (n : Z)
| JStr (s : string)
| JArr (items : list JValue)
| JObj (fields : list (string * JValue)).

Fixpoint assoc {A} (k : string) (l : list (string * A)) : option A :=
  match l with
  | [] => None
  | (k', v) :: l' => if String.eqb k k' then Some v else assoc k l'
  end.

(** [value.k] when [value] is an object; [undefined] otherwise. *)
Definition getField (k : string) (v : JValue) : option JValue :=
  match v with
  | JObj fields => assoc k fields
  | _ => None
  end.

(** [typeof v === "object" && v !== null] *)
Definition isObjectLike (v : JValue) : bool :=
  match v with
  | JArr _ | JObj _ => true
  | _ => false
  end.

(** An HTTP response: status, headers (names in lower case, as [Headers]
    keeps them) and the value [JSON.parse] gives for the body text, [None]
    when it throws. *)
Record Response := mkResponse {
  status : Z;
  headers : gmap string string;
  body : option JValue
}.

(** * The account pool: [src/plugin/accounts.ts] *)
Module Accounts.

Inductive SwitchReason := RateLimitSwitch | InitialSwitch | RotationSwitch.

Record RefreshParts := mkRefreshParts {
  refreshToken : string;
  projectId : option string;
  managedProjectId : option string
}.

Record ManagedAccount := mkManagedAccount {
  index : Z;
  parts : RefreshParts;
  access : option string;
  expires : option Z;
  isRateLimited : bool;
  rateLimitResetTime : Z;
  lastUsed : Z;
  email : option string;
  lastSwitchReason : option SwitchReason
}.

Definition set_index (i : Z) (a : ManagedAccount) : ManagedAccount :=
  mkManagedAccount i (parts a) (access a) (expires a) (isRateLimited a)
    (rateLimitResetTime a) (lastUsed a) (email a) (lastSwitchReason a).

Definition set_isRateLimited (b : bool) (a : ManagedAccount) : ManagedAccount :=
  mkManagedAccount (index a) (parts a) (access a) (expires a) b
    (rateLimitResetTime a) (lastUsed a) (email a) (lastSwitchReason a).

Definition set_rateLimitResetTime (t : Z) (a : ManagedAccount) : ManagedAccount :=
  mkManagedAccount (index a) (parts a) (access a) (expires a) (isRateLimited a)
    t (lastUsed a) (email a) (lastSwitchReason a).

Definition set_lastUsed (t : Z) (a : ManagedAccount) : ManagedAccount :=
  mkManagedAccount (index a) (parts a) (access a) (expires a) (isRateLimited a)
    (rateLimitResetTime a) t (email a) (lastSwitchReason a).

Definition set_lastSwitchReason (r : SwitchReason) (a : ManagedAccount) : ManagedAccount :=
  mkManagedAccount (index a) (parts a) (access a) (expires a) (isRateLimited a)
    (rateLimitResetTime a) (lastUsed a) (email a) (Some r).

(** Stored account metadata, [AccountMetadata] and [AccountStorage] of the
    storage module (version 1, the one [accounts.ts] reads). *)
Record AccountMetadata := mkAccountMetadata {
  md_email : option string;
  md_refreshToken : string;
  md_projectId : option string;
  md_managedProjectId : option string;
  md_addedAt : Z;
  md_lastUsed : Z;
  md_lastSwitchReason : option SwitchReason;
  md_isRateLimited : option bool;
  md_rateLimitResetTime : option Z
}.

Record AccountStorage := mkAccountStorage {
  st_accounts : list AccountMetadata;
  st_activeIndex : Z
}.

Record OAuthAuthDetails := mkOAuthAuthDetails {
  auth_refresh : string;
  auth_access : option string;
  auth_expires : option Z
}.

(** The private fields of [class AccountManager]. *)
Record AccountManager := mkAccountManager {
  accounts : list ManagedAccount;
  currentIndex : Z;
  currentAccountIndex : Z
}.

Definition set_accounts (l : list ManagedAccount) (m : AccountManager) : AccountManager :=
  mkAccountManager l (currentIndex m) (currentAccountIndex m).

(** [array.map((x, index) => f x index)] *)
Fixpoint mapi_from {A B} (f : A -> nat -> B) (i : nat) (l : list A) : list B :=
  match l with
  | [] => []
  | x :: l' => f x i :: mapi_from f (S i) l'
  end.

Definition mapi {A B} (f : A -> nat -> B) (l : list A) : list B := mapi_from f 0 l.

Definition firstOnly {A} (i : nat) (x : option A) : option A :=
  match i with O => x | S _ => None end.

Definition accountOfStored (auth : OAuthAuthDetails) (acc : AccountMetadata) (i : nat)
  : ManagedAccount :=
  {| index := Z.of_nat i;
     parts := mkRefreshParts (md_refreshToken acc) (md_projectId acc) (md_managedProjectId acc);
     access := firstOnly i (auth_access auth);
     expires := firstOnly i (auth_expires auth);
     isRateLimited := default false (md_isRateLimited acc);
     rateLimitResetTime := default 0 (md_rateLimitResetTime acc);
     lastUsed := md_lastUsed acc;
     email := md_email acc;
     lastSwitchReason := md_lastSwitchReason acc |}.

Definition accountOfParts (auth : OAuthAuthDetails) (p : RefreshParts) (i : nat)
  : ManagedAccount :=
  {| index := Z.of_nat i;
     parts := p;
     access := firstOnly i (auth_access auth);
     expires := firstOnly i (auth_expires auth);
     isRateLimited := false;
     rateLimitResetTime := 0;
     lastUsed := 0;
     email := None;
     lastSwitchReason := None |}.

(** The constructor.  [parseMultiAccountRefresh(auth.refresh).accounts] and
    [parseRefreshParts(auth.refresh)] belong to the auth module; their results
    are the arguments [multi] and [single]. *)
Definition construct (auth : OAuthAuthDetails) (multi : list RefreshParts)
    (single : RefreshParts) (storedAccounts : option AccountStorage) : AccountManager :=
  let fallback :=
    match multi with
    | _ :: _ => mkAccountManager (mapi (accountOfParts auth) multi) 0 (-1)
    | [] => mkAccountManager [accountOfParts auth single 0] 0 (-1)
    end in
  match storedAccounts with
  | Some st =>
      match st_accounts st with
      | _ :: _ =>
          mkAccountManager (mapi (accountOfStored auth) (st_accounts st))
            (st_activeIndex st) (-1)
      | [] => fallback
      end
  | None => fallback
  end.

Definition getAccountCount (m : AccountManager) : Z := Z.of_nat (length (accounts m)).

(** [getCurrentAccount]: the position of the current account, if any. *)
Definition getCurrentAccount (m : AccountManager) : option nat :=
  if (0 <=? currentAccountIndex m) && (currentAccountIndex m <? Z.of_nat (length (accounts m)))
  then
    match accounts m !! Z.to_nat (currentAccountIndex m) with
    | Some _ => Some (Z.to_nat (currentAccountIndex m))
    | None => None
    end
  else None.

(** [markSwitched(account, reason)] for the account at position [pos]. *)
Definition markSwitched (pos : nat) (reason : SwitchReason) (m : AccountManager)
  : AccountManager :=
  match accounts m !! pos with
  | Some a =>
      mkAccountManager (<[pos := set_lastSwitchReason reason a]> (accounts m))
        (currentIndex m) (index a)
  | None => m
  end.

(** The callback of the [filter] in [getNext]: its result ... *)
Definition isAvailable (now : Z) (a : ManagedAccount) : bool :=
  negb (isRateLimited a) || (rateLimitResetTime a <? now).

(** ... and its effect on the account it inspects. *)
Definition expireLimit (now : Z) (a : ManagedAccount) : ManagedAccount :=
  if isRateLimited a && (rateLimitResetTime a <? now)
  then set_isRateLimited false a else a.

(** Positions of the accounts kept by the filter, in array order. *)
Fixpoint availableFrom (now : Z) (i : nat) (l : list ManagedAccount) : list nat :=
  match l with
  | [] => []
  | a :: l' =>
      if isAvailable now a then i :: availableFrom now (S i) l'
      else availableFrom now (S i) l'
  end.

Definition getNext (now : Z) (m : AccountManager) : option nat * AccountManager :=
  let available := availableFrom now 0 (accounts m) in
  let m1 := set_accounts (map (expireLimit now) (accounts m)) m in
  match available with
  | [] => (None, m1)
  | _ :: _ =>
      let k := Z.rem (currentIndex m) (Z.of_nat (length available)) in
      if k <? 0 then (None, m1)
      else
        match available !! Z.to_nat k with
        | None => (None, m1)
        | Some pos =>
            (Some pos,
             mkAccountManager (alter (set_lastUsed now) pos (accounts m1))
               (currentIndex m + 1) (currentAccountIndex m))
        end
  end.

Definition getCurrentOrNext (now : Z) (m : AccountManager) : option nat * AccountManager :=
  let switch :=
    let '(next, m') := getNext now m in
    match next with
    | Some pos =>
        (Some pos,
         mkAccountManager (accounts m') (currentIndex m')
           (from_option index (currentAccountIndex m') (accounts m' !! pos)))
    | None => (None, m')
    end in
  match getCurrentAccount m with
  | Some pos =>
      match accounts m !! pos with
      | Some a =>
          if negb (isRateLimited a)
          then (Some pos, set_accounts (<[pos := set_lastUsed now a]> (accounts m)) m)
          else if rateLimitResetTime a <? now
          then (Some pos,
                set_accounts
                  (<[pos := set_lastUsed now (set_isRateLimited false a)]> (accounts m)) m)
          else switch
      | None => switch
      end
  | None => switch
  end.

(** [getCurrentOrNext] reads the clock again inside [getNext]:
    [getCurrentOrNextAt now now'] has [now] for the test of the current
    account and [now'] for the filter of [getNext] (and the stamp it
    leaves).  [getCurrentOrNext now] above is the call during which the
    clock does not advance. *)
Definition getCurrentOrNextAt (now now' : Z) (m : AccountManager)
  : option nat * AccountManager :=
  let switch :=
    let '(next, m') := getNext now' m in
    match next with
    | Some pos =>
        (Some pos,
         mkAccountManager (accounts m') (currentIndex m')
           (from_option index (currentAccountIndex m') (accounts m' !! pos)))
    | None => (None, m')
    end in
  match getCurrentAccount m with
  | Some pos =>
      match accounts m !! pos with
      | Some a =>
          if negb (isRateLimited a)
          then (Some pos, set_accounts (<[pos := set_lastUsed now a]> (accounts m)) m)
          else if rateLimitResetTime a <? now
          then (Some pos,
                set_accounts
                  (<[pos := set_lastUsed now (set_isRateLimited false a)]> (accounts m)) m)
          else switch
      | None => switch
      end
  | None => switch
  end.

(** [markRateLimited(account, retryAfterMs)] for the account at [pos]. *)
Definition markRateLimited (now : Z) (pos : nat) (retryAfterMs : Z) (m : AccountManager)
  : AccountManager :=
  set_accounts
    (alter (fun a => set_rateLimitResetTime (now + retryAfterMs) (set_isRateLimited true a))
       pos (accounts m)) m.

(** [updateAccount(account, access, expires, parts)] for the account at [pos]. *)
Definition updateAccount (pos : nat) (acc : option string) (exp : option Z)
    (p : option RefreshParts) (m : AccountManager) : AccountManager :=
  set_accounts
    (alter (fun a =>
              mkManagedAccount (index a) (default (parts a) p) acc exp (isRateLimited a)
                (rateLimitResetTime a) (lastUsed a) (email a) (lastSwitchReason a))
       pos (accounts m)) m.

Definition addAccount (p : RefreshParts) (acc : option string) (exp : option Z)
    (mail : option string) (m : AccountManager) : AccountManager :=
  set_accounts
    (accounts m ++
     [ {| index := Z.of_nat (length (accounts m)); parts := p; access := acc;
          expires := exp; isRateLimited := false; rateLimitResetTime := 0;
          lastUsed := 0; email := mail; lastSwitchReason := None |} ]) m.

(** [this.accounts.forEach((acc, idx) => (acc.index = idx))] *)
Definition reindex (l : list ManagedAccount) : list ManagedAccount :=
  mapi (fun a i => set_index (Z.of_nat i) a) l.

Definition removeAccount (i : Z) (m : AccountManager) : bool * AccountManager :=
  if (i <? 0) || (Z.of_nat (length (accounts m)) <=? i) then (false, m)
  else (true, set_accounts (reindex (delete (Z.to_nat i) (accounts m))) m).

Definition getMinWaitTime (now : Z) (m : AccountManager) : Z :=
  match filter (fun a => isAvailable now a = true) (accounts m) with
  | _ :: _ => 0
  | [] =>
      match map (fun a => Z.max 0 (rateLimitResetTime a - now))
                (filter (fun a => isRateLimited a = true) (accounts m)) with
      | [] => 0
      | w :: ws => fold_right Z.min w ws
      end
  end.

(** [n] consecutive calls of [getNext], one per reading of the clock. *)
Fixpoint getNextMany (nows : list Z) (m : AccountManager)
  : list (option nat) * AccountManager :=
  match nows with
  | [] => ([], m)
  | now :: rest =>
      let '(r, m1) := getNext now m in
      let '(rs, m2) := getNextMany rest m1 in
      (r :: rs, m2)
  end.

(** ** Sample pools *)

(** A pool of three accounts loaded from storage with [activeIndex = 1]. *)
Definition storedThree : AccountStorage :=
  mkAccountStorage
    [ mkAccountMetadata None "refresh-a" None None 0 0 None None None;
      mkAccountMetadata None "refresh-b" None None 0 0 None None None;
      mkAccountMetadata None "refresh-c" None None 0 0 None None None ]
    1.

Definition poolThree : AccountManager :=
  construct (mkOAuthAuthDetails "refresh-a" (Some "token") (Some 0)) []
    (mkRefreshParts "refresh-a" None None) (Some storedThree).

(** The pool of three with the second account current. *)
Definition poolThreeCurrent : AccountManager :=
  markSwitched 1 InitialSwitch poolThree.

(** The refresh token of the account the current pointer designates. *)
Definition currentToken (m : AccountManager) : option string :=
  getCurrentAccount m ≫= fun pos => (refreshToken ∘ parts) <$> accounts m !! pos.

(** ** Persistence: [save] and the loader of the storage module *)

(** The object [save] hands to [saveAccounts]. *)
Definition toStorage (now : Z) (m : AccountManager) : AccountStorage :=
  mkAccountStorage
    (map (fun acc =>
            mkAccountMetadata (email acc) (refreshToken (parts acc)) (projectId (parts acc))
              (managedProjectId (parts acc))
              (if lastUsed acc =? 0 then now else lastUsed acc)
              (lastUsed acc) (lastSwitchReason acc)
              (Some (isRateLimited acc)) (Some (rateLimitResetTime acc)))
         (accounts m))
    (Z.max 0 (currentAccountIndex m)).

(** What [JSON.parse] gives for the storage file, as far as [loadAccounts]
    looks at it: the version when it is a number, the accounts when they are
    an array, the active index when it is an integer. *)
Record RawStorage := mkRawStorage {
  raw_version : option Z;
  raw_accounts : option (list AccountMetadata);
  raw_activeIndex : option Z
}.

(** [loadAccounts] after the file has been read; [None] for the file is a
    missing or unreadable file. *)
Definition loadAccounts (file : option RawStorage) : option AccountStorage :=
  match file with
  | None => None
  | Some data =>
      match raw_version data, raw_accounts data with
      | Some 1, Some accs =>
          let activeIndex := default 0 (raw_activeIndex data) in
          let activeIndex :=
            if (activeIndex <? 0) || (Z.of_nat (length accs) <=? activeIndex)
            then 0 else activeIndex in
          Some (mkAccountStorage accs activeIndex)
      | _, _ => None
      end
  end.

(** The file as [saveAccounts] writes it and [JSON.parse] reads it back. *)
Definition writtenFile (st : AccountStorage) : RawStorage :=
  mkRawStorage (Some 1) (Some (st_accounts st)) (Some (st_activeIndex st)).

(** Several consecutive calls of [getCurrentOrNext]. *)
Fixpoint getCurrentOrNextMany (nows : list Z) (m : AccountManager)
  : list (option nat) * AccountManager :=
  match nows with
  | [] => ([], m)
  | now :: rest =>
      let '(r, m1) := getCurrentOrNext now m in
      let '(rs, m2) := getCurrentOrNextMany rest m1 in
      (r :: rs, m2)
  end.

(** ** What the host is given: [toAuthDetails]

    [formatRefreshParts] belongs to the auth module and is a parameter.  The
    result is [None] where the method throws. *)
Definition toAuthDetails (formatRefreshParts : RefreshParts -> string) (m : AccountManager)
  : option OAuthAuthDetails :=
  let current :=
    nullish (getCurrentAccount m ≫= fun pos => accounts m !! pos) (accounts m !! 0%nat) in
  (fun a =>
     mkOAuthAuthDetails (formatRefreshParts (parts a))
       (Some (match access a with
              | Some token => if truthy token then token else EmptyString
              | None => EmptyString
              end))
       (Some (default 0 (expires a)))) <$> current.

End Accounts.

(** * The orchestrator: [src/plugin/fetch-wrapper.ts] *)
Module Fetch.
Import Accounts.

Definition CODE_ASSIST_ENDPOINT_DAILY : string :=
  "https://daily-cloudcode-pa.sandbox.googleapis.com".
Definition CODE_ASSIST_ENDPOINT_AUTOPUSH : string :=
  "https://autopush-cloudcode-pa.sandbox.googleapis.com".
Definition CODE_ASSIST_ENDPOINT_PROD : string :=
  "https://cloudcode-pa.googleapis.com".

Definition CODE_ASSIST_ENDPOINT_FALLBACKS : list string :=
  [CODE_ASSIST_ENDPOINT_DAILY; CODE_ASSIST_ENDPOINT_AUTOPUSH; CODE_ASSIST_ENDPOINT_PROD].

(** ** Numbers

    The numbers of the source are doubles; here they are integers.  The two
    agree on integers up to [Number.MAX_SAFE_INTEGER] in magnitude, sums,
    differences and products included as long as the results stay in that
    range.  Beyond it a double is rounded, and [parseInt] gives [Infinity]
    for a numeral of some 310 digits; what is proved of a parsed or a slept
    duration is proved for safe integers. *)

Definition MAX_SAFE_INTEGER : Z := 2 ^ 53 - 1.

Definition isSafeInteger (z : Z) : bool := Z.abs z <=? MAX_SAFE_INTEGER.

(** ** [parseInt(s, 10)] on ASCII input *)

Definition digitValue (c : ascii) : Z := Z.of_nat (nat_of_ascii c) - 48.

Definition isWhiteSpace (c : ascii) : bool :=
  let n := nat_of_ascii c in
  ((9 <=? n)%nat && (n <=? 13)%nat) || (n =? 32)%nat.

Fixpoint skipWhiteSpace (s : string) : string :=
  match s with
  | String c s' => if isWhiteSpace c then skipWhiteSpace s' else s
  | EmptyString => EmptyString
  end.

Fixpoint digitsValue (acc : Z) (s : string) : Z :=
  match s with
  | String c s' => if isDigit c then digitsValue (10 * acc + digitValue c) s' else acc
  | EmptyString => acc
  end.

Definition unsignedInt (s : string) : option Z :=
  match s with
  | String c _ => if isDigit c then Some (digitsValue 0 s) else None
  | EmptyString => None
  end.

(** [None] stands for [NaN]; the value is the integer the numeral denotes,
    which is what [parseInt] returns when it is a safe integer. *)
Definition parseInt10 (s : string) : option Z :=
  match skipWhiteSpace s with
  | String "-" r => Z.opp <$> unsignedInt r
  | String "+" r => unsignedInt r
  | r => unsignedInt r
  end.

(** A header that is present and not the empty string. *)
Definition headerGet (name : string) (response : Response) : option string :=
  match headers response !! name with
  | Some v => if truthy v then Some v else None
  | None => None
  end.

Definition parseRetryAfterMs (response : Response) : Z :=
  match headerGet "retry-after-ms" response with
  | Some h => default 60000 (parseInt10 h)
  | None =>
      match headerGet "retry-after" response with
      | Some h => default 60000 ((fun parsed => parsed * 1000) <$> parseInt10 h)
      | None => 60000
      end
  end.

(** ** [sleepWithBackoff]: the waits it performs, in order, in a call whose
       abort signal does not fire *)

Definition stepsMs : list Z := [3000; 5000; 10000; 20000; 30000].

Fixpoint sleepLoop (fuel : nat) (remainingMs : Z) (stepIndex : nat) : list Z :=
  match fuel with
  | O => []
  | S fuel' =>
      if 0 <? remainingMs then
        let stepMs := default (default 30000 (last stepsMs)) (stepsMs !! stepIndex) in
        let waitMs := Z.min remainingMs stepMs in
        waitMs :: sleepLoop fuel' (remainingMs - waitMs) (S stepIndex)
      else []
  end.

(** Every wait but the last is at least 3000 ms long, so
    [remainingMs / 3000 + 1] rounds are enough.  That is so for a safe
    integer; the loop of the source does not end for [Infinity], nor for a
    double so large that subtracting a step leaves it unchanged. *)
Definition sleepFuel (remainingMs : Z) : nat := S (Z.to_nat (remainingMs / 3000)).

Definition sleepWithBackoff (totalMs : Z) : list Z :=
  let remainingMs := Z.max 0 totalMs in
  sleepLoop (sleepFuel remainingMs) remainingMs 0.

(** ** What the orchestrator does to the outside world *)

Inductive Toast :=
| ToastBriefRetry (seconds : Z)
| ToastSwitching (pos : nat)
| ToastServerError (pos : nat)
| ToastAllLimited (seconds : Z).

(** [EvAttempt e] marks a pass of the endpoint loop for endpoint [e].
    [EvNormalized r]: [transformAntigravityResponse] is awaited on [r] and
    its answer dropped; the toast it may show on the way and what it caches
    are the normalizer's and are not listed apart.  The call sits in a [try]
    with an empty [catch], so that nothing in it ends the pass. *)
Inductive Event :=
| EvAttempt (endpoint : string)
| EvSleep (ms : Z)
| EvToast (t : Toast)
| EvSave
| EvAuthSet
| EvNormalized (response : Response).

(** [Math.ceil(ms / 1000)] *)
Definition ceilSeconds (ms : Z) : Z := - ((- ms) / 1000).

Record AttemptInfo := mkAttemptInfo {
  resolvedUrl : string;
  streaming : bool;
  requestedModel : option string
}.

Inductive EndpointLoopResult :=
| Success (response : Response) (attemptInfo : option AttemptInfo)
| RateLimit (retryAfterMs : Z)
| RetrySoon
| AllFailedResponse (response : Response) (attemptInfo : option AttemptInfo)
| AllFailedError (error : string).

(** A call either returns or throws. *)
Inductive Outcome (A : Type) :=
| Returned (a : A)
| Thrown (error : string).
Arguments Returned {A} a.
Arguments Thrown {A} error.

Definition handleRateLimit (now : Z) (response : Response) (pos : nat)
    (m : AccountManager) (accountCount : Z)
  : EndpointLoopResult * AccountManager * list Event :=
  let retryAfterMs := parseRetryAfterMs response in
  if accountCount =? 1 then
    (RateLimit retryAfterMs, markRateLimited now pos retryAfterMs m,
     [EvNormalized response; EvSave])
  else
    let switchThresholdMs := 5000 in
    if retryAfterMs <=? switchThresholdMs then
      (RetrySoon, m,
       EvToast (ToastBriefRetry (ceilSeconds retryAfterMs))
         :: map EvSleep (sleepWithBackoff retryAfterMs))
    else
      (RateLimit retryAfterMs, markRateLimited now pos retryAfterMs m,
       [EvToast (ToastSwitching pos); EvSave]).

Definition handleServerError (now : Z) (response : Response) (pos : nat)
    (m : AccountManager) (accountCount : Z)
  : EndpointLoopResult * AccountManager * list Event :=
  let retryAfterMs := 60000 in
  (RateLimit retryAfterMs, markRateLimited now pos retryAfterMs m,
   (if 1 <? accountCount then [EvToast (ToastServerError pos)] else []) ++ [EvSave]).

(** What one pass of the endpoint loop meets: [prepareAntigravityRequest]
    throws, [fetch] throws, or [fetch] answers. *)
Inductive FetchOutcome :=
| PrepareThrew (error : string)
| FetchThrew (error : string)
| Responded (response : Response).

(** The request as [prepareAntigravityRequest] leaves it; the URL is kept as
    the part after the authority, which [overrideEndpointForRequest] prefixes
    with the endpoint. *)
Record Prepared := mkPrepared {
  prep_path : string;
  prep_streaming : bool;
  prep_requestedModel : option string
}.

Definition attemptInfoOf (p : Prepared) (endpoint : string) : AttemptInfo :=
  mkAttemptInfo (endpoint ++ prep_path p) (prep_streaming p) (prep_requestedModel p).

Definition shouldRetryEndpoint (st : Z) : bool :=
  (st =? 403) || (st =? 404) || (500 <=? st).

Section EndpointLoop.
Variable fetchAt : string -> FetchOutcome.
Variable prepared : Prepared.
Variable now : Z.
Variable pos : nat.
Variable accountCount : Z.
(** [CODE_ASSIST_ENDPOINT_FALLBACKS.length] *)
Variable n : Z.

(** The [for] loop of [tryEndpointFallbacks] from index [i] on, [rest] being
    the endpoints at [i], [i+1], ... *)
Fixpoint endpointLoop (i : Z) (rest : list string) (lastError : option string)
    (lastResponse : option Response) (lastAttemptInfo : option AttemptInfo)
    (m : AccountManager)
  : Outcome EndpointLoopResult * AccountManager * list Event :=
  match rest with
  | [] =>
      match lastResponse with
      | Some r => (Returned (AllFailedResponse r lastAttemptInfo), m, [])
      | None =>
          (Returned (AllFailedError (default "All endpoints failed"%string lastError)), m, [])
      end
  | currentEndpoint :: rest' =>
      if negb (truthy currentEndpoint)
      then endpointLoop (i + 1) rest' lastError lastResponse lastAttemptInfo m
      else
        match fetchAt currentEndpoint with
        | PrepareThrew error =>
            if i <? n - 1
            then
              let '(r, m', evs) :=
                endpointLoop (i + 1) rest' (Some error) lastResponse lastAttemptInfo m in
              (r, m', EvAttempt currentEndpoint :: evs)
            else (Thrown error, m, [EvAttempt currentEndpoint])
        | FetchThrew error =>
            let info := attemptInfoOf prepared currentEndpoint in
            if i <? n - 1
            then
              let '(r, m', evs) :=
                endpointLoop (i + 1) rest' (Some error) lastResponse (Some info) m in
              (r, m', EvAttempt currentEndpoint :: evs)
            else (Thrown error, m, [EvAttempt currentEndpoint])
        | Responded response =>
            let info := attemptInfoOf prepared currentEndpoint in
            if status response =? 429 then
              let '(r, m', evs) := handleRateLimit now response pos m accountCount in
              (Returned r, m', EvAttempt currentEndpoint :: evs)
            else if (500 <=? status response) && (i =? n - 1) then
              let '(r, m', evs) := handleServerError now response pos m accountCount in
              (Returned r, m', EvAttempt currentEndpoint :: evs)
            else if shouldRetryEndpoint (status response) && (i <? n - 1) then
              let '(r, m', evs) :=
                endpointLoop (i + 1) rest' lastError (Some response) (Some info) m in
              (r, m', EvAttempt currentEndpoint :: evs)
            else
              (Returned (Success response (Some info)), m, [EvAttempt currentEndpoint])
        end
  end.
End EndpointLoop.

Definition tryEndpointFallbacksOn (endpoints : list string)
    (fetchAt : string -> FetchOutcome) (prepared : Prepared) (now : Z) (pos : nat)
    (m : AccountManager) (accountCount : Z)
  : Outcome EndpointLoopResult * AccountManager * list Event :=
  endpointLoop fetchAt prepared now pos accountCount (Z.of_nat (length endpoints))
    0 endpoints None None None m.

Definition tryEndpointFallbacks :=
  tryEndpointFallbacksOn CODE_ASSIST_ENDPOINT_FALLBACKS.

(** ** The loop of [createAntigravityFetch], one pass at a time *)

Inductive LoopStep :=
| Continue
| ReturnNormalized (response : Response) (streaming : bool) (requestedModel : option string)
| Throw (error : string).

(** What one pass reads from outside: the clock, the token collaborators
    ([accessTokenExpired], [refreshAccessToken]), [ensureProjectContext] and
    the network. *)
Record IterationEnv := mkIterationEnv {
  env_nowSelect : Z;
  env_nowAttempt : Z;
  env_tokenExpired : bool;
  env_refreshed : option (option string * option Z * RefreshParts);
  env_projectContext : Outcome string;
  env_fetchAt : string -> FetchOutcome;
  env_prepared : Prepared
}.

(** [a || b] on numbers. *)
Definition orElse (a b : Z) : Z := if a =? 0 then b else a.

Definition indexAt (m : AccountManager) (pos : nat) : Z :=
  from_option index 0 (accounts m !! pos).

(** The part of the loop body after [tryEndpointFallbacks] has returned. *)
Definition dispatch (now : Z) (accountCount : Z) (result : Outcome EndpointLoopResult)
    (m : AccountManager) : LoopStep * AccountManager * list Event :=
  match result with
  | Thrown error => (Throw error, m, [])
  | Returned RetrySoon => (Continue, m, [])
  | Returned (RateLimit retryAfterMs) =>
      if accountCount =? 1 then
        let waitMs := orElse retryAfterMs (orElse (getMinWaitTime now m) 1000) in
        (Continue, m, map EvSleep (sleepWithBackoff waitMs))
      else (Continue, m, [])
  | Returned (Success response attemptInfo) =>
      (ReturnNormalized response
         (from_option streaming false attemptInfo)
         (attemptInfo ≫= requestedModel),
       m, [EvAuthSet; EvSave])
  | Returned (AllFailedResponse response attemptInfo) =>
      match attemptInfo with
      | Some info =>
          (ReturnNormalized response (streaming info) (requestedModel info), m, [])
      | None => (Throw "All Antigravity endpoints failed", m, [])
      end
  | Returned (AllFailedError error) => (Throw error, m, [])
  end.

(** The head of the loop body: pick the account and record a switch.  The
    result is the position picked ([None]: all accounts are cooling down). *)
Definition selectAccount (now : Z) (m : AccountManager)
  : option nat * AccountManager * list Event :=
  let previousAccount := getCurrentAccount m in
  let '(account, m1) := getCurrentOrNext now m in
  match account with
  | None => (None, m1, [])
  | Some pos =>
      let isSwitch :=
        match previousAccount with
        | None => true
        | Some prev => negb (indexAt m1 prev =? indexAt m1 pos)
        end in
      let switchReason :=
        match previousAccount with
        | None => InitialSwitch
        | Some prev =>
            if from_option isRateLimited false (accounts m1 !! prev)
            then RateLimitSwitch else RotationSwitch
        end in
      if isSwitch then (Some pos, markSwitched pos switchReason m1, [EvSave])
      else (Some pos, m1, [])
  end.

(** [selectAccount] with the two readings of the clock that
    [getCurrentOrNext] makes. *)
Definition selectAccountAt (now now' : Z) (m : AccountManager)
  : option nat * AccountManager * list Event :=
  let previousAccount := getCurrentAccount m in
  let '(account, m1) := getCurrentOrNextAt now now' m in
  match account with
  | None => (None, m1, [])
  | Some pos =>
      let isSwitch :=
        match previousAccount with
        | None => true
        | Some prev => negb (indexAt m1 prev =? indexAt m1 pos)
        end in
      let switchReason :=
        match previousAccount with
        | None => InitialSwitch
        | Some prev =>
            if from_option isRateLimited false (accounts m1 !! prev)
            then RateLimitSwitch else RotationSwitch
        end in
      if isSwitch then (Some pos, markSwitched pos switchReason m1, [EvSave])
      else (Some pos, m1, [])
  end.

Definition iteration (env : IterationEnv) (accountCount : Z) (m : AccountManager)
  : LoopStep * AccountManager * list Event :=
  let '(account, m2, evSwitch) := selectAccount (env_nowSelect env) m in
  match account with
  | None =>
      let waitTimeMs := orElse (getMinWaitTime (env_nowSelect env) m2) 60000 in
      (Continue, m2,
       EvToast (ToastAllLimited (ceilSeconds waitTimeMs))
         :: map EvSleep (sleepWithBackoff waitTimeMs))
  | Some pos =>
      let storedAccess := accounts m2 !! pos ≫= access in
      let afterToken :=
        if env_tokenExpired env then
          match env_refreshed env with
          | None => None
          | Some (acc, exp, p) =>
              Some (acc, updateAccount pos acc exp (Some p) m2, [EvSave])
          end
        else Some (storedAccess, m2, []) in
      match afterToken with
      | None => (Continue, m2, evSwitch)
      | Some (accessToken, m3, evToken) =>
          if negb (from_option truthy false accessToken)
          then (Continue, m3, evSwitch ++ evToken)
          else
            match env_projectContext env with
            | Thrown error => (Throw error, m3, evSwitch ++ evToken)
            | Returned _ =>
                let '(result, m4, evTry) :=
                  tryEndpointFallbacks (env_fetchAt env) (env_prepared env)
                    (env_nowAttempt env) pos m3 accountCount in
                let '(step, m5, evAfter) :=
                  dispatch (env_nowAttempt env) accountCount result m4 in
                (step, m5, evSwitch ++ evToken ++ evTry ++ evAfter)
            end
      end
  end.

(** The endpoints the loop passed through, in order. *)
Definition attempts (evs : list Event) : list string :=
  omap (fun e => match e with EvAttempt endpoint => Some endpoint | _ => None end) evs.

(** Total time slept. *)
Definition slept (evs : list Event) : Z :=
  foldr Z.add 0 (omap (fun e => match e with EvSleep ms => Some ms | _ => None end) evs).

(** ** Sample traffic *)

Definition answer (st : Z) (hs : list (string * string)) : FetchOutcome :=
  Responded (mkResponse st (list_to_map hs) None).

(** A 429 answer asking for one second. *)
Definition brief429 : Response :=
  mkResponse 429 (list_to_map [("retry-after-ms", "1000")]) None.

(** A 429 answer asking for a minute. *)
Definition long429 : Response :=
  mkResponse 429 (list_to_map [("retry-after-ms", "60000")]) None.

(** The first endpoint answers 404 and the second 429 with a one-second
    [retry-after-ms]. *)
Definition brief429OnSecond (endpoint : string) : FetchOutcome :=
  if String.eqb endpoint CODE_ASSIST_ENDPOINT_DAILY then answer 404 []
  else if String.eqb endpoint CODE_ASSIST_ENDPOINT_AUTOPUSH
  then Responded brief429
  else answer 200 [].

(** Two endpoints answer 404, the last one 200. *)
Definition notFoundTwice (endpoint : string) : FetchOutcome :=
  if String.eqb endpoint CODE_ASSIST_ENDPOINT_PROD then answer 200 [] else answer 404 [].

Definition samplePrepared : Prepared :=
  mkPrepared "/v1internal:generateContent" false (Some "gemini-3-pro-preview").

Definition sampleEnv (fetchAt : string -> FetchOutcome) (now : Z) : IterationEnv :=
  mkIterationEnv now now false None (Returned "project") fetchAt samplePrepared.

(** Two accounts, both holding a token. *)
Definition poolTwo : AccountManager :=
  mkAccountManager
    [ mkManagedAccount 0 (mkRefreshParts "refresh-a" None None) (Some "token-a") None
        false 0 0 None None;
      mkManagedAccount 1 (mkRefreshParts "refresh-b" None None) (Some "token-b") None
        false 0 0 None None ]
    0 (-1).

(** ** Reading an outcome *)

(** The error with which the pass at an endpoint threw, if it threw. *)
Definition threw (o : FetchOutcome) : option string :=
  match o with
  | PrepareThrew error | FetchThrew error => Some error
  | Responded _ => None
  end.

(** The endpoint answered with a status of 500 or above. *)
Definition serverError (o : FetchOutcome) : bool :=
  match o with
  | Responded response => 500 <=? status response
  | _ => false
  end.

(** What makes the loop go on to the next endpoint, when there is one: the
    pass threw, or the endpoint answered 403, 404 or a status of 500 or
    above. *)
Definition fallsThrough (o : FetchOutcome) : bool :=
  match o with
  | PrepareThrew _ | FetchThrew _ => true
  | Responded response =>
      negb (status response =? 429) && shouldRetryEndpoint (status response)
  end.

(** The endpoints of [endpoints] the answers lead through: the first one,
    and each further one as long as the one before it falls through. *)
Fixpoint attempted (fetchAt : string -> FetchOutcome) (endpoints : list string)
  : list string :=
  match endpoints with
  | [] => []
  | e :: rest => e :: (if fallsThrough (fetchAt e) then attempted fetchAt rest else [])
  end.

End Fetch.

(** * The payload transformers: [src/plugin/transform/gemini.ts] and
      [src/plugin/transform/claude.ts], with the thinking-configuration
      helper of [src/plugin/request-helpers.ts] and the signature cache of
      [src/plugin/cache.ts]

    The request payload is kept to the fields the transformers' conversation,
    generation-configuration and tool-name passes work on; parts, function
    calls and responses are records whose optional fields hold strings, the
    other properties of a part travelling in [partRest].  Logging and the
    counters kept only for logging are left out.  String lengths count
    characters of [string].  claude.ts is followed in the revision that
    consults the signature cache and raises the output-token ceiling
    ([src/unnamed/part_001]); the earlier revision
    ([src/plugin/transform/claude.ts]) defaults the budget to 1024, has no
    ceiling step and does not touch the cache, and its pairing of function
    calls and responses is the same: of it the generation-configuration step
    is embedded beside the later one, as [earlierGenerationConfig]. *)
Module Transform.

Inductive ModelFamily := Claude | Gemini.

Record FunctionCall := mkFunctionCall {
  fc_name : option string;
  fc_id : option string;
  fc_args : option JValue
}.

Record FunctionResponse := mkFunctionResponse {
  fr_name : option string;
  fr_id : option string;
  fr_response : option JValue
}.

(** [thought] is [part.thought === true]. *)
Record Part := mkPart {
  thought : bool;
  text : option string;
  thoughtSignature : option string;
  functionCall : option FunctionCall;
  functionResponse : option FunctionResponse;
  partRest : list (string * JValue)
}.

(** [parts] is [None] when [content.parts] is not an array. *)
Record Content := mkContent {
  role : option string;
  parts : option (list Part)
}.

Record FunctionDeclaration := mkFunctionDeclaration {
  fd_name : option string;
  fd_rest : list (string * JValue)
}.

Record Tool := mkTool {
  functionDeclarations : option (list FunctionDeclaration);
  toolRest : list (string * JValue)
}.

(** [generationConfig] as the caller sends it. *)
Record GenerationConfig := mkGenerationConfig {
  thinkingConfig : option JValue;
  maxOutputTokens : option Z;
  max_output_tokens : option Z;
  generationRest : list (string * JValue)
}.

(** [ThinkingConfig] of request-helpers, with the [include_thoughts] property
    the Claude transformer adds to it. *)
Record ThinkingConfig := mkThinkingConfig {
  thinkingBudget : option Z;
  thinkingLevel : option string;
  includeThoughts : option bool;
  include_thoughts : option bool
}.

(** The [thinkingConfig] of the output: the normalized object, the
    snake-case object built for thinking models, or the caller's own value
    where it is falsy ([null], [false], 0 or the empty string) and so is
    neither normalized nor deleted. *)
Inductive ThinkingOut :=
| Normalized (config : ThinkingConfig)
| FinalThinking (include_thoughts_out : bool) (thinking_budget : option Z)
| Untouched (raw : JValue).

Record GenerationConfigOut := mkGenerationConfigOut {
  out_thinkingConfig : option ThinkingOut;
  out_maxOutputTokens : option Z;
  out_max_output_tokens : option Z;
  out_generationRest : list (string * JValue)
}.

Record RequestPayload := mkRequestPayload {
  generationConfig : option GenerationConfig;
  tools : option (list Tool);
  contents : option (list Content)
}.

Record RequestPayloadOut := mkRequestPayloadOut {
  req_generationConfig : option GenerationConfigOut;
  req_tools : option (list Tool);
  req_contents : option (list Content);
  req_sessionId : string
}.

Record TransformContext := mkTransformContext {
  model : string;
  family : ModelFamily;
  projectId : string;
  streaming : bool;
  requestId : string;
  sessionId : string
}.

(** The object handed to [JSON.stringify]. *)
Record WrappedBody := mkWrappedBody {
  wb_project : string;
  wb_model : string;
  wb_userAgent : string;
  wb_requestId : string;
  wb_request : RequestPayloadOut
}.

Definition THOUGHT_SIGNATURE_BYPASS : string := "skip_thought_signature_validator".

Definition set_thoughtSignature (sig : option string) (p : Part) : Part :=
  mkPart (thought p) (text p) sig (functionCall p) (functionResponse p) (partRest p).

Definition set_functionCall (fc : option FunctionCall) (p : Part) : Part :=
  mkPart (thought p) (text p) (thoughtSignature p) fc (functionResponse p) (partRest p).

Definition set_functionResponse (fr : option FunctionResponse) (p : Part) : Part :=
  mkPart (thought p) (text p) (thoughtSignature p) (functionCall p) fr (partRest p).

Definition set_parts (ps : list Part) (c : Content) : Content := mkContent (role c) (Some ps).

(** ** Strings *)

Definition isLetter (c : ascii) : bool :=
  let n := nat_of_ascii c in
  ((65 <=? n)%nat && (n <=? 90)%nat) || ((97 <=? n)%nat && (n <=? 122)%nat).

(** [/^[0-9]/.test(name)] *)
Definition startsWithDigit (name : string) : bool :=
  match name with
  | String c _ => isDigit c
  | EmptyString => false
  end.

(** The classes of [^[A-Za-z_][A-Za-z0-9_-]*$]. *)
Definition isNameStart (c : ascii) : bool := isLetter c || (nat_of_ascii c =? 95)%nat.

Definition isNameChar (c : ascii) : bool :=
  isLetter c || isDigit c || (nat_of_ascii c =? 95)%nat || (nat_of_ascii c =? 45)%nat.

Fixpoint allNameChars (s : string) : bool :=
  match s with
  | String c s' => isNameChar c && allNameChars s'
  | EmptyString => true
  end.

Definition matchesToolNamePattern (s : string) : bool :=
  match s with
  | String c s' => isNameStart c && allNameChars s'
  | EmptyString => false
  end.

(** [haystack.includes(needle)] *)
Fixpoint includes (needle haystack : string) : bool :=
  String.prefix needle haystack ||
  match haystack with
  | String _ rest => includes needle rest
  | EmptyString => false
  end.

Definition lowerAscii (c : ascii) : ascii :=
  let n := nat_of_ascii c in
  if (65 <=? n)%nat && (n <=? 90)%nat then ascii_of_nat (n + 32) else c.

Fixpoint toLowerCase (s : string) : string :=
  match s with
  | String c s' => String (lowerAscii c) (toLowerCase s')
  | EmptyString => EmptyString
  end.

(** ** Tool names (gemini.ts) *)

Definition sanitizeToolNameForGemini (name : string) : string :=
  if startsWithDigit name then ("t_" ++ name)%string else name.

Definition sanitizeToolNames (ts : option (list Tool)) : option (list Tool) :=
  (fun l =>
     map (fun tool =>
            mkTool
              ((fun decls =>
                  map (fun func =>
                         mkFunctionDeclaration (sanitizeToolNameForGemini <$> fd_name func)
                           (fd_rest func)) decls)
                 <$> functionDeclarations tool)
              (toolRest tool)) l) <$> ts.

(** ** [normalizeThinkingConfig] (request-helpers.ts) *)

(** [a ?? b] on properties read from an object. *)
Definition nullishField (a b : option JValue) : option JValue :=
  match a with
  | None | Some JNull => b
  | Some _ => a
  end.

Definition truthyJ (v : JValue) : bool :=
  match v with
  | JNull => false
  | JBool b => b
  | JNum n => negb (n =? 0)
  | JStr s => truthy s
  | JArr _ | JObj _ => true
  end.

Definition normalizeThinkingConfig (config : option JValue) : option ThinkingConfig :=
  match config with
  | Some record =>
      if isObjectLike record then
        let budgetRaw :=
          nullishField (getField "thinkingBudget" record) (getField "thinking_budget" record) in
        let levelRaw :=
          nullishField (getField "thinkingLevel" record) (getField "thinking_level" record) in
        let includeRaw :=
          nullishField (getField "includeThoughts" record) (getField "include_thoughts" record) in
        let budget := match budgetRaw with Some (JNum n) => Some n | _ => None end in
        let level :=
          match levelRaw with
          | Some (JStr s) => if truthy s then Some (toLowerCase s) else None
          | _ => None
          end in
        let incl := match includeRaw with Some (JBool b) => Some b | _ => None end in
        match budget, level, incl with
        | None, None, None => None
        | _, _, _ => Some (mkThinkingConfig budget level incl None)
        end
      else None
  | None => None
  end.

(** [else if (rawGenerationConfig?.thinkingConfig) delete ...]: what is left
    of a [thinkingConfig] that did not normalize. *)
Definition unnormalizedThinking (g : GenerationConfig) : option ThinkingOut :=
  match thinkingConfig g with
  | Some raw => if truthyJ raw then None else Some (Untouched raw)
  | None => None
  end.

(** The generation-configuration step both transformers share (the whole of
    it in gemini.ts, the branch for models that are not thinking variants in
    claude.ts). *)
Definition writeNormalizedThinking (raw : option GenerationConfig)
  : option GenerationConfigOut :=
  match normalizeThinkingConfig (raw ≫= thinkingConfig) with
  | Some normalized =>
      match raw with
      | Some g =>
          Some (mkGenerationConfigOut (Some (Normalized normalized)) (maxOutputTokens g)
                  (max_output_tokens g) (generationRest g))
      | None => Some (mkGenerationConfigOut (Some (Normalized normalized)) None None [])
      end
  | None =>
      (fun g => mkGenerationConfigOut (unnormalizedThinking g) (maxOutputTokens g)
                  (max_output_tokens g) (generationRest g)) <$> raw
  end.

(** The branch of claude.ts for thinking variants. *)
Definition thinkingGenerationConfig (raw : option GenerationConfig)
  : option GenerationConfigOut :=
  let normalizedThinking :=
    match normalizeThinkingConfig (raw ≫= thinkingConfig) with
    | None => mkThinkingConfig (Some 16384) None None (Some true)
    | Some nt =>
        let incl :=
          match include_thoughts nt with
          | None => Some true
          | Some b => Some b
          end in
        let budget :=
          match thinkingBudget nt with
          | None => Some 16384
          | Some b => if b =? 0 then Some 16384 else Some b
          end in
        mkThinkingConfig budget (thinkingLevel nt) (includeThoughts nt) incl
    end in
  (* [normalizedThinking.thinkingBudget] when truthy *)
  let budget :=
    match thinkingBudget normalizedThinking with
    | Some b => if b =? 0 then None else Some b
    | None => None
    end in
  let finalThinkingConfig :=
    FinalThinking (default true (include_thoughts normalizedThinking)) budget in
  match raw with
  | Some g =>
      let currentMax := nullish (maxOutputTokens g) (max_output_tokens g) in
      let tooLow (b : Z) :=
        match currentMax with
        | None => true
        | Some c => (c =? 0) || (c <=? b)
        end in
      match budget with
      | Some b =>
          if tooLow b
          then Some (mkGenerationConfigOut (Some finalThinkingConfig) (Some 64000) None
                       (generationRest g))
          else Some (mkGenerationConfigOut (Some finalThinkingConfig) (maxOutputTokens g)
                       (max_output_tokens g) (generationRest g))
      | None =>
          Some (mkGenerationConfigOut (Some finalThinkingConfig) (maxOutputTokens g)
                  (max_output_tokens g) (generationRest g))
      end
  | None =>
      Some (mkGenerationConfigOut (Some finalThinkingConfig)
              (match budget with Some _ => Some 64000 | None => None end) None [])
  end.

(** The same step in the earlier revision of claude.ts
    ([src/plugin/transform/claude.ts], lines 46-79): the default budget is
    1024, the normalized object is written back as it is, with
    [include_thoughts] added for thinking variants, and the ceiling on
    output tokens is not touched. *)
Definition earlierGenerationConfig (isThinkingModel : bool) (raw : option GenerationConfig)
  : option GenerationConfigOut :=
  let normalizedThinking :=
    if isThinkingModel then
      Some (match normalizeThinkingConfig (raw ≫= thinkingConfig) with
            | None => mkThinkingConfig (Some 1024) None None (Some true)
            | Some nt =>
                let incl :=
                  match include_thoughts nt with
                  | None => Some true
                  | Some b => Some b
                  end in
                let budget :=
                  match thinkingBudget nt with
                  | None => Some 1024
                  | Some b => if b =? 0 then Some 1024 else Some b
                  end in
                mkThinkingConfig budget (thinkingLevel nt) (includeThoughts nt) incl
            end)
    else normalizeThinkingConfig (raw ≫= thinkingConfig) in
  match normalizedThinking with
  | Some normalized =>
      match raw with
      | Some g =>
          Some (mkGenerationConfigOut (Some (Normalized normalized)) (maxOutputTokens g)
                  (max_output_tokens g) (generationRest g))
      | None => Some (mkGenerationConfigOut (Some (Normalized normalized)) None None [])
      end
  | None =>
      (fun g => mkGenerationConfigOut (unnormalizedThinking g) (maxOutputTokens g)
                  (max_output_tokens g) (generationRest g)) <$> raw
  end.

(** The value the backend reads as the ceiling on output tokens. *)
Definition effectiveMaxOutputTokens (g : GenerationConfigOut) : option Z :=
  nullish (out_maxOutputTokens g) (out_max_output_tokens g).

Definition reasoningBudget (g : GenerationConfigOut) : option Z :=
  match out_thinkingConfig g with
  | Some (FinalThinking _ b) => b
  | Some (Normalized c) => thinkingBudget c
  | Some (Untouched _) | None => None
  end.

Definition includesThoughts (g : GenerationConfigOut) : option bool :=
  match out_thinkingConfig g with
  | Some (FinalThinking i _) => Some i
  | Some (Normalized c) => includeThoughts c
  | Some (Untouched _) | None => None
  end.

(** ** The signature cache (cache.ts) and the conversation passes *)

(** [context.family] as the string it is, one of ["claude"] and
    ["gemini"]. *)
Definition familyName (fam : ModelFamily) : string :=
  match fam with Claude => "claude" | Gemini => "gemini" end.

Section Conversation.
(** [createHash("sha256").update(input).digest("hex")]. *)
Variable sha256 : string -> string.

(** [randomUUID()]: the value of the k-th draw. *)
Variable randomUUID : nat -> string.

(** cache.ts, lines 74-96.  The functions take the session identifier and
    the thought text, [cacheSignature] the signature as its third
    parameter. *)
Definition getSignatureKey (sessionId thoughtText : string) : string :=
  sha256 (sessionId ++ ":" ++ thoughtText).

Definition cacheSignature (sessionId thoughtText signature : string)
    (signatureCache : gmap string string) : gmap string string :=
  <[getSignatureKey sessionId thoughtText := signature]> signatureCache.

Definition getCachedSignature (sessionId thoughtText : string)
    (signatureCache : gmap string string) : option string :=
  signatureCache !! getSignatureKey sessionId thoughtText.

(** The transformers call the cache with [context.family] written in front
    of the other arguments: [getCachedSignature(context.family,
    context.sessionId, text)] and [cacheSignature(context.family,
    context.sessionId, part.text, signature)].  Against the parameter lists
    above the family arrives as [sessionId] and the session identifier as
    [thoughtText]; the lookup's third argument is dropped, and the call that
    stores binds [part.text] to [signature] and drops its fourth argument.
    The calls are embedded as they evaluate. *)

(** *** gemini.ts *)

(** One pass of the loop over the parts of a model turn: [None] when the
    part is dropped. *)
Definition geminiPart (context : TransformContext) (signatureCache : gmap string string)
    (part : Part) : option Part :=
  if thought part then
    match text part with
    | Some thoughtText =>
        if truthy thoughtText && truthy (sessionId context) then
          match getCachedSignature (familyName (family context)) (sessionId context)
                  signatureCache with
          | Some cachedSig =>
              if truthy cachedSig then Some (set_thoughtSignature (Some cachedSig) part)
              else None
          | None => None
          end
        else None
    | None => None
    end
  else
    match functionCall part with
    | Some _ => Some (set_thoughtSignature (Some THOUGHT_SIGNATURE_BYPASS) part)
    | None => Some part
    end.

Definition geminiContent (context : TransformContext) (signatureCache : gmap string string)
    (content : Content) : Content :=
  if negb (bool_decide (role content = Some "model"%string)) then content
  else
    match parts content with
    | Some ps => set_parts (omap (geminiPart context signatureCache) ps) content
    | None => content
    end.

Definition transformGeminiRequest (context : TransformContext)
    (signatureCache : gmap string string) (parsedBody : RequestPayload) : WrappedBody :=
  mkWrappedBody (projectId context) (model context) "antigravity" (requestId context)
    (mkRequestPayloadOut
       (writeNormalizedThinking (generationConfig parsedBody))
       (sanitizeToolNames (tools parsedBody))
       (map (geminiContent context signatureCache) <$> contents parsedBody)
       (sessionId context)).

(** *** claude.ts *)

(** What the loop over the conversation carries along: the signature cache,
    [funcCallIdQueues] and the number of UUIDs drawn so far. *)
Record ClaudeState := mkClaudeState {
  signatures : gmap string string;
  funcCallIdQueues : gmap string (list string);
  drawn : nat
}.

(** [!signature || (typeof signature === "string" && signature.length < 50)] *)
Definition needsRestore (signature : option string) : bool :=
  match signature with
  | Some s => negb (truthy s) || (String.length s <? 50)%nat
  | None => true
  end.

(** The reasoning-part step: the part with its signature restored when the
    cache has one, and the cache after the step; [None] when the part is
    dropped. *)
Definition claudeThought (context : TransformContext) (signatureCache : gmap string string)
    (part : Part) : option (Part * gmap string string) :=
  let restored :=
    if needsRestore (thoughtSignature part) then
      match text part with
      | Some t =>
          match getCachedSignature (familyName (family context)) (sessionId context)
                  signatureCache with
          | Some cached => if truthy cached then Some cached else None
          | None => None
          end
      | None => None
      end
    else None in
  let signature := match restored with Some c => Some c | None => thoughtSignature part end in
  let part1 := match restored with Some c => set_thoughtSignature (Some c) part | None => part end in
  match signature with
  | Some s =>
      if (50 <? String.length s)%nat then
        match text part with
        | Some t =>
            if truthy (sessionId context)
            then Some (part1, cacheSignature (familyName (family context))
                                (sessionId context) t signatureCache)
            else Some (part1, signatureCache)
        | None => Some (part1, signatureCache)
        end
      else None
  | None => None
  end.

(** The function-call step: an identifier is drawn when the call has none,
    and the call's identifier joins the queue of its name. *)
Definition claudeFunctionCall (st : ClaudeState) (part : Part) : Part * ClaudeState :=
  match functionCall part with
  | Some fc =>
      match fc_name fc with
      | Some name =>
          let '(fc1, n) :=
            if from_option truthy false (fc_id fc) then (fc, drawn st)
            else (mkFunctionCall (fc_name fc)
                    (Some (name ++ "-" ++ randomUUID (drawn st))%string) (fc_args fc),
                  S (drawn st)) in
          let queue := default [] (funcCallIdQueues st !! name) in
          (set_functionCall (Some fc1) part,
           mkClaudeState (signatures st)
             (<[name := queue ++ [default ""%string (fc_id fc1)]]> (funcCallIdQueues st)) n)
      | None => (part, st)
      end
  | None => (part, st)
  end.

(** The function-response step: a response without identifier takes the
    oldest identifier waiting under its name. *)
Definition claudeFunctionResponse (st : ClaudeState) (part : Part) : Part * ClaudeState :=
  match functionResponse part with
  | Some fr =>
      match fr_name fr with
      | Some name =>
          if from_option truthy false (fr_id fr) then (part, st)
          else
            match funcCallIdQueues st !! name with
            | Some (id :: queue) =>
                (set_functionResponse
                   (Some (mkFunctionResponse (fr_name fr) (Some id) (fr_response fr))) part,
                 mkClaudeState (signatures st) (<[name := queue]> (funcCallIdQueues st))
                   (drawn st))
            | _ => (part, st)
            end
      | None => (part, st)
      end
  | None => (part, st)
  end.

Definition claudePart (context : TransformContext) (st : ClaudeState) (part : Part)
  : option Part * ClaudeState :=
  let kept :=
    if thought part then
      match claudeThought context (signatures st) part with
      | Some (part1, signatureCache) =>
          Some (part1, mkClaudeState signatureCache (funcCallIdQueues st) (drawn st))
      | None => None
      end
    else Some (part, st) in
  match kept with
  | None => (None, st)
  | Some (part1, st1) =>
      let '(part2, st2) := claudeFunctionCall st1 part1 in
      let '(part3, st3) := claudeFunctionResponse st2 part2 in
      (Some part3, st3)
  end.

Fixpoint claudeParts (context : TransformContext) (st : ClaudeState) (ps : list Part)
  : list Part * ClaudeState :=
  match ps with
  | [] => ([], st)
  | part :: rest =>
      let '(kept, st1) := claudePart context st part in
      let '(filtered, st2) := claudeParts context st1 rest in
      (match kept with Some p => p :: filtered | None => filtered end, st2)
  end.

Fixpoint claudeContents (context : TransformContext) (st : ClaudeState) (cs : list Content)
  : list Content * ClaudeState :=
  match cs with
  | [] => ([], st)
  | content :: rest =>
      match parts content with
      | Some ps =>
          let '(filteredParts, st1) := claudeParts context st ps in
          let '(rest', st2) := claudeContents context st1 rest in
          (set_parts filteredParts content :: rest', st2)
      | None =>
          let '(rest', st1) := claudeContents context st rest in
          (content :: rest', st1)
      end
  end.

(** [transformClaudeRequest]: the wrapped body, the signature cache and the
    number of UUIDs drawn after the call.  The tool-schema passes and the
    system-instruction preamble work on fields outside this payload. *)
Definition transformClaudeRequest (context : TransformContext)
    (signatureCache : gmap string string) (drawnBefore : nat) (parsedBody : RequestPayload)
  : WrappedBody * gmap string string * nat :=
  let isThinkingModel := includes "-thinking" (model context) in
  let generation :=
    if isThinkingModel then thinkingGenerationConfig (generationConfig parsedBody)
    else writeNormalizedThinking (generationConfig parsedBody) in
  let '(contentsOut, st) :=
    match contents parsedBody with
    | Some cs =>
        let '(cs', st) :=
          claudeContents context (mkClaudeState signatureCache ∅ drawnBefore) cs in
        (Some cs', st)
    | None => (None, mkClaudeState signatureCache ∅ drawnBefore)
    end in
  let generation' :=
    if String.eqb (model context) "gemini-claude-sonnet-4-5"
    then (fun g =>
            mkGenerationConfigOut
              (match out_thinkingConfig g with
               | Some (Untouched raw) => Some (Untouched raw)
               | _ => None
               end)
              (out_maxOutputTokens g) (out_max_output_tokens g) (out_generationRest g))
           <$> generation
    else generation in
  (mkWrappedBody (projectId context) (model context) "antigravity" (requestId context)
     (mkRequestPayloadOut generation' (tools parsedBody) contentsOut (sessionId context)),
   signatures st, drawn st).
End Conversation.

(** ** Reading identifiers off a conversation *)

(** All parts of a conversation, in order. *)
Definition allParts (cs : list Content) : list Part := mjoin (omap parts cs).

(** The identifiers of the function calls named [name], in order. *)
Definition callIds (name : string) (ps : list Part) : list (option string) :=
  omap (fun p => functionCall p ≫= fun fc =>
                 if bool_decide (fc_name fc = Some name) then Some (fc_id fc) else None) ps.

(** The identifiers of the function responses named [name], in order. *)
Definition responseIds (name : string) (ps : list Part) : list (option string) :=
  omap (fun p => functionResponse p ≫= fun fr =>
                 if bool_decide (fr_name fr = Some name) then Some (fr_id fr) else None) ps.

(** A part that neither calls nor answers [name]. *)
Definition neutralFor (name : string) (p : Part) : bool :=
  negb (bool_decide (functionCall p ≫= fc_name = Some name))
  && negb (bool_decide (functionResponse p ≫= fr_name = Some name)).

(** A part that is a call of [name] without identifier, and nothing else. *)
Definition isBareCall (name : string) (p : Part) : bool :=
  negb (thought p) &&
  match functionCall p, functionResponse p with
  | Some fc, None =>
      bool_decide (fc_name fc = Some name) && negb (from_option truthy false (fc_id fc))
  | _, _ => false
  end.

(** A part that is a response of [name] without identifier, and nothing
    else. *)
Definition isBareResponse (name : string) (p : Part) : bool :=
  negb (thought p) &&
  match functionCall p, functionResponse p with
  | None, Some fr =>
      bool_decide (fr_name fr = Some name) && negb (from_option truthy false (fr_id fr))
  | _, _ => false
  end.

(** ** Sample data *)

(** A digest that tells all inputs apart: the input itself. *)
Definition sampleDigest (input : string) : string := input.

Definition sampleUUID (k : nat) : string :=
  match k with
  | O => "00000000-0000-4000-8000-000000000000"
  | S O => "00000000-0000-4000-8000-000000000001"
  | _ => "00000000-0000-4000-8000-000000000002"
  end.

Definition claudeContext : TransformContext :=
  mkTransformContext "claude-opus-4-5-thinking" Claude "test-project" true
    "test-request-id" "test-session-id".

Definition geminiContext : TransformContext :=
  mkTransformContext "gemini-3-pro-high" Gemini "test-project" true
    "test-request-id" "test-session-id".

Definition longSignature : string :=
  "RXJRQ0NrZ0lDaEFDR0FJcVFKdmIzVzdUKzcyNE9nS29LTVdocXpIOEVuZFB3VzltelFLZENYT2xTMWs5dXF3RUdNcTMz".

Definition thinkingPart (sig : option string) : Part :=
  mkPart true (Some "I am thinking..."%string) sig None None [].

Definition textPart (t : string) : Part := mkPart false (Some t) None None None [].

Definition searchCall (query : string) : Part :=
  mkPart false None None
    (Some (mkFunctionCall (Some "search"%string) None (Some (JObj [("query"%string, JStr query)]))))
    None [].

Definition searchResponse (result : string) : Part :=
  mkPart false None None None
    (Some (mkFunctionResponse (Some "search"%string) None (Some (JStr result)))) [].

(** ** The claim's reading of budget and ceiling *)

(** The budget and the ceiling the caller asked for. *)
Definition callerBudget (body : RequestPayload) : option Z :=
  normalizeThinkingConfig (generationConfig body ≫= thinkingConfig) ≫= thinkingBudget.

Definition callerMaxOutputTokens (body : RequestPayload) : option Z :=
  generationConfig body ≫= fun g => nullish (maxOutputTokens g) (max_output_tokens g).

Definition budgetFor (body : RequestPayload) : Z :=
  match callerBudget body with
  | Some b => if b =? 0 then 16384 else b
  | None => 16384
  end.

Definition ceilingFor (body : RequestPayload) : Z :=
  match callerMaxOutputTokens body with
  | Some c => if (c =? 0) || (c <=? budgetFor body) then 64000 else c
  | None => 64000
  end.

(** ** More sample data *)

(** A thinking budget of 64000 and no ceiling. *)
Definition budget64000 : RequestPayload :=
  mkRequestPayload
    (Some (mkGenerationConfig (Some (JObj [("thinkingBudget"%string, JNum 64000)])) None None []))
    None None.

(** A user turn holding a reasoning part, a function call and a signature. *)
Definition userTurn : Content :=
  mkContent (Some "user"%string)
    (Some [ mkPart false (Some "Hello"%string) (Some "user-sig-should-stay"%string) None None [];
            thinkingPart None;
            searchCall "test" ]).

(** A model turn with a signed reasoning part, and the same turn as it comes
    back in a later request, the signature gone. *)
Definition signedTurn : Content :=
  mkContent (Some "model"%string)
    (Some [thinkingPart (Some longSignature); textPart "Here is my response"]).

Definition unsignedTurn : Content :=
  mkContent (Some "model"%string)
    (Some [thinkingPart None; textPart "Here is my response"]).

Definition conversationOf (turn : Content) : RequestPayload :=
  mkRequestPayload None None (Some [mkContent (Some "user"%string) (Some [textPart "Hello"]); turn]).

(** The signatures of the reasoning parts of the wrapped output. *)
Definition reasoningSignatures (w : WrappedBody) : list (option string) :=
  thoughtSignature <$>
    filter (fun p => thought p = true)
      (mjoin (omap parts (default [] (req_contents (wb_request w))))).

(** Two calls of [search] in one model turn, answered in the next turn. *)
Definition searchConversation : list Content :=
  [ mkContent (Some "user"%string) (Some [textPart "Find both"]);
    mkContent (Some "model"%string) (Some [searchCall "first"; searchCall "second"]);
    mkContent (Some "user"%string)
      (Some [searchResponse "first result"; searchResponse "second result"]) ].

(** ** What the Gemini transformer guarantees of a part it lets through *)

Definition geminiSigned (sha256 : string -> string)
    (context : TransformContext) (signatureCache : gmap string string) (p : Part) : Prop :=
  if thought p then
    exists t sig,
      text p = Some t /\ truthy t = true /\ truthy (sessionId context) = true
      /\ getCachedSignature sha256 (familyName (family context)) (sessionId context)
           signatureCache = Some sig
      /\ truthy sig = true /\ thoughtSignature p = Some sig
  else
    is_Some (functionCall p) -> thoughtSignature p = Some THOUGHT_SIGNATURE_BYPASS.

(** The sentinel written on a function call that is not a reasoning part. *)
Definition bypassed (p : Part) : Part :=
  match functionCall p with
  | Some _ => set_thoughtSignature (Some THOUGHT_SIGNATURE_BYPASS) p
  | None => p
  end.

(** The names of the function declarations of a payload, tool by tool. *)
Definition declaredNames (ts : option (list Tool)) : list (list (option string)) :=
  map (fun tool => map fd_name (default [] (functionDeclarations tool))) (default [] ts).

(** ** What the Claude transformer guarantees of a part it lets through *)

(** A reasoning part carries a signature of more than 50 characters. *)
Definition claudeSigned (p : Part) : Prop :=
  thought p = true ->
  exists s, thoughtSignature p = Some s /\ (50 < String.length s)%nat.

(** A named function call carries a non-empty identifier. *)
Definition callIdentified (p : Part) : Prop :=
  forall fc, functionCall p = Some fc -> is_Some (fc_name fc) ->
  exists id, fc_id fc = Some id /\ truthy id = true.

(** The text of the last reasoning part of [ps] that has one. *)
Definition lastThoughtText (ps : list Part) : option string :=
  last (omap (fun p => if thought p then text p else None) ps).

(** The cache once the calls of [cacheSignature] for the reasoning parts
    [ps] are done, in a context with a session identifier: one entry, under
    the key of (family, session), holding the text of the last of them. *)
Definition cachedAfter (sha256 : string -> string) (context : TransformContext)
    (ps : list Part) (before : gmap string string) : gmap string string :=
  match lastThoughtText ps with
  | Some t =>
      if truthy (sessionId context)
      then <[getSignatureKey sha256 (familyName (family context)) (sessionId context) := t]>
             before
      else before
  | None => before
  end.

End Transform.

(** * The response normalizer: [src/plugin/request-helpers.ts] and the
      buffered path of [transformAntigravityResponse] in
      [src/plugin/request.ts]

    The body is kept as the value [JSON.parse] gives for its text.  Token
    counts are integers.  Of the signature caching done while the body is
    read, what bears on the response is kept: whether the walk throws.  Its
    writes to the cache, the debug log and the wording of the toasts are
    left out. *)
Module Normalizer.

Record GeminiUsageMetadata := mkGeminiUsageMetadata {
  totalTokenCount : option Z;
  promptTokenCount : option Z;
  candidatesTokenCount : option Z;
  cachedContentTokenCount : option Z
}.

Fixpoint assocSet {A} (k : string) (v : A) (l : list (string * A)) : list (string * A) :=
  match l with
  | [] => [(k, v)]
  | (k', v') :: l' => if String.eqb k k' then (k, v) :: l' else (k', v') :: assocSet k v l'
  end.

(** [{...value, k: v}] *)
Definition setField (k : string) (v : JValue) (value : JValue) : JValue :=
  match value with
  | JObj fields => JObj (assocSet k v fields)
  | _ => JObj [(k, v)]
  end.

(** [s.trim()] on ASCII white space. *)
Definition trim (s : string) : string :=
  String.rev (Fetch.skipWhiteSpace (String.rev (Fetch.skipWhiteSpace s))).

(** The body after [JSON.parse]: the first object of an array, or the object
    itself. *)
Definition parseGeminiApiBody (parsed : option JValue) : option JValue :=
  match parsed with
  | Some (JArr items) => List.find isObjectLike items
  | Some v => if isObjectLike v then Some v else None
  | None => None
  end.

Definition toNumber (value : option JValue) : option Z :=
  match value with
  | Some (JNum n) => Some n
  | _ => None
  end.

Definition extractUsageMetadata (body : JValue) : option GeminiUsageMetadata :=
  let usage :=
    match getField "response" body with
    | Some response =>
        if isObjectLike response then getField "usageMetadata" response else None
    | None => None
    end in
  match usage with
  | Some asRecord =>
      if isObjectLike asRecord then
        Some (mkGeminiUsageMetadata
                (toNumber (getField "totalTokenCount" asRecord))
                (toNumber (getField "promptTokenCount" asRecord))
                (toNumber (getField "candidatesTokenCount" asRecord))
                (toNumber (getField "cachedContentTokenCount" asRecord)))
      else None
  | None => None
  end.

(** [/gemini[\s-]?3/i.test(target)], on ASCII. *)
Definition geminiThreeAt (s : string) : bool :=
  String.eqb (Transform.toLowerCase (substring 0 6 s)) "gemini" &&
  match substring 6 2 s with
  | String "3" _ => true
  | String c (String "3" _) => Fetch.isWhiteSpace c || Ascii.eqb c "-"
  | _ => false
  end.

Fixpoint isGeminiThreeModel (target : string) : bool :=
  geminiThreeAt target ||
  match target with
  | String _ rest => isGeminiThreeModel rest
  | EmptyString => false
  end.

(** The properties of [body.error ?? {}] when the error is an object.  An
    error that is a string or an array is read the same way (it has no
    [message], [code] or [status]), but [{...error}] would copy its
    characters or elements under their positions, which is left out here:
    what is proved of a rewritten error is proved under [plainError]. *)
Definition errorFields (body : JValue) : list (string * JValue) :=
  match getField "error" body with
  | Some (JObj fields) => fields
  | _ => []
  end.

(** The body is a plain object whose [error], when there is one, is [null]
    or a plain object. *)
Definition plainError (body : JValue) : bool :=
  match body with
  | JObj _ =>
      match getField "error" body with
      | None | Some JNull | Some (JObj _) => true
      | Some _ => false
      end
  | _ => false
  end.

Definition errorMessage (body : JValue) : string :=
  match assoc "message" (errorFields body) with
  | Some (JStr s) => s
  | _ => ""
  end.

Definition needsPreviewAccessOverride (st : Z) (body : JValue)
    (requestedModel : option string) : bool :=
  if negb (st =? 404) then false
  else if from_option isGeminiThreeModel false requestedModel then true
  else isGeminiThreeModel (errorMessage body).

Definition GEMINI_PREVIEW_LINK : string := "https://goo.gle/enable-preview-features".

Definition rewriteGeminiPreviewAccessError (body : JValue) (st : Z)
    (requestedModel : option string) : option JValue :=
  if needsPreviewAccessOverride st body requestedModel then
    let trimmedMessage := trim (errorMessage body) in
    let messagePrefix :=
      if truthy trimmedMessage then trimmedMessage
      else "Gemini 3 preview features are not enabled for this account."%string in
    let enhancedMessage :=
      (messagePrefix ++ " Request preview access at " ++ GEMINI_PREVIEW_LINK
         ++ " before using Gemini 3 models.")%string in
    Some (setField "error"
            (JObj (assocSet "message" (JStr enhancedMessage) (errorFields body))) body)
  else None.

Definition rewriteGeminiRateLimitError (body : JValue) : option JValue :=
  let error := errorFields body in
  let isRateLimit :=
    match assoc "code" error with Some (JNum 429) => true | _ => false end
    || match assoc "status" error with
       | Some (JStr s) => String.eqb s "RESOURCE_EXHAUSTED"
       | _ => false
       end in
  if isRateLimit then
    let message :=
      match assoc "message" error with
      | None | Some JNull =>
          JStr "You have exhausted your capacity on this model. Please try again later."
      | Some m => m
      end in
    Some (setField "error" (JObj (assocSet "message" message error)) body)
  else None.

(** ** What the normalizer takes from its surroundings

    [textRejects]: [response.text()] rejects.  [toastRejects]: an awaited
    [client.tui.showToast] rejects.  [constructorThrows]:
    [new Response(body, init)] throws, as the Fetch Standard has it do on a
    status outside 200-599 and on a body given with a null-body status.
    [exponentForm]: [String(n)] for a number of 22 digits or more, which is
    written with an exponent. *)
Record Runtime := mkRuntime {
  textRejects : bool;
  toastRejects : bool;
  constructorThrows : bool;
  exponentForm : Z -> string
}.

(** [String(n)] for an integer. *)
Definition numberToString (runtime : Runtime) (n : Z) : string :=
  if Z.abs n <? 10 ^ 21 then pretty n else exponentForm runtime n.

(** The header writes at the end of the buffered path. *)
Definition usageHeaders (runtime : Runtime) (usage : option GeminiUsageMetadata)
    (hs : gmap string string) : gmap string string :=
  match usage ≫= cachedContentTokenCount with
  | Some cached =>
      let h1 :=
        <["x-gemini-cached-content-token-count"%string := numberToString runtime cached]> hs in
      let h2 :=
        match usage ≫= totalTokenCount with
        | Some n => <["x-gemini-total-token-count"%string := numberToString runtime n]> h1
        | None => h1
        end in
      let h3 :=
        match usage ≫= promptTokenCount with
        | Some n => <["x-gemini-prompt-token-count"%string := numberToString runtime n]> h2
        | None => h2
        end in
      match usage ≫= candidatesTokenCount with
      | Some n => <["x-gemini-candidates-token-count"%string := numberToString runtime n]> h3
      | None => h3
      end
  | None => hs
  end.

(** ** The signature-caching block

    [transformAntigravityResponse] and the stream of
    [createSseTransformStream] walk through [response.candidates] to cache
    thought signatures.  The walk writes nothing to the output, but it throws
    on a body it does not expect, and then the surrounding [catch] decides
    the result. *)

(** [part.thought] on a part: reading a property of [null] throws. *)
Definition partThrows (part : JValue) : bool :=
  match part with JNull => true | _ => false end.

(** [candidate.content.parts.forEach(...)], entered when [parts] is truthy:
    only an array has [forEach]. *)
Definition partsThrow (parts : JValue) : bool :=
  match parts with
  | JArr items => existsb partThrows items
  | _ => true
  end.

Definition candidateThrows (candidate : JValue) : bool :=
  match candidate with
  | JNull => true
  | _ =>
      match getField "content" candidate ≫= getField "parts" with
      | Some contentParts =>
          if Transform.truthyJ contentParts then partsThrow contentParts else false
      | None => false
      end
  end.

(** Whether the walk throws on [body]; it is not entered without a session
    identifier. *)
Definition cachingThrows (sessionId : option string) (body : JValue) : bool :=
  if negb (from_option truthy false sessionId) then false
  else
    match getField "response" body ≫= getField "candidates" with
    | Some candidates =>
        if Transform.truthyJ candidates then
          match candidates with
          | JArr items => existsb candidateThrows items
          | _ => true
          end
        else false
    | None => false
    end.

(** ** [transformAntigravityResponse] *)

Inductive NormalizedBody :=
| OriginalText
| FlattenedSse
| JsonBody (v : JValue).

(** What the call gives its caller.  [PassedThrough]: the upstream response,
    not read.  [StreamedThrough]: a new response around the transformed
    stream.  [Rebuilt]: a new response with the status, headers and body
    given.  [Caught]: the upstream response as the [catch] returns it, once
    [response.text()] has been called on it: its body is consumed.
    [Rejected]: the call rejects. *)
Inductive Normalized :=
| PassedThrough (response : Response)
| StreamedThrough
| Rebuilt (st : Z) (hs : gmap string string) (b : NormalizedBody)
| Caught (response : Response)
| Rejected.

(** The error rewrite of the buffered path: the preview-access rewrite, or
    else the rate-limit rewrite. *)
Definition patchedBody (response : Response) (requestedModel : option string)
  : option JValue :=
  let parsed := parseGeminiApiBody (body response) in
  let previewErrorFixed :=
    parsed ≫= fun b => rewriteGeminiPreviewAccessError b (status response) requestedModel in
  let rateLimitErrorFixed :=
    match parsed, previewErrorFixed with
    | Some b, None => rewriteGeminiRateLimitError b
    | _, _ => None
    end in
  nullish previewErrorFixed rateLimitErrorFixed.

(** Whether something inside the [try] of the buffered path throws: reading
    the text, the signature-caching walk, the toast awaited when an error
    rewrite applied (the rewritten body always has an [error]), or the
    construction of the response. *)
Definition tryThrows (runtime : Runtime) (sessionId : option string) (response : Response)
    (requestedModel : option string) : bool :=
  textRejects runtime
  || from_option (cachingThrows sessionId) false (parseGeminiApiBody (body response))
  || (bool_decide (is_Some (patchedBody response requestedModel)) && toastRejects runtime)
  || constructorThrows runtime.

(** [transformAntigravityResponse].  [hasStream] is the truth of
    [response.body]; [usageFromSsePayload] is what
    [extractUsageFromSsePayload] finds in the text. *)
Definition transformAntigravityResponse (runtime : Runtime) (sessionId : option string)
    (response : Response) (streaming : bool)
    (requestedModel : option string) (hasStream : bool)
    (usageFromSsePayload : option GeminiUsageMetadata) : Normalized :=
  let contentType := default ""%string (headers response !! "content-type"%string) in
  let isJsonResponse := Transform.includes "application/json" contentType in
  let isEventStreamResponse := Transform.includes "text/event-stream" contentType in
  let ok := (200 <=? status response) && (status response <=? 299) in
  if negb isJsonResponse && negb isEventStreamResponse then PassedThrough response
  else if streaming && ok && isEventStreamResponse && hasStream then
    if constructorThrows runtime then Rejected else StreamedThrough
  else if tryThrows runtime sessionId response requestedModel then Caught response
  else
    let usageFromSse :=
      if streaming && isEventStreamResponse then usageFromSsePayload else None in
    let parsed := parseGeminiApiBody (body response) in
    let patched := patchedBody response requestedModel in
    let effectiveBody := nullish patched parsed in
    let usage := nullish usageFromSse (effectiveBody ≫= extractUsageMetadata) in
    let hs := usageHeaders runtime usage (headers response) in
    Rebuilt (status response) hs
      (if streaming && ok && isEventStreamResponse then FlattenedSse
       else
         match parsed with
         | None => OriginalText
         | Some _ =>
             match effectiveBody ≫= getField "response" with
             | Some r => JsonBody r
             | None =>
                 match patched with
                 | Some p => JsonBody p
                 | None => OriginalText
                 end
             end
         end).

(** ** Sample responses *)

(** Surroundings in which nothing fails. *)
Definition quietRuntime : Runtime := mkRuntime false false false (fun _ => ""%string).







(** ** Server-sent events: [transformSseLine], [transformStreamingPayload]
       and [createSseTransformStream] of request.ts

    [JSON.parse] and [JSON.stringify] are parameters, [parseJson] giving
    [None] where [JSON.parse] throws. *)

(** [s.split("\n")] *)
Fixpoint splitLines (s : string) : list string :=
  match s with
  | EmptyString => [EmptyString]
  | String c s' =>
      if Ascii.eqb c "010" then EmptyString :: splitLines s'
      else
        match splitLines s' with
        | line :: lines => String c line :: lines
        | [] => [String c EmptyString]
        end
  end.

(** [lines.join("\n")] *)
Definition joinLines (lines : list string) : string := String.concat (String "010" "") lines.

(** [line.startsWith("data:")] *)
Definition startsWithData (line : string) : bool :=
  String.eqb (substring 0 5 line) "data:".

Section Sse.
Variable parseJson : string -> option JValue.
Variable stringify : JValue -> string.
(** The error handler of [transformAntigravityResponse], when one is given. *)
Variable onError : option (JValue -> option JValue).

(** [onParsed] tells whether the callback throws on the body it is given. *)
Definition transformSseLine (onParsed : option (JValue -> bool)) (line : string) : string :=
  if negb (startsWithData line) then line
  else
    let json := trim (substring 5 (String.length line - 5) line) in
    if negb (truthy json) then line
    else
      match parseJson json with
      | None => line
      | Some parsed =>
          let found :=
            match parsed with
            | JArr items => List.find isObjectLike items
            | v => Some v
            end in
          match found with
          | Some body =>
              if negb (isObjectLike body) then line
              else if from_option (fun callback => callback body) false onParsed then line
              else
                let rewritten :=
                  match getField "error" body with
                  | Some e =>
                      if Transform.truthyJ e then onError ≫= fun handler => handler body
                      else None
                  | None => None
                  end in
                match rewritten with
                | Some r => ("data: " ++ stringify r)%string
                | None =>
                    match getField "response" body with
                    (* reading [usageMetadata] of [null] throws, and the
                       [catch] returns the line *)
                    | Some JNull => line
                    | Some r => ("data: " ++ stringify r)%string
                    | None => line
                    end
                end
          | None => line
          end
      end.

Definition transformStreamingPayload (payload : string) : string :=
  joinLines (map (transformSseLine None) (splitLines payload)).

(** The [sessionId] given to [createSseTransformStream]. *)
Variable sessionId : option string.

(** [transform(chunk, controller)]: what is enqueued, and the buffer kept. *)
Definition sseTransform (buffer chunk : string) : list string * string :=
  let lines := splitLines (buffer ++ chunk) in
  (map (fun line =>
          (transformSseLine (Some (cachingThrows sessionId)) line ++ String "010" "")%string)
       (removelast lines),
   List.last lines EmptyString).

(** [flush(controller)] *)
Definition sseFlush (buffer : string) : list string :=
  if truthy buffer then [transformSseLine None buffer] else [].

(** The stream fed with [chunks] and then closed: everything enqueued, in
    order. *)
Fixpoint sseStream (buffer : string) (chunks : list string) : list string :=
  match chunks with
  | [] => sseFlush buffer
  | chunk :: rest =>
      let '(out, buffer') := sseTransform buffer chunk in
      out ++ sseStream buffer' rest
  end.
End Sse.


End Normalizer.

(** * The auth cache: [src/plugin/cache.ts]

    [authCache] is the map the functions read and write; it is passed in and
    handed back.  [accessTokenExpired] belongs to the auth module and is a
    parameter. *)
Module AuthCache.
Import Accounts.

(** [normalizeRefreshKey]: the trimmed refresh token, when it is not empty. *)
Definition normalizeRefreshKey (refresh : option string) : option string :=
  match refresh with
  | Some r =>
      let key := Normalizer.trim r in
      if truthy key then Some key else None
  | None => None
  end.

Section Resolve.
Variable accessTokenExpired : OAuthAuthDetails -> bool.

Definition resolveCachedAuth (auth : OAuthAuthDetails)
    (authCache : gmap string OAuthAuthDetails)
  : OAuthAuthDetails * gmap string OAuthAuthDetails :=
  match normalizeRefreshKey (Some (auth_refresh auth)) with
  | None => (auth, authCache)
  | Some key =>
      match authCache !! key with
      | None => (auth, <[key := auth]> authCache)
      | Some cached =>
          if negb (accessTokenExpired auth) then (auth, <[key := auth]> authCache)
          else if negb (accessTokenExpired cached) then (cached, authCache)
          else (auth, <[key := auth]> authCache)
      end
  end.
End Resolve.

Definition storeCachedAuth (auth : OAuthAuthDetails)
    (authCache : gmap string OAuthAuthDetails) : gmap string OAuthAuthDetails :=
  match normalizeRefreshKey (Some (auth_refresh auth)) with
  | Some key => <[key := auth]> authCache
  | None => authCache
  end.

(** [clearCachedAuth(refresh)]: everything when [refresh] is missing or
    empty. *)
Definition clearCachedAuth (refresh : option string)
    (authCache : gmap string OAuthAuthDetails) : gmap string OAuthAuthDetails :=
  match refresh with
  | Some r =>
      if truthy r then
        match normalizeRefreshKey refresh with
        | Some key => delete key authCache
        | None => authCache
        end
      else ∅
  | None => ∅
  end.

(** The key under which [auth] is cached. *)
Definition keyOf (auth : OAuthAuthDetails) : option string :=
  normalizeRefreshKey (Some (auth_refresh auth)).

End AuthCache.

(** * The logical call: the loop of the function [createAntigravityFetch]
      returns, with the answer of the response normalizer at its end

    The call is followed from its [while (true)] on, the pool and the
    account count being those the lines before it set up.  Each pass reads
    its own surroundings, so the call is given them as a list; it is
    [Unfinished] when the list runs out before the loop has returned or
    thrown.  [reading] gives, for a response, the truth of [response.body]
    and the usage [extractUsageFromSsePayload] finds in its text. *)
Module Call.
Import Accounts Fetch Normalizer.

Inductive CallResult :=
| Answered (answer : Normalized)
| Failed (error : string)
| Unfinished.

(** The result of the call, the pool it leaves and the events of its passes,
    pass by pass. *)
Fixpoint fetchLoop (runtime : Runtime) (sessionId : option string)
    (reading : Response -> bool * option GeminiUsageMetadata)
    (envs : list IterationEnv) (accountCount : Z) (m : AccountManager)
  : CallResult * AccountManager * list (list Event) :=
  match envs with
  | [] => (Unfinished, m, [])
  | env :: envs' =>
      let '(step, m', evs) := iteration env accountCount m in
      match step with
      | Continue =>
          let '(result, m'', passes) :=
            fetchLoop runtime sessionId reading envs' accountCount m' in
          (result, m'', evs :: passes)
      | ReturnNormalized response streaming requestedModel =>
          (Answered (transformAntigravityResponse runtime sessionId response streaming
                       requestedModel (reading response).1 (reading response).2),
           m', [evs])
      | Throw error => (Failed error, m', [evs])
      end
  end.

(** The first pass meets a brief 429 on the second endpoint, the second
    pass two 404 and then a 200. *)
Definition retriedCall : list IterationEnv :=
  [sampleEnv brief429OnSecond 100; sampleEnv notFoundTwice 1200].

End Call.

(** * Properties of the account pool *)
Module AccountsTheory.
Import Accounts.

(** Every account's [index] field is its position. *)
Definition indexed (m : AccountManager) : Prop :=
  forall p a, accounts m !! p = Some a -> index a = Z.of_nat p.

Definition noneLimited (l : list ManagedAccount) : Prop :=
  Forall (fun a => isRateLimited a = false) l.

Lemma mapi_from_lookup {A B} (f : A -> nat -> B) (l : list A) (i p : nat) :
  mapi_from f i l !! p = (fun x => f x (i + p)%nat) <$> l !! p.
Proof.
  revert i p. induction l as [|x l IH]; intros i p; [done|].
  destruct p as [|p]; simpl.
  - by rewrite Nat.add_0_r.
  - rewrite IH. by replace (S i + p)%nat with (i + S p)%nat by lia.
Qed.

Lemma mapi_from_length {A B} (f : A -> nat -> B) (l : list A) (i : nat) :
  length (mapi_from f i l) = length l.
Proof. revert i. induction l as [|x l IH]; intros i; simpl; [done|]. by rewrite IH. Qed.

Lemma availableFrom_noneLimited now i l :
  noneLimited l -> availableFrom now i l = seq i (length l).
Proof.
  intros H. revert i. induction H as [|a l Ha _ IH]; intros i; simpl; [done|].
  unfold isAvailable. rewrite Ha. simpl. by rewrite IH.
Qed.

Lemma expireLimit_noneLimited now l :
  noneLimited l -> map (expireLimit now) l = l.
Proof.
  induction 1 as [|a l Ha _ IH]; [done|].
  cbn [map]. rewrite IH. unfold expireLimit. by rewrite Ha.
Qed.

Lemma noneLimited_alter_lastUsed now p l :
  noneLimited l -> noneLimited (alter (set_lastUsed now) p l).
Proof.
  intros H. revert p. induction H as [|a l Ha Hl IH]; intros p; [constructor|].
  destruct p as [|p]; constructor; try done. apply IH.
Qed.

(** One call of [getNext] on a pool without rate-limited accounts. *)
Lemma getNext_noneLimited now m :
  (0 < length (accounts m))%nat -> noneLimited (accounts m) -> 0 <= currentIndex m ->
  let N := Z.of_nat (length (accounts m)) in
  let p := Z.to_nat (currentIndex m mod N) in
  getNext now m =
    (Some p,
     mkAccountManager (alter (set_lastUsed now) p (accounts m)) (currentIndex m + 1)
       (currentAccountIndex m)).
Proof.
  intros Hlen Hnl Hc N p. unfold getNext.
  rewrite availableFrom_noneLimited by done.
  destruct (seq 0 (length (accounts m))) as [|x xs] eqn:Hseq.
  { apply (f_equal length) in Hseq. rewrite length_seq in Hseq. simpl in Hseq. lia. }
  rewrite <- Hseq. rewrite length_seq. fold N.
  assert (HN : 0 < N) by (unfold N; lia).
  rewrite Z.rem_mod_nonneg by lia.
  pose proof (Z.mod_pos_bound (currentIndex m) N HN) as Hb.
  destruct (Z.ltb_spec (currentIndex m mod N) 0) as [?|_]; [lia|].
  fold p. rewrite lookup_seq_lt by (unfold p, N in *; lia). simpl.
  unfold set_accounts. simpl. by rewrite expireLimit_noneLimited.
Qed.

Lemma getNextMany_noneLimited nows : forall m,
  (0 < length (accounts m))%nat -> noneLimited (accounts m) -> 0 <= currentIndex m ->
  (getNextMany nows m).1 =
    map (fun k => Some (Z.to_nat ((currentIndex m + Z.of_nat k)
                                    mod Z.of_nat (length (accounts m)))))
        (seq 0 (length nows)).
Proof.
  induction nows as [|now rest IH]; intros m Hlen Hnl Hc; [done|].
  simpl. rewrite getNext_noneLimited by done.
  set (m1 := mkAccountManager _ _ _).
  specialize (IH m1). destruct (getNextMany rest m1) as [rs m2]. simpl in *.
  rewrite IH; unfold m1; simpl; rewrite ?length_alter;
    auto using noneLimited_alter_lastUsed; try lia.
  f_equal; [by rewrite Z.add_0_r|].
  rewrite <- seq_shift, map_map. apply map_ext. intros k.
  do 3 f_equal. lia.
Qed.

Lemma rotation_NoDup (c : Z) (N : nat) :
  0 <= c -> NoDup (map (fun k => Z.to_nat ((c + Z.of_nat k) mod Z.of_nat N)) (seq 0 N)).
Proof.
  intros Hc. destruct N as [|N']; [constructor|]. set (N := S N').
  apply NoDup_fmap_2_strong; [|apply NoDup_seq].
  intros x y Hx%elem_of_seq Hy%elem_of_seq Heq.
  assert (HN : 0 < Z.of_nat N) by (unfold N; lia).
  pose proof (Z.mod_pos_bound (c + Z.of_nat x) _ HN).
  pose proof (Z.mod_pos_bound (c + Z.of_nat y) _ HN).
  apply Z2Nat.inj in Heq; [|lia..].
  assert (HN0 : Z.of_nat N <> 0) by lia.
  pose proof (Z.div_mod (c + Z.of_nat x) _ HN0) as Ex.
  pose proof (Z.div_mod (c + Z.of_nat y) _ HN0) as Ey.
  rewrite Heq in Ex.
  assert ((c + Z.of_nat x) / Z.of_nat N = (c + Z.of_nat y) / Z.of_nat N) by nia.
  nia.
Qed.

Lemma rotation_Permutation (c : Z) (N : nat) :
  0 <= c ->
  map (fun k => Z.to_nat ((c + Z.of_nat k) mod Z.of_nat N)) (seq 0 N) ≡ₚ seq 0 N.
Proof.
  intros Hc. apply submseteq_length_Permutation.
  - apply NoDup_submseteq; [by apply rotation_NoDup|].
    intros x [k [-> Hk%elem_of_seq]]%list_elem_of_fmap.
    apply elem_of_seq.
    assert (HN : 0 < Z.of_nat N) by lia.
    pose proof (Z.mod_pos_bound (c + Z.of_nat k) _ HN). lia.
  - by rewrite length_map.
Qed.

(** C3, as amended.  On a pool of N >= 1 accounts none of which is
    rate-limited and whose round-robin cursor [c] is not negative, N
    consecutive calls of [getNext] return the accounts at positions
    [(c + k) mod N] for k = 0 .. N-1: every account exactly once, in insertion
    order taken cyclically from position [c mod N]; this is plain insertion
    order exactly when [c mod N = 0], as on a freshly constructed pool
    without a stored active index. *)
Theorem getNext_round_robin (m : AccountManager) (nows : list Z) :
  (1 <= length (accounts m))%nat ->
  noneLimited (accounts m) ->
  0 <= currentIndex m ->
  length nows = length (accounts m) ->
  let N := length (accounts m) in
  let visited := (getNextMany nows m).1 in
  visited =
    map (fun k => Some (Z.to_nat ((currentIndex m + Z.of_nat k) mod Z.of_nat N))) (seq 0 N)
  /\ omap id visited ≡ₚ seq 0 N
  /\ (currentIndex m mod Z.of_nat N = 0 -> visited = map Some (seq 0 N)).
Proof.
  intros Hlen Hnl Hc Hnows N visited.
  assert (Hv : visited =
    map (fun k => Some (Z.to_nat ((currentIndex m + Z.of_nat k) mod Z.of_nat N))) (seq 0 N)).
  { unfold visited. rewrite getNextMany_noneLimited by (done || lia).
    by rewrite Hnows. }
  split; [exact Hv|]. split.
  - rewrite Hv. rewrite <- (rotation_Permutation (currentIndex m) N Hc) at 2.
    rewrite <- (map_map (fun k => Z.to_nat ((currentIndex m + Z.of_nat k) mod Z.of_nat N)) Some).
    generalize (map (fun k => Z.to_nat ((currentIndex m + Z.of_nat k) mod Z.of_nat N)) (seq 0 N)).
    intros l. induction l as [|x l IH]; [done|]. simpl. by rewrite IH.
  - intros Hz. rewrite Hv. apply map_ext_in. intros k Hk%in_seq.
    f_equal.
    replace (currentIndex m + Z.of_nat k)
      with (Z.of_nat k + (currentIndex m / Z.of_nat N) * Z.of_nat N)
      by (pose proof (Z.div_mod (currentIndex m) (Z.of_nat N)); lia).
    rewrite Z_mod_plus_full, Z.mod_small by lia. lia.
Qed.

Lemma getNext_round_robin_witness :
  (getNextMany [10; 20; 30] poolThree).1 = [Some 1%nat; Some 2%nat; Some 0%nat]
  /\ omap id (getNextMany [10; 20; 30] poolThree).1 ≡ₚ [0%nat; 1%nat; 2%nat].
Proof.
  destruct (getNext_round_robin poolThree [10; 20; 30]) as (H1 & H2 & _).
  - simpl. lia.
  - repeat constructor.
  - simpl. lia.
  - reflexivity.
  - split; [exact H1 | exact H2].
Defined.

(** The claim as first stated fails on a pool whose cursor is not a multiple
    of the number of accounts: loaded with [activeIndex = 1], three accounts
    none rate-limited are visited in the order 1, 2, 0. *)
Lemma getNext_not_insertion_order :
  noneLimited (accounts poolThree)
  /\ (getNextMany [10; 20; 30] poolThree).1 = [Some 1%nat; Some 2%nat; Some 0%nat]
  /\ (getNextMany [10; 20; 30] poolThree).1 <> map Some (seq 0 3).
Proof.
  split; [repeat constructor|]. split; [reflexivity|]. discriminate.
Qed.

(** The accounts that remain after [removeAccount i], before re-indexing. *)
Lemma reindex_lookup l p :
  reindex l !! p = set_index (Z.of_nat p) <$> l !! p.
Proof. unfold reindex, mapi. by rewrite mapi_from_lookup. Qed.

(** C4, as amended.  [removeAccount i] with [i] out of range returns [false]
    and leaves the pool unchanged; with [i] in range it returns [true], the
    account at position [i] is gone, the others keep their order and every
    remaining account's [index] field equals its position; the round-robin
    cursor and the current-account pointer are left as they were. *)
Theorem removeAccount_spec (m : AccountManager) (i : Z) :
  (i < 0 \/ Z.of_nat (length (accounts m)) <= i -> removeAccount i m = (false, m))
  /\ (0 <= i < Z.of_nat (length (accounts m)) ->
      exists m',
        removeAccount i m = (true, m')
        /\ S (length (accounts m')) = length (accounts m)
        /\ (forall p a, accounts m' !! p = Some a -> index a = Z.of_nat p)
        /\ (forall p, (p < Z.to_nat i)%nat ->
              accounts m' !! p = set_index (Z.of_nat p) <$> accounts m !! p)
        /\ (forall p, (Z.to_nat i <= p)%nat ->
              accounts m' !! p = set_index (Z.of_nat p) <$> accounts m !! S p)
        /\ currentIndex m' = currentIndex m
        /\ currentAccountIndex m' = currentAccountIndex m).
Proof.
  unfold removeAccount. split.
  - intros [H|H].
    + destruct (Z.ltb_spec i 0); [done|lia].
    + destruct (Z.ltb_spec i 0); [done|].
      destruct (Z.leb_spec (Z.of_nat (length (accounts m))) i); [done|lia].
  - intros [H0 H1].
    destruct (Z.ltb_spec i 0); [lia|].
    destruct (Z.leb_spec (Z.of_nat (length (accounts m))) i); [lia|]. simpl.
    eexists. split; [reflexivity|]. simpl.
    assert (Hsome : is_Some (accounts m !! Z.to_nat i)).
    { apply lookup_lt_is_Some. lia. }
    repeat split.
    + unfold reindex, mapi. rewrite mapi_from_length, length_delete by done.
      assert (0 < length (accounts m))%nat by lia. lia.
    + intros p a. rewrite reindex_lookup.
      destruct (delete (Z.to_nat i) (accounts m) !! p); simpl; [|done].
      by intros [= <-].
    + intros p Hp. by rewrite reindex_lookup, list_lookup_delete_lt.
    + intros p Hp. by rewrite reindex_lookup, list_lookup_delete_ge.
Qed.

Lemma removeAccount_spec_witness :
  exists m', removeAccount 0 poolThreeCurrent = (true, m')
    /\ currentAccountIndex m' = currentAccountIndex poolThreeCurrent.
Proof.
  destruct (removeAccount_spec poolThreeCurrent 0) as [_ H].
  destruct H as (m' & E & _ & _ & _ & _ & _ & Hp); [simpl; lia|].
  exists m'. split; [exact E | exact Hp].
Defined.

(** The claim as first stated fails where it speaks of the pointer: with the
    second of three accounts current, removing the first leaves the pointer at
    1, which now designates the third account. *)
Lemma removeAccount_pointer_not_adjusted :
  currentToken poolThreeCurrent = Some "refresh-b"%string
  /\ (removeAccount 0 poolThreeCurrent).1 = true
  /\ currentAccountIndex (removeAccount 0 poolThreeCurrent).2 = 1
  /\ currentToken (removeAccount 0 poolThreeCurrent).2 = Some "refresh-c"%string.
Proof. repeat split. Qed.

End AccountsTheory.

(** * Properties of the orchestrator *)
Module FetchTheory.
Import Accounts Fetch AccountsTheory.

(** ** Backoff *)

Lemma stepMs_bounds (stepIndex : nat) :
  3000 <= default (default 30000 (last stepsMs)) (stepsMs !! stepIndex) <= 30000.
Proof. do 6 (destruct stepIndex as [|stepIndex]; [simpl; lia|]). simpl. lia. Qed.

Lemma sleepLoop_total (fuel : nat) : forall remainingMs stepIndex,
  0 <= remainingMs -> remainingMs <= 3000 * Z.of_nat fuel ->
  foldr Z.add 0 (sleepLoop fuel remainingMs stepIndex) = remainingMs.
Proof.
  induction fuel as [|fuel IH]; intros remainingMs stepIndex H0 Hf; simpl.
  - lia.
  - destruct (Z.ltb_spec 0 remainingMs) as [Hpos|Hle]; [|simpl; lia].
    pose proof (stepMs_bounds stepIndex) as Hs.
    set (stepMs := default _ _) in *. simpl.
    rewrite IH; lia.
Qed.

Lemma sleepWithBackoff_total (totalMs : Z) :
  foldr Z.add 0 (sleepWithBackoff totalMs) = Z.max 0 totalMs.
Proof.
  unfold sleepWithBackoff, sleepFuel. apply sleepLoop_total; [lia|].
  set (r := Z.max 0 totalMs). assert (0 <= r) by (unfold r; lia).
  pose proof (Z.div_mod r 3000 ltac:(lia)).
  pose proof (Z.mod_pos_bound r 3000 ltac:(lia)).
  rewrite Nat2Z.inj_succ, Z2Nat.id by (apply Z.div_pos; lia). lia.
Qed.

Lemma slept_sleeps (l : list Z) : slept (map EvSleep l) = foldr Z.add 0 l.
Proof. unfold slept. induction l as [|x l IH]; simpl; [done|]. by f_equal. Qed.

Lemma attempts_sleeps (l : list Z) : attempts (map EvSleep l) = [].
Proof. induction l as [|x l IH]; [done|]. exact IH. Qed.

Lemma attempts_app (l k : list Event) : attempts (l ++ k) = attempts l ++ attempts k.
Proof. unfold attempts. apply omap_app. Qed.

(** ** The endpoint loop *)

Lemma handleRateLimit_attempts now response pos m accountCount :
  attempts (handleRateLimit now response pos m accountCount).2 = [].
Proof.
  unfold handleRateLimit.
  destruct (accountCount =? 1); [done|].
  destruct (parseRetryAfterMs response <=? 5000); [|done].
  simpl. apply attempts_sleeps.
Qed.

Lemma handleServerError_attempts now response pos m accountCount :
  attempts (handleServerError now response pos m accountCount).2 = [].
Proof. unfold handleServerError. simpl. by destruct (1 <? accountCount). Qed.

Lemma endpointLoop_attempts fetchAt prepared now pos accountCount n rest :
  forall i lastError lastResponse lastAttemptInfo m,
  attempts (endpointLoop fetchAt prepared now pos accountCount n i rest
              lastError lastResponse lastAttemptInfo m).2
    `prefix_of` List.filter truthy rest.
Proof.
  induction rest as [|e rest IH]; intros i le lr li m.
  - simpl. destruct lr; simpl; apply prefix_nil.
  - cbn [endpointLoop List.filter].
    destruct (truthy e) eqn:He; cbn [negb]; [|apply IH].
    destruct (fetchAt e) as [err|err|response].
    + destruct (i <? n - 1).
      * specialize (IH (i + 1) (Some err) lr li m).
        destruct (endpointLoop _ _ _ _ _ _ _ _ _ _ _) as [[r m'] evs].
        simpl in *. by apply prefix_cons.
      * simpl. apply prefix_cons, prefix_nil.
    + destruct (i <? n - 1).
      * specialize (IH (i + 1) (Some err) lr (Some (attemptInfoOf prepared e)) m).
        destruct (endpointLoop _ _ _ _ _ _ _ _ _ _ _) as [[r m'] evs].
        simpl in *. by apply prefix_cons.
      * simpl. apply prefix_cons, prefix_nil.
    + destruct (status response =? 429).
      { pose proof (handleRateLimit_attempts now response pos m accountCount) as Ha.
        destruct (handleRateLimit _ _ _ _ _) as [[r m'] evs]. simpl in *.
        rewrite Ha. apply prefix_cons, prefix_nil. }
      destruct ((500 <=? status response) && (i =? n - 1)).
      { pose proof (handleServerError_attempts now response pos m accountCount) as Ha.
        destruct (handleServerError _ _ _ _ _) as [[r m'] evs]. simpl in *.
        rewrite Ha. apply prefix_cons, prefix_nil. }
      destruct (shouldRetryEndpoint (status response) && (i <? n - 1)).
      * specialize (IH (i + 1) le (Some response) (Some (attemptInfoOf prepared e)) m).
        destruct (endpointLoop _ _ _ _ _ _ _ _ _ _ _) as [[r m'] evs].
        simpl in *. by apply prefix_cons.
      * simpl. apply prefix_cons, prefix_nil.
Qed.

(** A 403, 404 or 5xx answer before the last endpoint: the loop goes on with
    the next endpoint, the pool and the account in use being what they were. *)
Lemma endpointLoop_next fetchAt prepared now pos accountCount n i e rest
    lastError lastResponse lastAttemptInfo m response :
  truthy e = true ->
  fetchAt e = Responded response ->
  status response = 403 \/ status response = 404 \/ 500 <= status response ->
  i < n - 1 ->
  endpointLoop fetchAt prepared now pos accountCount n i (e :: rest)
    lastError lastResponse lastAttemptInfo m =
  let '(r, m', evs) :=
    endpointLoop fetchAt prepared now pos accountCount n (i + 1) rest
      lastError (Some response) (Some (attemptInfoOf prepared e)) m in
  (r, m', EvAttempt e :: evs).
Proof.
  intros He Hf Hs Hi. cbn [endpointLoop]. rewrite He, Hf. cbn [negb].
  destruct (Z.eqb_spec (status response) 429) as [E|_]; [lia|].
  destruct (Z.eqb_spec i (n - 1)) as [E|_]; [lia|]. rewrite andb_false_r.
  assert (shouldRetryEndpoint (status response) = true) as ->.
  { unfold shouldRetryEndpoint. destruct Hs as [->| [->|H5]]; [done..|].
    destruct (Z.leb_spec 500 (status response)); [|lia]. by rewrite orb_true_r. }
  destruct (Z.ltb_spec i (n - 1)); [done|lia].
Qed.

(** ** Selection after a rate limit *)

Lemma getCurrentAccount_at m pos a :
  currentAccountIndex m = Z.of_nat pos -> accounts m !! pos = Some a ->
  getCurrentAccount m = Some pos.
Proof.
  intros Hc Ha. unfold getCurrentAccount. rewrite Hc, Nat2Z.id, Ha.
  pose proof (lookup_lt_Some _ _ _ Ha).
  destruct (Z.leb_spec 0 (Z.of_nat pos)); [|lia].
  destruct (Z.ltb_spec (Z.of_nat pos) (Z.of_nat (length (accounts m)))); [done|lia].
Qed.

Lemma getCurrentAccount_Some m pos :
  getCurrentAccount m = Some pos ->
  currentAccountIndex m = Z.of_nat pos /\ is_Some (accounts m !! pos).
Proof.
  unfold getCurrentAccount.
  destruct (Z.leb_spec 0 (currentAccountIndex m)); [|done].
  destruct (Z.ltb_spec (currentAccountIndex m) (Z.of_nat (length (accounts m)))); [|done].
  simpl. destruct (accounts m !! Z.to_nat (currentAccountIndex m)) eqn:E; [|done].
  intros [= <-]. rewrite E. split; [lia|eauto].
Qed.

Lemma availableFrom_elem now l : forall i p,
  p ∈ availableFrom now i l ->
  exists a, l !! (p - i)%nat = Some a /\ (i <= p)%nat /\ isAvailable now a = true.
Proof.
  induction l as [|a l IH]; intros i p; simpl; [by intros ?%elem_of_nil|].
  intros Hin.
  assert (Htail : p ∈ availableFrom now (S i) l ->
          exists a0, (a :: l) !! (p - i)%nat = Some a0 /\ (i <= p)%nat
                     /\ isAvailable now a0 = true).
  { intros (a0 & Hl & Hle & Hav)%IH. exists a0. split; [|split; [lia|done]].
    replace (p - i)%nat with (S (p - S i)) by lia. done. }
  destruct (isAvailable now a) eqn:Hav; [|by apply Htail].
  apply elem_of_cons in Hin as [->|Hin]; [|by apply Htail].
  exists a. rewrite Nat.sub_diag. by repeat split.
Qed.

Lemma expireLimit_available now a :
  isAvailable now a = true -> isRateLimited (expireLimit now a) = false.
Proof.
  unfold isAvailable, expireLimit.
  destruct (isRateLimited a) eqn:E, (rateLimitResetTime a <? now); simpl; try done.
Qed.

Lemma expireLimit_index now a : index (expireLimit now a) = index a.
Proof. unfold expireLimit. by destruct (_ && _). Qed.

(** What a successful [getNext] leaves behind. *)
Lemma getNext_Some now m pos m' :
  getNext now m = (Some pos, m') ->
  (exists a, accounts m !! pos = Some a /\ isAvailable now a = true
             /\ accounts m' !! pos = Some (set_lastUsed now (expireLimit now a)))
  /\ accounts m' = alter (set_lastUsed now) pos (map (expireLimit now) (accounts m))
  /\ currentAccountIndex m' = currentAccountIndex m.
Proof.
  unfold getNext.
  destruct (availableFrom now 0 (accounts m)) as [|x xs] eqn:Hav; [done|].
  rewrite <- Hav.
  destruct (_ <? 0); [done|].
  destruct (availableFrom now 0 (accounts m) !! _) as [p|] eqn:Hl; [|done].
  intros [= <- <-]. simpl.
  apply list_elem_of_lookup_2 in Hl.
  apply availableFrom_elem in Hl as (a & Ha & _ & Havail).
  rewrite Nat.sub_0_r in Ha.
  split; [|done]. exists a. repeat split; [done..|].
  by rewrite list_lookup_alter_eq, list_lookup_fmap, Ha.
Qed.

Lemma indexed_getNext now m r m' :
  indexed m -> getNext now m = (r, m') -> indexed m'.
Proof.
  intros Hi. unfold getNext.
  assert (Hm1 : indexed (set_accounts (map (expireLimit now) (accounts m)) m)).
  { intros p a. simpl. rewrite list_lookup_fmap.
    destruct (accounts m !! p) as [a0|] eqn:E; [|done]. simpl.
    intros [= <-]. rewrite expireLimit_index. by apply Hi. }
  destruct (availableFrom now 0 (accounts m)) as [|x xs] eqn:Hav.
  { by intros [= <- <-]. }
  rewrite <- Hav.
  destruct (_ <? 0); [by intros [= <- <-]|].
  destruct (availableFrom now 0 (accounts m) !! _) as [p|] eqn:Hl;
    [|by intros [= <- <-]].
  intros [= <- <-]. intros q a. simpl.
  rewrite list_lookup_alter.
  destruct (decide (p = q)) as [->|_]; [|apply Hm1].
  destruct (map (expireLimit now) (accounts m) !! q) as [a0|] eqn:E; [|done].
  simpl. intros [= <-]. simpl. by apply Hm1.
Qed.

(** The account in use stays selected while it is not rate-limited. *)
Lemma getCurrentOrNext_sticky now m pos a :
  currentAccountIndex m = Z.of_nat pos -> accounts m !! pos = Some a ->
  isRateLimited a = false ->
  getCurrentOrNext now m =
    (Some pos, set_accounts (<[pos := set_lastUsed now a]> (accounts m)) m).
Proof.
  intros Hc Ha Hl. unfold getCurrentOrNext.
  rewrite (getCurrentAccount_at m pos a Hc Ha), Ha, Hl. done.
Qed.

(** An account whose window is still open is not selected. *)
Lemma getCurrentOrNext_skips_limited now m pos a :
  currentAccountIndex m = Z.of_nat pos -> accounts m !! pos = Some a ->
  isRateLimited a = true -> now <= rateLimitResetTime a ->
  (getCurrentOrNext now m).1 <> Some pos.
Proof.
  intros Hc Ha Hl Ht. unfold getCurrentOrNext.
  rewrite (getCurrentAccount_at m pos a Hc Ha), Ha, Hl. simpl.
  destruct (Z.ltb_spec (rateLimitResetTime a) now); [lia|].
  destruct (getNext now m) as [[p|] m'] eqn:E; simpl; [|done].
  intros [= ->].
  apply getNext_Some in E as ((a' & Ha' & Hav & _) & _).
  rewrite Ha in Ha'. injection Ha' as <-.
  unfold isAvailable in Hav. rewrite Hl in Hav. simpl in Hav.
  destruct (Z.ltb_spec (rateLimitResetTime a) now); [lia|done].
Qed.

Lemma indexed_insert m pos a f :
  indexed m -> accounts m !! pos = Some a -> index (f a) = index a ->
  indexed (set_accounts (<[pos := f a]> (accounts m)) m).
Proof.
  intros Hi Ha Hf q b. simpl.
  destruct (decide (pos = q)) as [->|Hne].
  - rewrite list_lookup_insert_eq by (by eapply lookup_lt_Some).
    intros [= <-]. rewrite Hf. by apply Hi.
  - rewrite list_lookup_insert_ne by done. apply Hi.
Qed.

(** What [getCurrentOrNext] guarantees of the account it returns. *)
Lemma getCurrentOrNext_Some now m pos m1 :
  indexed m -> getCurrentOrNext now m = (Some pos, m1) ->
  indexed m1 /\ currentAccountIndex m1 = Z.of_nat pos
  /\ exists a, accounts m1 !! pos = Some a /\ isRateLimited a = false.
Proof.
  intros Hi. unfold getCurrentOrNext.
  assert (Hswitch :
    (let '(next, m') := getNext now m in
     match next with
     | Some pos0 =>
         (Some pos0,
          mkAccountManager (accounts m') (currentIndex m')
            (from_option index (currentAccountIndex m') (accounts m' !! pos0)))
     | None => (None, m')
     end) = (Some pos, m1) ->
    indexed m1 /\ currentAccountIndex m1 = Z.of_nat pos
    /\ exists a, accounts m1 !! pos = Some a /\ isRateLimited a = false).
  { destruct (getNext now m) as [[p|] m'] eqn:E; [|done].
    intros [= <- <-].
    pose proof (indexed_getNext _ _ _ _ Hi E) as Hi'.
    apply getNext_Some in E as ((a & Ha & Hav & Ha') & _ & _).
    simpl. rewrite Ha'. simpl. split; [exact Hi'|]. split.
    - rewrite expireLimit_index. by apply Hi.
    - eexists. split; [done|]. simpl. by apply expireLimit_available. }
  destruct (getCurrentAccount m) as [p0|] eqn:Hcur; [|exact Hswitch].
  apply getCurrentAccount_Some in Hcur as [Hc [a Ha]]. rewrite Ha.
  destruct (isRateLimited a) eqn:Hl; simpl.
  - destruct (rateLimitResetTime a <? now); [|exact Hswitch].
    intros [= <- <-]. split; [by apply (indexed_insert m p0 a
      (fun a => set_lastUsed now (set_isRateLimited false a)))|].
    split; [done|]. simpl.
    rewrite list_lookup_insert_eq by (by eapply lookup_lt_Some). eauto.
  - intros [= <- <-]. split; [by apply (indexed_insert m p0 a (set_lastUsed now))|].
    split; [done|]. simpl.
    rewrite list_lookup_insert_eq by (by eapply lookup_lt_Some). eauto.
Qed.

(** After the head of the loop body the account picked is the current one,
    sits at its own index and is not rate-limited. *)
Lemma selectAccount_current now m pos m2 evs :
  indexed m -> selectAccount now m = (Some pos, m2, evs) ->
  indexed m2 /\ currentAccountIndex m2 = Z.of_nat pos
  /\ exists a, accounts m2 !! pos = Some a /\ isRateLimited a = false.
Proof.
  intros Hi. unfold selectAccount.
  destruct (getCurrentOrNext now m) as [[p|] m1] eqn:E; [|done].
  apply getCurrentOrNext_Some in E as (Hi1 & Hc1 & a & Ha & Hl); [|done].
  assert (Hmark : forall reason,
    indexed (markSwitched p reason m1)
    /\ currentAccountIndex (markSwitched p reason m1) = Z.of_nat p
    /\ exists a0, accounts (markSwitched p reason m1) !! p = Some a0
                  /\ isRateLimited a0 = false).
  { intros reason. unfold markSwitched. rewrite Ha. simpl. split; [|split].
    - intros q b. simpl. destruct (decide (p = q)) as [->|Hne].
      + rewrite list_lookup_insert_eq by (by eapply lookup_lt_Some).
        intros [= <-]. simpl. by apply Hi1.
      + rewrite list_lookup_insert_ne by done. apply Hi1.
    - by apply Hi1.
    - rewrite list_lookup_insert_eq by (by eapply lookup_lt_Some). eauto. }
  destruct (match getCurrentAccount m with
            | Some prev => negb (indexAt m1 prev =? indexAt m1 p)
            | None => true
            end).
  - intros [= <- <- <-]. apply Hmark.
  - intros [= <- <- <-]. eauto.
Qed.

Lemma markRateLimited_lookup now pos r m a :
  accounts m !! pos = Some a ->
  accounts (markRateLimited now pos r m) !! pos =
    Some (set_rateLimitResetTime (now + r) (set_isRateLimited true a)).
Proof. intros Ha. unfold markRateLimited. simpl. by rewrite list_lookup_alter_eq, Ha. Qed.

Lemma markRateLimited_other now pos r m q :
  pos <> q -> accounts (markRateLimited now pos r m) !! q = accounts m !! q.
Proof. intros Hne. unfold markRateLimited. simpl. by rewrite list_lookup_alter_ne. Qed.


(** ** Selection with the clock read twice *)

Lemma getCurrentOrNextAt_same now m :
  getCurrentOrNextAt now now m = getCurrentOrNext now m.
Proof. reflexivity. Qed.

Lemma selectAccountAt_same now m : selectAccountAt now now m = selectAccount now m.
Proof. reflexivity. Qed.

(** Where the call goes on to [getNext]: there is no current account, or it
    is rate-limited and its reset time has not passed at the first
    reading. *)
Lemma getCurrentOrNextAt_switch now now' m :
  (getCurrentAccount m = None
   \/ exists pos a, getCurrentAccount m = Some pos /\ accounts m !! pos = Some a
                    /\ isRateLimited a = true /\ now <= rateLimitResetTime a) ->
  getCurrentOrNextAt now now' m =
    let '(next, m') := getNext now' m in
    match next with
    | Some pos =>
        (Some pos,
         mkAccountManager (accounts m') (currentIndex m')
           (from_option index (currentAccountIndex m') (accounts m' !! pos)))
    | None => (None, m')
    end.
Proof.
  unfold getCurrentOrNextAt. intros [->|(pos & a & -> & -> & -> & Ht)]; [done|].
  cbn [negb]. by destruct (Z.ltb_spec (rateLimitResetTime a) now); [lia|].
Qed.

Lemma getCurrentOrNextAt_sticky now now' m pos a :
  currentAccountIndex m = Z.of_nat pos -> accounts m !! pos = Some a ->
  isRateLimited a = false ->
  getCurrentOrNextAt now now' m =
    (Some pos, set_accounts (<[pos := set_lastUsed now a]> (accounts m)) m).
Proof.
  intros Hc Ha Hl. unfold getCurrentOrNextAt.
  rewrite (getCurrentAccount_at m pos a Hc Ha), Ha, Hl. done.
Qed.

Lemma getCurrentOrNextAt_expired now now' m pos a :
  currentAccountIndex m = Z.of_nat pos -> accounts m !! pos = Some a ->
  isRateLimited a = true -> rateLimitResetTime a < now ->
  getCurrentOrNextAt now now' m =
    (Some pos,
     set_accounts (<[pos := set_lastUsed now (set_isRateLimited false a)]> (accounts m)) m).
Proof.
  intros Hc Ha Hl Ht. unfold getCurrentOrNextAt.
  rewrite (getCurrentAccount_at m pos a Hc Ha), Ha, Hl. cbn [negb].
  by destruct (Z.ltb_spec (rateLimitResetTime a) now); [|lia].
Qed.

(** The accounts [getNext] leaves: every expired limit lifted, and the stamp
    of the account it returns. *)
Lemma getNext_accounts now m :
  accounts (getNext now m).2 =
    match (getNext now m).1 with
    | Some pos => alter (set_lastUsed now) pos (map (expireLimit now) (accounts m))
    | None => map (expireLimit now) (accounts m)
    end.
Proof.
  unfold getNext.
  destruct (availableFrom now 0 (accounts m)) as [|x xs] eqn:Hav; [done|].
  rewrite <- Hav. destruct (_ <? 0); [done|].
  by destruct (availableFrom now 0 (accounts m) !! _).
Qed.

Lemma availableFrom_mem now l : forall i j a,
  l !! j = Some a -> isAvailable now a = true -> (i + j)%nat ∈ availableFrom now i l.
Proof.
  induction l as [|b l IH]; intros i j a Hj Hav; [done|]. cbn [availableFrom].
  destruct j as [|j]; simpl in Hj.
  - injection Hj as ->. rewrite Hav, Nat.add_0_r. apply list_elem_of_here.
  - replace (i + S j)%nat with (S i + j)%nat by lia.
    destruct (isAvailable now b); [apply list_elem_of_further|]; by eapply IH.
Qed.

(** With a cursor that is not negative, [getNext] returns an account as soon
    as one is available. *)
Lemma getNext_picks now m j a :
  0 <= currentIndex m ->
  accounts m !! j = Some a -> isAvailable now a = true ->
  exists q m', getNext now m = (Some q, m').
Proof.
  intros Hc Hj Hav. unfold getNext.
  pose proof (availableFrom_mem now (accounts m) 0 j a Hj Hav) as Hin.
  destruct (availableFrom now 0 (accounts m)) as [|x xs] eqn:E.
  { by apply elem_of_nil in Hin. }
  rewrite <- E.
  assert (Hlen : 0 < Z.of_nat (length (availableFrom now 0 (accounts m)))).
  { rewrite E. simpl. lia. }
  pose proof (Z.rem_bound_pos (currentIndex m) _ Hc Hlen) as [Hk1 Hk2].
  destruct (Z.ltb_spec (Z.rem (currentIndex m)
                          (Z.of_nat (length (availableFrom now 0 (accounts m))))) 0);
    [lia|].
  destruct (availableFrom now 0 (accounts m) !! _) as [q|] eqn:Hq; [by eauto|].
  apply lookup_ge_None in Hq. lia.
Qed.

(** Without an available account it returns none. *)
Lemma getNext_nobody now m :
  (forall j a, accounts m !! j = Some a -> isAvailable now a = false) ->
  (getNext now m).1 = None.
Proof.
  intros Hall. unfold getNext.
  destruct (availableFrom now 0 (accounts m)) as [|x xs] eqn:E; [done|].
  assert (Hin : x ∈ availableFrom now 0 (accounts m)) by (rewrite E; apply list_elem_of_here).
  apply availableFrom_elem in Hin as (a & Ha & _ & Hav).
  rewrite (Hall _ _ Ha) in Hav. discriminate.
Qed.

(** What [getCurrentOrNextAt] guarantees of the account it returns. *)
Lemma getCurrentOrNextAt_Some now now' m pos m1 :
  indexed m -> getCurrentOrNextAt now now' m = (Some pos, m1) ->
  indexed m1 /\ currentAccountIndex m1 = Z.of_nat pos
  /\ exists a, accounts m1 !! pos = Some a /\ isRateLimited a = false.
Proof.
  intros Hi. unfold getCurrentOrNextAt.
  assert (Hswitch :
    (let '(next, m') := getNext now' m in
     match next with
     | Some pos0 =>
         (Some pos0,
          mkAccountManager (accounts m') (currentIndex m')
            (from_option index (currentAccountIndex m') (accounts m' !! pos0)))
     | None => (None, m')
     end) = (Some pos, m1) ->
    indexed m1 /\ currentAccountIndex m1 = Z.of_nat pos
    /\ exists a, accounts m1 !! pos = Some a /\ isRateLimited a = false).
  { destruct (getNext now' m) as [[p|] m'] eqn:E; [|done].
    intros [= <- <-].
    pose proof (indexed_getNext _ _ _ _ Hi E) as Hi'.
    apply getNext_Some in E as ((a & Ha & Hav & Ha') & _ & _).
    simpl. rewrite Ha'. simpl. split; [exact Hi'|]. split.
    - rewrite expireLimit_index. by apply Hi.
    - eexists. split; [done|]. simpl. by apply expireLimit_available. }
  destruct (getCurrentAccount m) as [p0|] eqn:Hcur; [|exact Hswitch].
  apply getCurrentAccount_Some in Hcur as [Hc [a Ha]]. rewrite Ha.
  destruct (isRateLimited a) eqn:Hl; simpl.
  - destruct (rateLimitResetTime a <? now); [|exact Hswitch].
    intros [= <- <-]. split; [by apply (indexed_insert m p0 a
      (fun a => set_lastUsed now (set_isRateLimited false a)))|].
    split; [done|]. simpl.
    rewrite list_lookup_insert_eq by (by eapply lookup_lt_Some). eauto.
  - intros [= <- <-]. split; [by apply (indexed_insert m p0 a (set_lastUsed now))|].
    split; [done|]. simpl.
    rewrite list_lookup_insert_eq by (by eapply lookup_lt_Some). eauto.
Qed.

Lemma indexed_markRateLimited now pos r m :
  indexed m -> indexed (markRateLimited now pos r m).
Proof.
  intros Hi q b. unfold markRateLimited. cbn [accounts set_accounts].
  destruct (decide (pos = q)) as [->|Hne].
  - rewrite list_lookup_alter_eq.
    destruct (accounts m !! q) as [a|] eqn:Ha; [|done]. cbn.
    intros [= <-]. cbn. by apply Hi.
  - rewrite list_lookup_alter_ne by done. apply Hi.
Qed.

Lemma markSwitched_switched pos reason m a :
  accounts m !! pos = Some a ->
  (lastSwitchReason <$> accounts (markSwitched pos reason m) !! pos) = Some (Some reason)
  /\ currentAccountIndex (markSwitched pos reason m) = index a.
Proof.
  intros Ha. unfold markSwitched. rewrite Ha. cbn [accounts currentAccountIndex].
  rewrite list_lookup_insert_eq by (by eapply lookup_lt_Some). done.
Qed.

(** The pass after an account has been marked rate-limited, its window open
    at both readings of the clock: the selection rotates when it can. *)
Lemma selectAccountAt_rotates t1 t2 m pos a :
  indexed m ->
  currentAccountIndex m = Z.of_nat pos ->
  accounts m !! pos = Some a ->
  isRateLimited a = true ->
  t1 <= rateLimitResetTime a -> t2 <= rateLimitResetTime a ->
  let next := selectAccountAt t1 t2 m in
  next.1.1 <> Some pos
  /\ (0 <= currentIndex m ->
      (exists q b, accounts m !! q = Some b /\ isAvailable t2 b = true) ->
      exists q,
        next.1.1 = Some q /\ q <> pos
        /\ currentAccountIndex next.1.2 = Z.of_nat q
        /\ next.2 = [EvSave]
        /\ (lastSwitchReason <$> accounts next.1.2 !! q) = Some (Some RateLimitSwitch))
  /\ ((forall q b, q <> pos -> accounts m !! q = Some b -> isAvailable t2 b = false) ->
      next.1.1 = None /\ next.2 = []).
Proof.
  intros Hi Hc Ha Hl Ht1 Ht2 next.
  pose proof (getCurrentAccount_at m pos a Hc Ha) as Hcur.
  assert (Hnot : isAvailable t2 a = false).
  { unfold isAvailable. rewrite Hl. cbn.
    by destruct (Z.ltb_spec (rateLimitResetTime a) t2); [lia|]. }
  assert (Hsel : getCurrentOrNextAt t1 t2 m =
    let '(nx, m') := getNext t2 m in
    match nx with
    | Some p =>
        (Some p,
         mkAccountManager (accounts m') (currentIndex m')
           (from_option index (currentAccountIndex m') (accounts m' !! p)))
    | None => (None, m')
    end).
  { apply getCurrentOrNextAt_switch. right. by exists pos, a. }
  assert (Hpicked : forall q m', getNext t2 m = (Some q, m') ->
    q <> pos
    /\ next = (Some q,
               markSwitched q RateLimitSwitch
                 (mkAccountManager (accounts m') (currentIndex m')
                    (from_option index (currentAccountIndex m') (accounts m' !! q))),
               [EvSave])
    /\ exists b, accounts m' !! q = Some b /\ index b = Z.of_nat q).
  { intros q m' En.
    pose proof (indexed_getNext _ _ _ _ Hi En) as Hi'.
    destruct (getNext_Some t2 m q m' En) as ((b & Hb & Hav & Hb') & Hacc & _).
    assert (Hne : q <> pos).
    { intros ->. rewrite Ha in Hb. injection Hb as <-. congruence. }
    split; [exact Hne|].
    assert (Hprev : accounts m' !! pos = Some a).
    { rewrite Hacc, list_lookup_alter_ne by done.
      rewrite list_lookup_fmap, Ha. cbn. f_equal. unfold expireLimit. rewrite Hl. cbn.
      by destruct (Z.ltb_spec (rateLimitResetTime a) t2); [lia|]. }
    split.
    - unfold next, selectAccountAt. rewrite Hcur, Hsel, En. cbn [accounts].
      unfold indexAt. cbn [accounts]. rewrite Hprev, Hb'. cbn [from_option].
      rewrite Hl, (Hi' pos a Hprev).
      rewrite (Hi' q _ Hb').
      destruct (Z.eqb_spec (Z.of_nat pos) (Z.of_nat q)) as [Heq|_]; [lia|]. done.
    - eexists. split; [exact Hb'|]. by apply (Hi' q _ Hb'). }
  split; [|split].
  - destruct (getNext t2 m) as [[q|] m'] eqn:En.
    + destruct (Hpicked q m' eq_refl) as (Hne & -> & _). cbn. congruence.
    + unfold next, selectAccountAt. rewrite Hcur, Hsel. cbn. done.
  - intros Hcursor (q0 & b0 & Hq0 & Hav0).
    destruct (getNext_picks t2 m q0 b0 Hcursor Hq0 Hav0) as (q & m' & En).
    destruct (Hpicked q m' En) as (Hne & -> & b & Hb & Hidx).
    exists q. cbn [fst snd]. split; [done|]. split; [done|].
    set (m1 := mkAccountManager _ _ _).
    assert (Hb1 : accounts m1 !! q = Some b) by exact Hb.
    destruct (markSwitched_switched q RateLimitSwitch m1 b Hb1) as [Hr Hcur'].
    split; [by rewrite Hcur'|]. split; [done|exact Hr].
  - intros Hnone.
    assert (Hn : (getNext t2 m).1 = None).
    { apply getNext_nobody. intros j b Hb.
      destruct (decide (j = pos)) as [->|Hne]; [|by eapply Hnone].
      rewrite Ha in Hb. by injection Hb as <-. }
    unfold next, selectAccountAt. rewrite Hcur, Hsel.
    destruct (getNext t2 m) as [[q|] m']; [done|]. done.
Qed.


(** The loop begins with the endpoint at the head of its list. *)
Lemma endpointLoop_first_attempt fetchAt prepared now pos accountCount n i e rest
    lastError lastResponse lastAttemptInfo m :
  truthy e = true ->
  head (attempts (endpointLoop fetchAt prepared now pos accountCount n i (e :: rest)
                    lastError lastResponse lastAttemptInfo m).2) = Some e.
Proof.
  intros He. cbn [endpointLoop]. rewrite He. cbn [negb].
  destruct (fetchAt e) as [err|err|response].
  - destruct (_ <? _); [|done].
    by destruct (endpointLoop _ _ _ _ _ _ _ _ _ _ _ _) as [[r m'] evs].
  - destruct (_ <? _); [|done].
    by destruct (endpointLoop _ _ _ _ _ _ _ _ _ _ _ _) as [[r m'] evs].
  - destruct (_ =? 429).
    { by destruct (handleRateLimit _ _ _ _ _) as [[r m'] evs]. }
    destruct (_ && _).
    { by destruct (handleServerError _ _ _ _ _) as [[r m'] evs]. }
    destruct (_ && _); [|done].
    by destruct (endpointLoop _ _ _ _ _ _ _ _ _ _ _ _) as [[r m'] evs].
Qed.

(** Every call of [tryEndpointFallbacks] starts at the head of the list. *)
Lemma tryEndpointFallbacks_first_attempt fetchAt prepared now pos m accountCount :
  head (attempts (tryEndpointFallbacks fetchAt prepared now pos m accountCount).2)
    = Some CODE_ASSIST_ENDPOINT_DAILY.
Proof. by apply endpointLoop_first_attempt. Qed.


End FetchTheory.

(** * Properties of the transformers *)
Module TransformTheory.
Import Transform.

(** ** Tool names *)

Lemma nameChar_cases (c : ascii) :
  isNameStart c = (isNameChar c && negb (isDigit c) && negb (Ascii.eqb c "-"))%bool.
Proof. destruct c as [[] [] [] [] [] [] [] []]; reflexivity. Qed.

Lemma digit_is_nameChar (c : ascii) : isDigit c = true -> isNameChar c = true.
Proof. destruct c as [[] [] [] [] [] [] [] []]; vm_compute; congruence. Qed.

Lemma digit_not_hyphen (c : ascii) : isDigit c = true -> Ascii.eqb c "-" = false.
Proof. destruct c as [[] [] [] [] [] [] [] []]; vm_compute; congruence. Qed.

Lemma not_hyphen_head (c : ascii) (rest : string) :
  Ascii.eqb c "-" = false <-> (forall rest', String c rest <> String "-" rest').
Proof.
  split.
  - intros H rest' [= -> _]. by rewrite Ascii.eqb_refl in H.
  - intros H. destruct (Ascii.eqb_spec c "-") as [->|]; [|done]. by destruct (H rest).
Qed.

(** C7, as amended.  Sanitizing a tool name twice gives what sanitizing it
    once gives; a name that begins with a digit gains the prefix [t_]; any
    other name is returned unchanged; and the result matches
    [^[A-Za-z_][A-Za-z0-9_-]*$] exactly when the given name is not empty, is
    made of letters, digits, underscores and hyphens only and does not begin
    with a hyphen. *)
Theorem sanitizeToolName_spec (name : string) :
  sanitizeToolNameForGemini (sanitizeToolNameForGemini name) = sanitizeToolNameForGemini name
  /\ (startsWithDigit name = true -> sanitizeToolNameForGemini name = ("t_" ++ name)%string)
  /\ (startsWithDigit name = false -> sanitizeToolNameForGemini name = name)
  /\ (matchesToolNamePattern (sanitizeToolNameForGemini name) = true <->
      name <> ""%string /\ allNameChars name = true
      /\ forall rest, name <> String "-" rest).
Proof.
  unfold sanitizeToolNameForGemini.
  destruct (startsWithDigit name) eqn:Hd.
  - split; [reflexivity|]. split; [done|]. split; [done|].
    destruct name as [|c rest]; [done|]. simpl in Hd.
    change (matchesToolNamePattern ("t_" ++ String c rest))
      with (isNameChar c && allNameChars rest).
    rewrite <- not_hyphen_head, (digit_not_hyphen c Hd).
    cbn [allNameChars]. split; [by intros ->|by intros (_ & -> & _)].
  - rewrite Hd. split; [reflexivity|]. split; [done|]. split; [done|].
    destruct name as [|c rest]; [simpl; split; [done|by intros [? _]]|].
    rewrite <- not_hyphen_head. cbn [matchesToolNamePattern allNameChars].
    simpl in Hd. rewrite nameChar_cases, Hd.
    destruct (isNameChar c), (allNameChars rest), (Ascii.eqb c "-"); simpl;
      split; try done; by intros (_ & ? & ?).
Qed.

Lemma sanitizeToolName_spec_witness :
  sanitizeToolNameForGemini "9lives" = "t_9lives"%string
  /\ matchesToolNamePattern (sanitizeToolNameForGemini "9lives") = true.
Proof.
  destruct (sanitizeToolName_spec "9lives") as (_ & H1 & _ & H2).
  split; [by apply H1|]. apply H2. by repeat split.
Defined.

(** The claim as first stated fails where it has every result match the
    pattern: names that do not begin with a digit come back as they are. *)
Lemma sanitizeToolName_pattern_not_enforced :
  sanitizeToolNameForGemini "my tool" = "my tool"%string
  /\ matchesToolNamePattern (sanitizeToolNameForGemini "my tool") = false
  /\ matchesToolNamePattern (sanitizeToolNameForGemini "-x") = false
  /\ matchesToolNamePattern (sanitizeToolNameForGemini "") = false.
Proof. repeat split. Qed.

(** ** Reasoning budget and output ceiling (claude.ts) *)

Lemma thinkingGenerationConfig_spec (body : RequestPayload) :
  exists g, thinkingGenerationConfig (generationConfig body) = Some g
    /\ out_thinkingConfig g = Some (FinalThinking true (Some (budgetFor body)))
    /\ effectiveMaxOutputTokens g = Some (ceilingFor body).
Proof.
  unfold thinkingGenerationConfig, ceilingFor, budgetFor, callerBudget,
    callerMaxOutputTokens, effectiveMaxOutputTokens.
  destruct (generationConfig body) as [g|]; simpl.
  - set (nt := normalizeThinkingConfig (thinkingConfig g)).
    assert (Hincl : forall c, nt = Some c -> include_thoughts c = None).
    { unfold nt, normalizeThinkingConfig. intros c.
      destruct (thinkingConfig g) as [record|]; [|done].
      destruct (isObjectLike record); [|done].
      repeat case_match; try done; by intros [= <-]. }
    destruct nt as [c|] eqn:Hnt; simpl.
    + rewrite (Hincl c eq_refl). simpl.
      destruct (thinkingBudget c) as [b|] eqn:Hb; simpl.
      * destruct (Z.eqb_spec b 0) as [->|Hb0]; simpl.
        -- destruct (nullish (maxOutputTokens g) (max_output_tokens g)) as [mx|] eqn:Hmx.
           ++ destruct ((mx =? 0) || (mx <=? 16384)); eexists; repeat split; done.
           ++ eexists; repeat split; done.
        -- destruct (Z.eqb_spec b 0); [done|].
           destruct (nullish (maxOutputTokens g) (max_output_tokens g)) as [mx|] eqn:Hmx.
           ++ destruct ((mx =? 0) || (mx <=? b)); eexists; repeat split; done.
           ++ eexists; repeat split; done.
      * destruct (nullish (maxOutputTokens g) (max_output_tokens g)) as [mx|] eqn:Hmx.
        -- destruct ((mx =? 0) || (mx <=? 16384)); eexists; repeat split; done.
        -- eexists; repeat split; done.
    + destruct (nullish (maxOutputTokens g) (max_output_tokens g)) as [mx|] eqn:Hmx.
      * destruct ((mx =? 0) || (mx <=? 16384)); eexists; repeat split; done.
      * eexists; repeat split; done.
  - eexists; repeat split; done.
Qed.

Lemma thinking_is_not_fallback (m : string) :
  includes "-thinking" m = true -> String.eqb m "gemini-claude-sonnet-4-5" = false.
Proof.
  intros H. destruct (String.eqb_spec m "gemini-claude-sonnet-4-5") as [->|]; [|done].
  vm_compute in H. discriminate.
Qed.

(** In the revision of [src/unnamed/part_001], a request transformed for a
    model whose name contains [-thinking] leaves with [include_thoughts =
    true] and a reasoning budget: the caller's when it gave one other than 0,
    16384 otherwise.  Its ceiling on output tokens is the caller's when that
    is present, not 0 and strictly above the budget, and 64000 otherwise; so
    the ceiling is strictly above the budget whenever the budget is below
    64000. *)
Lemma thinking_budget_and_ceiling
    (sha256 : string -> string)
    (randomUUID : nat -> string) (context : TransformContext)
    (signatureCache : gmap string string) (drawn0 : nat) (body : RequestPayload) :
  includes "-thinking" (model context) = true ->
  exists g,
    req_generationConfig
      (wb_request (transformClaudeRequest sha256 randomUUID context
                     signatureCache drawn0 body).1.1) = Some g
    /\ includesThoughts g = Some true
    /\ reasoningBudget g = Some (budgetFor body)
    /\ budgetFor body <> 0
    /\ effectiveMaxOutputTokens g = Some (ceilingFor body)
    /\ (budgetFor body < 64000 -> budgetFor body < ceilingFor body).
Proof.
  intros Hthinking.
  destruct (thinkingGenerationConfig_spec body) as (g & Hg & Ht & Hmax).
  exists g. unfold transformClaudeRequest.
  rewrite Hthinking, (thinking_is_not_fallback _ Hthinking), Hg.
  split.
  { destruct (contents body) as [cs|]; [|done].
    by destruct (claudeContents _ _ _ _ _) as [cs' st]. }
  unfold includesThoughts, reasoningBudget. rewrite Ht.
  repeat split; [|done|].
  - unfold budgetFor. destruct (callerBudget body) as [b|]; [|done].
    by destruct (Z.eqb_spec b 0).
  - unfold ceilingFor. destruct (callerMaxOutputTokens body) as [c|]; [|done].
    destruct (Z.eqb_spec c 0); simpl; [lia|].
    destruct (Z.leb_spec c (budgetFor body)); lia.
Qed.

(** The earlier revision writes the caller's budget back and leaves the
    ceiling as the caller gave it. *)
Lemma earlierGenerationConfig_spec (body : RequestPayload) (b : Z) :
  callerBudget body = Some b -> b <> 0 ->
  exists g c,
    earlierGenerationConfig true (generationConfig body) = Some g
    /\ out_thinkingConfig g = Some (Normalized c)
    /\ thinkingBudget c = Some b
    /\ include_thoughts c = Some true
    /\ effectiveMaxOutputTokens g = callerMaxOutputTokens body.
Proof.
  unfold callerBudget, callerMaxOutputTokens, earlierGenerationConfig,
    effectiveMaxOutputTokens.
  destruct (generationConfig body) as [g|]; cbn [mbind option_bind]; [|done].
  destruct (normalizeThinkingConfig (thinkingConfig g)) as [nt|] eqn:Hnt;
    cbn [mbind option_bind]; [|done].
  intros Hb Hb0. rewrite Hb.
  destruct (Z.eqb_spec b 0) as [?|_]; [done|].
  assert (Hincl : include_thoughts nt = None).
  { revert Hnt. unfold normalizeThinkingConfig.
    destruct (thinkingConfig g) as [record|]; [|done].
    destruct (isObjectLike record); [|done].
    repeat case_match; try done; by intros [= <-]. }
  rewrite Hincl. by eexists _, _.
Qed.

(** C8: where the code parts from the claim.  For a model whose name
    contains [-thinking] and a caller who asks for a reasoning budget of
    64000 or more without giving a ceiling on output tokens above it, the
    output keeps the caller's budget and its ceiling is not strictly above
    the budget.  In the revision of [src/unnamed/part_001] the ceiling is
    raised, but to the constant 64000, against the comment of the very lines
    that raise it (the backend requires a ceiling above the budget); in the
    earlier revision of [src/plugin/transform/claude.ts] the ceiling is left
    as the caller gave it, or absent. *)
Theorem thinking_ceiling_not_above_budget
    (sha256 : string -> string)
    (randomUUID : nat -> string) (context : TransformContext)
    (signatureCache : gmap string string) (drawn0 : nat) (body : RequestPayload) (b : Z) :
  includes "-thinking" (model context) = true ->
  callerBudget body = Some b ->
  64000 <= b ->
  (forall c, callerMaxOutputTokens body = Some c -> c <= b) ->
  (exists g,
     req_generationConfig
       (wb_request (transformClaudeRequest sha256 randomUUID context
                      signatureCache drawn0 body).1.1) = Some g
     /\ includesThoughts g = Some true
     /\ reasoningBudget g = Some b
     /\ effectiveMaxOutputTokens g = Some 64000
     /\ ~ (b < 64000))
  /\ (exists g,
        earlierGenerationConfig (includes "-thinking" (model context))
          (generationConfig body) = Some g
        /\ reasoningBudget g = Some b
        /\ effectiveMaxOutputTokens g = callerMaxOutputTokens body
        /\ forall c, effectiveMaxOutputTokens g = Some c -> ~ (b < c)).
Proof.
  intros Hthinking Hb Hlarge Hmax. split.
  - destruct (thinking_budget_and_ceiling sha256 randomUUID context signatureCache drawn0
                body Hthinking) as (g & Hg & Hi & Hbud & _ & Hceil & _).
    assert (Hbf : budgetFor body = b).
    { unfold budgetFor. rewrite Hb. destruct (Z.eqb_spec b 0); [lia|done]. }
    assert (Hcf : ceilingFor body = 64000).
    { unfold ceilingFor. rewrite Hbf.
      destruct (callerMaxOutputTokens body) as [c|] eqn:Hc; [|done].
      specialize (Hmax c eq_refl).
      destruct (Z.leb_spec c b); [|lia]. by rewrite orb_true_r. }
    exists g. rewrite Hbf in Hbud. rewrite Hcf in Hceil.
    repeat split; try done. lia.
  - rewrite Hthinking.
    destruct (earlierGenerationConfig_spec body b Hb ltac:(lia))
      as (g & c & Hg & Hc & Hbud & _ & Hceil).
    exists g. split; [exact Hg|]. split.
    { unfold reasoningBudget. by rewrite Hc. }
    split; [exact Hceil|].
    intros c' Hc'. rewrite Hceil in Hc'. specialize (Hmax c' Hc'). lia.
Qed.

Lemma thinking_ceiling_not_above_budget_witness :
  let later := req_generationConfig
                 (wb_request (transformClaudeRequest sampleDigest sampleUUID claudeContext
                                ∅ 0 budget64000).1.1) in
  let earlier := earlierGenerationConfig true (generationConfig budget64000) in
  (later ≫= reasoningBudget) = Some 64000
  /\ (later ≫= effectiveMaxOutputTokens) = Some 64000
  /\ (earlier ≫= reasoningBudget) = Some 64000
  /\ (earlier ≫= effectiveMaxOutputTokens) = None.
Proof.
  destruct (thinking_ceiling_not_above_budget sampleDigest sampleUUID claudeContext ∅ 0%nat
              budget64000 64000) as [(g & Hg & _ & Hb & Hc & _) (g' & Hg' & Hb' & Hc' & _)].
  - reflexivity.
  - reflexivity.
  - lia.
  - intros c Hc. discriminate Hc.
  - cbn zeta. rewrite Hg. change (earlierGenerationConfig true (generationConfig budget64000))
      with (earlierGenerationConfig (includes "-thinking" (model claudeContext))
              (generationConfig budget64000)).
    rewrite Hg'. cbn [mbind option_bind]. rewrite Hb, Hc, Hb', Hc'. done.
Defined.

(** The earlier revision's default: without a budget from the caller it
    writes 1024, and no ceiling. *)
Example earlier_default_budget :
  let g := earlierGenerationConfig true None in
  (g ≫= reasoningBudget) = Some 1024
  /\ (g ≫= effectiveMaxOutputTokens) = None.
Proof. split; reflexivity. Qed.

(** ** Turns of other roles (gemini.ts) *)

(** C10.  [transformGeminiRequest] rewrites the parts of the turns whose
    role is [model] only: the turn at any position of the conversation whose
    role is something else is, at the same position of the wrapped output,
    the very same turn, with its parts, their reasoning flags, function calls
    and signatures as they came. *)
Theorem gemini_keeps_other_roles
    (sha256 : string -> string)
    (context : TransformContext) (signatureCache : gmap string string)
    (body : RequestPayload) (cs : list Content) (i : nat) (content : Content) :
  contents body = Some cs ->
  cs !! i = Some content ->
  role content <> Some "model"%string ->
  exists cs',
    req_contents (wb_request (transformGeminiRequest sha256 context
                                signatureCache body)) = Some cs'
    /\ length cs' = length cs
    /\ cs' !! i = Some content.
Proof.
  intros Hcs Hi Hrole. unfold transformGeminiRequest. simpl. rewrite Hcs. simpl.
  eexists. split; [reflexivity|]. split; [by rewrite length_map|].
  rewrite list_lookup_fmap, Hi. simpl. f_equal.
  unfold geminiContent. by rewrite bool_decide_eq_false_2.
Qed.

Lemma gemini_keeps_other_roles_witness :
  exists cs',
    req_contents (wb_request (transformGeminiRequest sampleDigest geminiContext ∅
                                (mkRequestPayload None None (Some [userTurn])))) = Some cs'
    /\ length cs' = 1%nat
    /\ cs' !! 0%nat = Some userTurn.
Proof.
  apply (gemini_keeps_other_roles sampleDigest geminiContext ∅
           (mkRequestPayload None None (Some [userTurn])) [userTurn] 0 userTurn);
    [reflexivity | reflexivity | discriminate].
Defined.

(** ** Reasoning signatures across families *)

Section Signatures.
Variable sha256 : string -> string.
Variable randomUUID : nat -> string.

Lemma claudeFunctionCall_signature st part :
  thoughtSignature (claudeFunctionCall randomUUID st part).1 = thoughtSignature part
  /\ signatures (claudeFunctionCall randomUUID st part).2 = signatures st.
Proof.
  unfold claudeFunctionCall.
  destruct (functionCall part) as [fc|]; [|done].
  destruct (fc_name fc) as [name|]; [|done].
  by destruct (from_option truthy false (fc_id fc)).
Qed.

Lemma claudeFunctionResponse_signature st part :
  thoughtSignature (claudeFunctionResponse st part).1 = thoughtSignature part
  /\ signatures (claudeFunctionResponse st part).2 = signatures st.
Proof.
  unfold claudeFunctionResponse.
  destruct (functionResponse part) as [fr|]; [|done].
  destruct (fr_name fr) as [name|]; [|done].
  destruct (from_option truthy false (fr_id fr)); [done|].
  by destruct (funcCallIdQueues st !! name) as [[|id queue]|].
Qed.

Lemma claudeFunctionCall_reasoning st part :
  thought (claudeFunctionCall randomUUID st part).1 = thought part
  /\ text (claudeFunctionCall randomUUID st part).1 = text part.
Proof. unfold claudeFunctionCall. by repeat case_match. Qed.

Lemma claudeFunctionResponse_reasoning st part :
  thought (claudeFunctionResponse st part).1 = thought part
  /\ text (claudeFunctionResponse st part).1 = text part.
Proof. unfold claudeFunctionResponse. by repeat case_match. Qed.




(** The key the transformers' calls of the cache arrive at. *)
Local Notation "'keyOf' context" :=
  (getSignatureKey sha256 (familyName (family context)) (sessionId context))
  (at level 10, context at level 9).







End Signatures.



(** The transformers' calls of the cache, evaluated against cache.ts: the
    first transform leaves the part's text, not its signature, under the key
    of (family, session), so the turn that comes back unsigned in a request
    for the same family loses its reasoning part as well. *)
Example claude_cache_as_called :
  let first := transformClaudeRequest sampleDigest sampleUUID claudeContext ∅ 0
                 (conversationOf signedTurn) in
  first.1.2 = {[ "claude:test-session-id"%string := "I am thinking..."%string ]}
  /\ reasoningSignatures
       (transformClaudeRequest sampleDigest sampleUUID claudeContext first.1.2 0
          (conversationOf unsignedTurn)).1.1 = [].
Proof. split; vm_compute; reflexivity. Qed.

(** ** Pairing of function calls and responses (claude.ts) *)

Section Pairing.
Variable sha256 : string -> string.
Variable randomUUID : nat -> string.
Variable context : TransformContext.
Variable name : string.

Local Notation "'claudePart'" := (claudePart sha256 randomUUID context).
Local Notation "'claudeParts'" := (claudeParts sha256 randomUUID context).
Local Notation "'claudeContents'" :=
  (claudeContents sha256 randomUUID context).

Lemma claudeParts_app (l1 l2 : list Part) : forall st,
  claudeParts st (l1 ++ l2) =
    let '(o1, st1) := claudeParts st l1 in
    let '(o2, st2) := claudeParts st1 l2 in
    (o1 ++ o2, st2).
Proof.
  induction l1 as [|p l1 IH]; intros st; simpl.
  - by destruct (claudeParts st l2).
  - destruct (claudePart st p) as [kept st1]. rewrite IH.
    destruct (claudeParts st1 l1) as [o1 st2].
    destruct (claudeParts st2 l2) as [o2 st3].
    by destruct kept.
Qed.

Lemma allParts_cons (content : Content) (cs : list Content) :
  allParts (content :: cs) = default [] (parts content) ++ allParts cs.
Proof. unfold allParts. simpl. by destruct (parts content). Qed.

Lemma claudeContents_allParts (cs : list Content) : forall st,
  allParts (claudeContents st cs).1 = (claudeParts st (allParts cs)).1
  /\ (claudeContents st cs).2 = (claudeParts st (allParts cs)).2.
Proof.
  induction cs as [|content cs IH]; intros st; [done|].
  rewrite allParts_cons. cbn [Transform.claudeContents].
  destruct (parts content) as [ps|] eqn:Hps.
  - change (default [] (Some ps)) with ps. rewrite claudeParts_app.
    destruct (claudeParts st ps) as [o1 st1].
    specialize (IH st1).
    destruct (claudeContents st1 cs) as [cs' st2].
    destruct (claudeParts st1 (allParts cs)) as [o2 st3].
    cbn [fst snd] in *. rewrite allParts_cons.
    change (default [] (parts (set_parts o1 content))) with o1.
    destruct IH as [-> ->]. done.
  - specialize (IH st). change (default [] None ++ allParts cs) with (allParts cs).
    destruct (claudeContents st cs) as [cs' st2].
    cbn [fst snd] in *. rewrite allParts_cons, Hps. exact IH.
Qed.

Lemma callIds_app (l k : list Part) : callIds name (l ++ k) = callIds name l ++ callIds name k.
Proof. apply omap_app. Qed.

Lemma responseIds_app (l k : list Part) :
  responseIds name (l ++ k) = responseIds name l ++ responseIds name k.
Proof. apply omap_app. Qed.

Lemma callIds_neutral (p : Part) :
  functionCall p ≫= fc_name <> Some name -> callIds name [p] = [].
Proof.
  unfold callIds. simpl. destruct (functionCall p) as [fc|]; simpl; [|done].
  intros H. by rewrite bool_decide_eq_false_2.
Qed.

Lemma responseIds_neutral (p : Part) :
  functionResponse p ≫= fr_name <> Some name -> responseIds name [p] = [].
Proof.
  unfold responseIds. simpl. destruct (functionResponse p) as [fr|]; simpl; [|done].
  intros H. by rewrite bool_decide_eq_false_2.
Qed.

Lemma claudeFunctionCall_neutral st p :
  functionCall p ≫= fc_name <> Some name ->
  funcCallIdQueues (claudeFunctionCall randomUUID st p).2 !! name
    = funcCallIdQueues st !! name
  /\ (drawn st <= drawn (claudeFunctionCall randomUUID st p).2)%nat
  /\ functionCall (claudeFunctionCall randomUUID st p).1 ≫= fc_name
     = functionCall p ≫= fc_name
  /\ functionResponse (claudeFunctionCall randomUUID st p).1 = functionResponse p.
Proof.
  unfold claudeFunctionCall. intros H.
  destruct (functionCall p) as [fc|] eqn:Efc; [|by simpl; rewrite Efc].
  destruct (fc_name fc) as [n|] eqn:En; [|by simpl; rewrite Efc; simpl; rewrite En].
  simpl in H. rewrite En in H.
  destruct (from_option truthy false (fc_id fc)); simpl; rewrite ?En;
    (rewrite lookup_insert_ne by congruence); repeat split; try done; lia.
Qed.

Lemma claudeFunctionResponse_neutral st p :
  functionResponse p ≫= fr_name <> Some name ->
  funcCallIdQueues (claudeFunctionResponse st p).2 !! name = funcCallIdQueues st !! name
  /\ drawn (claudeFunctionResponse st p).2 = drawn st
  /\ functionCall (claudeFunctionResponse st p).1 = functionCall p
  /\ functionResponse (claudeFunctionResponse st p).1 ≫= fr_name
     = functionResponse p ≫= fr_name.
Proof.
  unfold claudeFunctionResponse. intros H.
  destruct (functionResponse p) as [fr|] eqn:Efr; [|by simpl; rewrite Efr].
  destruct (fr_name fr) as [n|] eqn:En; [|by simpl; rewrite Efr; simpl; rewrite En].
  simpl in H. rewrite En in H.
  destruct (from_option truthy false (fr_id fr));
    [by simpl; rewrite Efr; simpl; rewrite En|].
  destruct (funcCallIdQueues st !! n) as [[|id queue]|];
    try (by simpl; rewrite Efr; simpl; rewrite En).
  simpl. rewrite En. by rewrite lookup_insert_ne by congruence.
Qed.

(** The reasoning step changes neither the function fields nor the queues. *)
Lemma claudeThought_function_fields signatureCache p p1 signatureCache1 :
  claudeThought sha256 context signatureCache p = Some (p1, signatureCache1) ->
  functionCall p1 = functionCall p /\ functionResponse p1 = functionResponse p.
Proof.
  unfold claudeThought. intros H.
  repeat case_match; simplify_eq; done.
Qed.

(** A part that does not concern [name] leaves the queue of [name] alone,
    and shows no identifier of [name] if it is kept. *)
Lemma neutral_part st p :
  neutralFor name p = true ->
  funcCallIdQueues (claudePart st p).2 !! name = funcCallIdQueues st !! name
  /\ (drawn st <= drawn (claudePart st p).2)%nat
  /\ callIds name (option_list (claudePart st p).1) = []
  /\ responseIds name (option_list (claudePart st p).1) = [].
Proof.
  unfold neutralFor. intros [Hc Hr]%andb_true_iff.
  apply negb_true_iff, bool_decide_eq_false in Hc, Hr.
  unfold Transform.claudePart.
  set (kept := if thought p then _ else _).
  assert (Hkept : kept = None \/ exists p1 st1, kept = Some (p1, st1)
            /\ functionCall p1 = functionCall p /\ functionResponse p1 = functionResponse p
            /\ funcCallIdQueues st1 = funcCallIdQueues st /\ drawn st1 = drawn st).
  { unfold kept. destruct (thought p); [|right; by eexists _, _].
    destruct (claudeThought _ _ _ _) as [[p1 c1]|] eqn:E; [|by left].
    apply claudeThought_function_fields in E as [? ?].
    right. by eexists _, _. }
  destruct Hkept as [->|(p1 & st1 & -> & Hfc & Hfr & Hq & Hd)]; [by repeat split|].
  rewrite <- Hfc in Hc. rewrite <- Hfr in Hr.
  pose proof (claudeFunctionCall_neutral st1 p1 Hc) as (Q1 & D1 & C1 & R1).
  destruct (claudeFunctionCall randomUUID st1 p1) as [p2 st2]. simpl in *.
  rewrite <- C1 in Hc. rewrite <- R1 in Hr.
  pose proof (claudeFunctionResponse_neutral st2 p2 Hr) as (Q2 & D2 & C2 & R2).
  destruct (claudeFunctionResponse st2 p2) as [p3 st3]. simpl in *.
  rewrite <- C2 in Hc. rewrite <- R2 in Hr.
  split; [congruence|]. split; [lia|].
  split; [by apply callIds_neutral | by apply responseIds_neutral].
Qed.

Lemma neutral_parts (l : list Part) : forall st,
  Forall (fun p => neutralFor name p = true) l ->
  funcCallIdQueues (claudeParts st l).2 !! name = funcCallIdQueues st !! name
  /\ (drawn st <= drawn (claudeParts st l).2)%nat
  /\ callIds name (claudeParts st l).1 = []
  /\ responseIds name (claudeParts st l).1 = [].
Proof.
  induction l as [|p l IH]; intros st Hl; [by repeat split|].
  apply Forall_cons in Hl as [Hp Hl]. cbn [Transform.claudeParts].
  pose proof (neutral_part st p Hp) as (Q1 & D1 & C1 & R1).
  destruct (claudePart st p) as [kept st1]. cbn [fst snd] in *.
  specialize (IH st1 Hl) as (Q2 & D2 & C2 & R2).
  destruct (claudeParts st1 l) as [o st2]. cbn [fst snd] in *.
  split; [congruence|]. split; [lia|].
  destruct kept as [p'|]; [|done].
  change (option_list (Some p')) with [p'] in C1, R1.
  change (p' :: o) with ([p'] ++ o).
  by rewrite callIds_app, responseIds_app, C1, R1, C2, R2.
Qed.

(** A call of [name] without identifier draws one and queues it. *)
Lemma bare_call_part st p :
  isBareCall name p = true ->
  exists p',
    let id := (name ++ "-" ++ randomUUID (drawn st))%string in
    (claudePart st p).1 = Some p'
    /\ callIds name [p'] = [Some id]
    /\ responseIds name [p'] = []
    /\ funcCallIdQueues (claudePart st p).2 !! name
       = Some (default [] (funcCallIdQueues st !! name) ++ [id])
    /\ drawn (claudePart st p).2 = S (drawn st).
Proof.
  unfold isBareCall. intros [Ht H]%andb_true_iff. apply negb_true_iff in Ht.
  destruct (functionCall p) as [fc|] eqn:Efc; [|done].
  destruct (functionResponse p) as [fr|] eqn:Efr; [done|].
  apply andb_true_iff in H as [Hn Hid].
  apply bool_decide_eq_true in Hn. apply negb_true_iff in Hid.
  unfold Transform.claudePart, claudeFunctionCall, claudeFunctionResponse.
  rewrite Ht, Efc, Hn, Hid. simpl. rewrite Efr. simpl.
  eexists. split; [reflexivity|].
  unfold callIds, responseIds. simpl. rewrite Efr. simpl.
  rewrite bool_decide_eq_true_2 by done. rewrite lookup_insert_eq. done.
Qed.

(** A response of [name] without identifier takes the head of the queue. *)
Lemma bare_response_part st p id queue :
  isBareResponse name p = true ->
  funcCallIdQueues st !! name = Some (id :: queue) ->
  exists p',
    (claudePart st p).1 = Some p'
    /\ callIds name [p'] = []
    /\ responseIds name [p'] = [Some id]
    /\ funcCallIdQueues (claudePart st p).2 !! name = Some queue
    /\ drawn (claudePart st p).2 = drawn st.
Proof.
  unfold isBareResponse. intros [Ht H]%andb_true_iff Hq. apply negb_true_iff in Ht.
  destruct (functionCall p) as [fc|] eqn:Efc; [done|].
  destruct (functionResponse p) as [fr|] eqn:Efr; [|done].
  apply andb_true_iff in H as [Hn Hid].
  apply bool_decide_eq_true in Hn. apply negb_true_iff in Hid.
  unfold Transform.claudePart, claudeFunctionCall, claudeFunctionResponse.
  rewrite Ht, Efc. simpl. rewrite Efr, Hn, Hid, Hq. simpl.
  eexists. split; [reflexivity|].
  unfold callIds, responseIds. simpl. rewrite Efc. simpl.
  rewrite bool_decide_eq_true_2 by done. rewrite lookup_insert_eq. done.
Qed.

Lemma claudeParts_single st p :
  claudeParts st [p] = (option_list (claudePart st p).1, (claudePart st p).2).
Proof. cbn [Transform.claudeParts]. by destruct (claudePart st p) as [[p'|] st']. Qed.

Lemma claudeParts_pairing st A c1 B c2 C r1 D r2 E :
  default [] (funcCallIdQueues st !! name) = [] ->
  Forall (fun p => neutralFor name p = true) (A ++ B ++ C ++ D ++ E) ->
  isBareCall name c1 = true -> isBareCall name c2 = true ->
  isBareResponse name r1 = true -> isBareResponse name r2 = true ->
  exists k1 k2,
    let id1 := (name ++ "-" ++ randomUUID k1)%string in
    let id2 := (name ++ "-" ++ randomUUID k2)%string in
    let out :=
      (claudeParts st (A ++ [c1] ++ B ++ [c2] ++ C ++ [r1] ++ D ++ [r2] ++ E)).1 in
    (drawn st <= k1 < k2)%nat
    /\ callIds name out = [Some id1; Some id2]
    /\ responseIds name out = [Some id1; Some id2].
Proof.
  intros Hq HN Hc1 Hc2 Hr1 Hr2.
  apply Forall_app in HN as [HA HN]. apply Forall_app in HN as [HB HN].
  apply Forall_app in HN as [HC HN]. apply Forall_app in HN as [HD HE].
  rewrite claudeParts_app.
  pose proof (neutral_parts A st HA) as (QA & DA & CA & RA).
  destruct (claudeParts st A) as [oA stA]. cbn [fst snd] in *.
  rewrite claudeParts_app, claudeParts_single.
  destruct (bare_call_part stA c1 Hc1) as (c1' & E1 & C1 & R1 & Q1 & D1).
  destruct (claudePart stA c1) as [k1 st1]. cbn [fst snd] in *. subst k1.
  rewrite claudeParts_app.
  pose proof (neutral_parts B st1 HB) as (QB & DB & CB & RB).
  destruct (claudeParts st1 B) as [oB stB]. cbn [fst snd] in *.
  rewrite claudeParts_app, claudeParts_single.
  destruct (bare_call_part stB c2 Hc2) as (c2' & E2 & C2 & R2 & Q2 & D2).
  destruct (claudePart stB c2) as [k2 st2]. cbn [fst snd] in *. subst k2.
  rewrite claudeParts_app.
  pose proof (neutral_parts C st2 HC) as (QC & DC & CC & RC).
  destruct (claudeParts st2 C) as [oC stC]. cbn [fst snd] in *.
  rewrite QA, Hq in Q1. rewrite QB, Q1 in Q2. cbn [default app] in Q1, Q2.
  rewrite <- QC in Q2.
  rewrite claudeParts_app, claudeParts_single.
  destruct (bare_response_part stC r1 _ _ Hr1 Q2) as (r1' & E3 & C3 & R3 & Q3 & D3).
  destruct (claudePart stC r1) as [k3 st3]. cbn [fst snd] in *. subst k3.
  rewrite claudeParts_app.
  pose proof (neutral_parts D st3 HD) as (QD & DD & CD & RD).
  destruct (claudeParts st3 D) as [oD stD]. cbn [fst snd] in *.
  rewrite <- QD in Q3.
  rewrite claudeParts_app, claudeParts_single.
  destruct (bare_response_part stD r2 _ _ Hr2 Q3) as (r2' & E4 & C4 & R4 & Q4 & D4).
  destruct (claudePart stD r2) as [k4 st4]. cbn [fst snd] in *. subst k4.
  pose proof (neutral_parts E st4 HE) as (QE & DE & CE & RE).
  destruct (claudeParts st4 E) as [oE stE]. cbn [fst snd] in *.
  exists (drawn stA), (drawn stB).
  split; [lia|].
  rewrite !callIds_app, !responseIds_app.
  change (option_list (Some c1')) with [c1']. change (option_list (Some c2')) with [c2'].
  change (option_list (Some r1')) with [r1']. change (option_list (Some r2')) with [r2'].
  rewrite CA, C1, CB, C2, CC, C3, CD, C4, CE, RA, R1, RB, R2, RC, R3, RD, R4, RE.
  done.
Qed.

(** C6.  In a conversation transformed for the Claude family whose parts
    that call or answer the function [name] are, in order, two calls and
    then two responses, none carrying an identifier, each call is given an
    identifier of its own, [name-<uuid>] with the next UUID drawn, and the
    responses receive the identifiers in the order of the calls: the first
    response the first call's, the second response the second call's.  The
    two identifiers differ as soon as distinct draws give distinct UUIDs. *)
Theorem function_responses_paired_fifo
    (signatureCache : gmap string string) (drawn0 : nat) (body : RequestPayload)
    (cs : list Content) (A B C D E : list Part) (c1 c2 r1 r2 : Part) :
  contents body = Some cs ->
  allParts cs = A ++ [c1] ++ B ++ [c2] ++ C ++ [r1] ++ D ++ [r2] ++ E ->
  Forall (fun p => neutralFor name p = true) (A ++ B ++ C ++ D ++ E) ->
  isBareCall name c1 = true -> isBareCall name c2 = true ->
  isBareResponse name r1 = true -> isBareResponse name r2 = true ->
  exists cs' k1 k2,
    let id1 := (name ++ "-" ++ randomUUID k1)%string in
    let id2 := (name ++ "-" ++ randomUUID k2)%string in
    req_contents
      (wb_request (transformClaudeRequest sha256 randomUUID context
                     signatureCache drawn0 body).1.1) = Some cs'
    /\ (drawn0 <= k1 < k2)%nat
    /\ callIds name (allParts cs') = [Some id1; Some id2]
    /\ responseIds name (allParts cs') = [Some id1; Some id2]
    /\ ((forall a b, randomUUID a = randomUUID b -> a = b) -> id1 <> id2).
Proof.
  intros Hcs Hall HN Hc1 Hc2 Hr1 Hr2.
  set (st0 := mkClaudeState signatureCache ∅ drawn0).
  destruct (claudeParts_pairing st0 A c1 B c2 C r1 D r2 E) as (k1 & k2 & Hk & HC & HR);
    try done.
  pose proof (claudeContents_allParts cs st0) as [Hparts _].
  exists (claudeContents st0 cs).1, k1, k2.
  split.
  { unfold transformClaudeRequest. rewrite Hcs. fold st0.
    by destruct (claudeContents st0 cs) as [cs' st']. }
  split; [exact Hk|].
  rewrite Hparts, Hall. split; [exact HC|]. split; [exact HR|].
  intros Hinj Heq. apply (inj (String.app name)), (inj (String.app "-")), Hinj in Heq. lia.
Qed.
End Pairing.

Lemma function_responses_paired_fifo_witness :
  exists cs' k1 k2,
    req_contents
      (wb_request (transformClaudeRequest sampleDigest sampleUUID claudeContext ∅ 0
                     (mkRequestPayload None None (Some searchConversation))).1.1) = Some cs'
    /\ callIds "search" (allParts cs')
       = [Some ("search-" ++ sampleUUID k1)%string; Some ("search-" ++ sampleUUID k2)%string]
    /\ responseIds "search" (allParts cs')
       = [Some ("search-" ++ sampleUUID k1)%string; Some ("search-" ++ sampleUUID k2)%string].
Proof.
  destruct (function_responses_paired_fifo sampleDigest sampleUUID claudeContext "search"
              ∅ 0%nat (mkRequestPayload None None (Some searchConversation))
              searchConversation [textPart "Find both"] [] [] [] []
              (searchCall "first") (searchCall "second")
              (searchResponse "first result") (searchResponse "second result"))
    as (cs' & k1 & k2 & E & _ & HC & HR & _).
  - reflexivity.
  - reflexivity.
  - repeat constructor.
  - reflexivity.
  - reflexivity.
  - reflexivity.
  - reflexivity.
  - exists cs', k1, k2. split; [exact E|]. split; [exact HC | exact HR].
Defined.

(** The scenario evaluated: both responses leave with the identifiers of the
    calls, in the order of the calls. *)
Example search_scenario :
  let out := (transformClaudeRequest sampleDigest sampleUUID claudeContext ∅ 0
                (mkRequestPayload None None (Some searchConversation))).1.1 in
  let cs' := default [] (req_contents (wb_request out)) in
  callIds "search" (allParts cs')
    = [Some "search-00000000-0000-4000-8000-000000000000"%string;
       Some "search-00000000-0000-4000-8000-000000000001"%string]
  /\ responseIds "search" (allParts cs') = callIds "search" (allParts cs').
Proof. vm_compute. split; reflexivity. Qed.

End TransformTheory.

(** * Properties of the response normalizer *)
Module NormalizerTheory.
Import Normalizer.

(** ** Usage metadata in the response headers *)

Lemma assoc_assocSet_ne {A} (k k' : string) (v : A) (l : list (string * A)) :
  k <> k' -> assoc k' (assocSet k v l) = assoc k' l.
Proof.
  intros Hne. induction l as [|[k0 v0] l IH]; simpl.
  - destruct (String.eqb_spec k' k); [congruence|done].
  - destruct (String.eqb_spec k k0) as [->|Hk]; simpl.
    + destruct (String.eqb_spec k' k0); [congruence|done].
    + destruct (String.eqb_spec k' k0); [done|exact IH].
Qed.

Lemma getField_setField_ne (k k' : string) (v body : JValue) :
  k <> k' -> getField k' (setField k v body) = getField k' body.
Proof.
  intros Hne. destruct body; simpl;
    try (destruct (String.eqb_spec k' k); [congruence|done]).
  by apply assoc_assocSet_ne.
Qed.









End NormalizerTheory.

(** * The account pool: construction, invariants, cooldowns and persistence *)
Module AccountsLaws.
Import Accounts AccountsTheory FetchTheory.

(** ** What the constructor establishes *)

Lemma mapi_indexed {A} (f : A -> nat -> ManagedAccount) (l : list A) c k :
  (forall x i, index (f x i) = Z.of_nat i) ->
  indexed (mkAccountManager (mapi f l) c k).
Proof.
  intros Hf p a. simpl. unfold mapi. rewrite mapi_from_lookup.
  destruct (l !! p); simpl; [|done]. intros [= <-]. apply Hf.
Qed.

(** X1.  Whatever it is given, the constructor yields a pool that is not
    empty, in which every account's [index] is its position, no account is
    current yet, and only the first account holds the host's access token and
    expiry. *)
Theorem construct_establishes (auth : OAuthAuthDetails) (multi : list RefreshParts)
    (single : RefreshParts) (stored : option AccountStorage) :
  let m := construct auth multi single stored in
  (0 < length (accounts m))%nat
  /\ indexed m
  /\ currentAccountIndex m = -1
  /\ (forall p a, accounts m !! p = Some a ->
        access a = (if decide (p = 0%nat) then auth_access auth else None)
        /\ expires a = (if decide (p = 0%nat) then auth_expires auth else None)).
Proof.
  assert (Hfirst : forall {A} p (x : option A),
            firstOnly p x = if decide (p = 0%nat) then x else None).
  { intros A p x. by destruct p. }
  assert (Hstored : forall l c,
    let m := mkAccountManager (mapi (accountOfStored auth) l) c (-1) in
    indexed m /\ (forall p a, accounts m !! p = Some a ->
        access a = (if decide (p = 0%nat) then auth_access auth else None)
        /\ expires a = (if decide (p = 0%nat) then auth_expires auth else None))).
  { intros l c. split; [by apply mapi_indexed|].
    intros p a. simpl. unfold mapi. rewrite mapi_from_lookup.
    destruct (l !! p); simpl; [|done]. intros [= <-]. simpl. by rewrite !Hfirst. }
  assert (Hparts : forall l c,
    let m := mkAccountManager (mapi (accountOfParts auth) l) c (-1) in
    indexed m /\ (forall p a, accounts m !! p = Some a ->
        access a = (if decide (p = 0%nat) then auth_access auth else None)
        /\ expires a = (if decide (p = 0%nat) then auth_expires auth else None))).
  { intros l c. split; [by apply mapi_indexed|].
    intros p a. simpl. unfold mapi. rewrite mapi_from_lookup.
    destruct (l !! p); simpl; [|done]. intros [= <-]. simpl. by rewrite !Hfirst. }
  unfold construct.
  assert (Hfallback :
    let m := match multi with
             | [] => mkAccountManager [accountOfParts auth single 0] 0 (-1)
             | _ :: _ => mkAccountManager (mapi (accountOfParts auth) multi) 0 (-1)
             end in
    (0 < length (accounts m))%nat /\ indexed m /\ currentAccountIndex m = -1
    /\ (forall p a, accounts m !! p = Some a ->
        access a = (if decide (p = 0%nat) then auth_access auth else None)
        /\ expires a = (if decide (p = 0%nat) then auth_expires auth else None))).
  { destruct multi as [|x multi'].
    - destruct (Hparts [single] 0) as [H1 H2].
      split; [simpl; lia|]. split; [exact H1|]. split; [reflexivity|exact H2].
    - destruct (Hparts (x :: multi') 0) as [H1 H2].
      split; [simpl; lia|]. split; [exact H1|]. split; [reflexivity|exact H2]. }
  destruct stored as [st|]; [|exact Hfallback].
  destruct (st_accounts st) as [|x l] eqn:E; [exact Hfallback|].
  destruct (Hstored (x :: l) (st_activeIndex st)) as [H1 H2].
  split; [simpl; lia|]. split; [exact H1|]. split; [reflexivity|exact H2].
Qed.

(** ** The index invariant *)

Lemma indexed_alter (f : ManagedAccount -> ManagedAccount) pos m :
  (forall a, index (f a) = index a) -> indexed m ->
  indexed (set_accounts (alter f pos (accounts m)) m).
Proof.
  intros Hf Hi q b. simpl. rewrite list_lookup_alter.
  destruct (decide (pos = q)) as [->|_]; [|apply Hi].
  destruct (accounts m !! q) as [a|] eqn:E; simpl; [|done].
  intros [= <-]. rewrite Hf. by apply Hi.
Qed.

Lemma indexed_getCurrentOrNext now m r m' :
  indexed m -> getCurrentOrNext now m = (r, m') -> indexed m'.
Proof.
  intros Hi H. destruct r as [pos|].
  - by apply getCurrentOrNext_Some in H as [? _].
  - revert H. unfold getCurrentOrNext.
    assert (Hswitch :
      (let '(next, m1) := getNext now m in
       match next with
       | Some pos0 =>
           (Some pos0,
            mkAccountManager (accounts m1) (currentIndex m1)
              (from_option index (currentAccountIndex m1) (accounts m1 !! pos0)))
       | None => (None, m1)
       end) = (None, m') -> indexed m').
    { destruct (getNext now m) as [[p|] m1] eqn:E; [done|].
      intros [= <-]. by eapply indexed_getNext. }
    destruct (getCurrentAccount m) as [p0|]; [|exact Hswitch].
    destruct (accounts m !! p0) as [a|]; [|exact Hswitch].
    destruct (negb (isRateLimited a)); [done|].
    destruct (rateLimitResetTime a <? now); [done|exact Hswitch].
Qed.

(** X2.  Every operation of the pool keeps the invariant that an account's
    [index] is its position: selection, marking, token update, adding and
    removing. *)
Theorem indexed_preserved (m : AccountManager) :
  indexed m ->
  (forall now, indexed (getNext now m).2)
  /\ (forall now, indexed (getCurrentOrNext now m).2)
  /\ (forall now pos retryAfterMs, indexed (markRateLimited now pos retryAfterMs m))
  /\ (forall pos reason, indexed (markSwitched pos reason m))
  /\ (forall pos acc exp p, indexed (updateAccount pos acc exp p m))
  /\ (forall p acc exp mail, indexed (addAccount p acc exp mail m))
  /\ (forall i, indexed (removeAccount i m).2).
Proof.
  intros Hi. repeat split.
  - intros now. destruct (getNext now m) as [r m'] eqn:E. by eapply indexed_getNext.
  - intros now. destruct (getCurrentOrNext now m) as [r m'] eqn:E.
    by eapply indexed_getCurrentOrNext.
  - intros now pos r. by apply indexed_alter.
  - intros pos reason. unfold markSwitched.
    destruct (accounts m !! pos) as [a|] eqn:E; [|done].
    intros q b. simpl. destruct (decide (pos = q)) as [->|Hne].
    + rewrite list_lookup_insert_eq by (by eapply lookup_lt_Some).
      intros [= <-]. simpl. by apply Hi.
    + rewrite list_lookup_insert_ne by done. apply Hi.
  - intros pos acc exp p. by apply indexed_alter.
  - intros p acc exp mail q b. simpl.
    destruct (decide (q < length (accounts m))%nat) as [Hlt|Hge].
    + rewrite lookup_app_l by done. apply Hi.
    + rewrite lookup_app_r by lia.
      destruct (q - length (accounts m))%nat as [|k] eqn:Ek; simpl; [|done].
      intros [= <-]. simpl. lia.
  - intros i. unfold removeAccount.
    destruct ((i <? 0) || (Z.of_nat (length (accounts m)) <=? i)); [exact Hi|].
    intros q b. simpl. rewrite reindex_lookup.
    destruct (delete (Z.to_nat i) (accounts m) !! q); simpl; [|done].
    by intros [= <-].
Qed.

Lemma indexed_preserved_witness :
  indexed (removeAccount 1 (addAccount (mkRefreshParts "refresh-d" None None) None None None
                              poolThree)).2.
Proof.
  destruct (indexed_preserved poolThree) as (_ & _ & _ & _ & _ & Hadd & _).
  - intros p a. destruct p as [|[|[|p]]]; simpl; try done; by intros [= <-].
  - destruct (indexed_preserved _ (Hadd (mkRefreshParts "refresh-d" None None) None None None))
      as (_ & _ & _ & _ & _ & _ & Hrem).
    apply Hrem.
Defined.

(** ** Selection *)

Lemma availableFrom_nil now l i :
  availableFrom now i l = [] <-> Forall (fun a => isAvailable now a = false) l.
Proof.
  revert i. induction l as [|a l IH]; intros i; simpl.
  - split; [constructor|done].
  - destruct (isAvailable now a) eqn:E.
    + split; [done|]. intros H. apply Forall_cons in H as [? _]. congruence.
    + rewrite IH. split; [by constructor|]. by intros [_ ?]%Forall_cons.
Qed.

Lemma availableFrom_bound now l : forall i p,
  p ∈ availableFrom now i l -> (p < i + length l)%nat.
Proof.
  intros i p (a & Ha & Hle & _)%availableFrom_elem.
  apply lookup_lt_Some in Ha. lia.
Qed.

(** X3.  With a cursor that is not negative, [getNext] returns no account
    exactly when every account is rate-limited with its reset time not yet
    passed, and then it leaves the cursor where it was; an account it returns
    was available, is afterwards not rate-limited and stamped with the current
    time, and the cursor has advanced by one. *)
Theorem getNext_availability (now : Z) (m : AccountManager) :
  0 <= currentIndex m ->
  ((getNext now m).1 = None <->
     Forall (fun a => isRateLimited a = true /\ now <= rateLimitResetTime a) (accounts m))
  /\ ((getNext now m).1 = None -> currentIndex (getNext now m).2 = currentIndex m)
  /\ (forall pos, (getNext now m).1 = Some pos ->
        exists a a',
          accounts m !! pos = Some a /\ isAvailable now a = true
          /\ accounts (getNext now m).2 !! pos = Some a'
          /\ isRateLimited a' = false /\ lastUsed a' = now
          /\ currentIndex (getNext now m).2 = currentIndex m + 1).
Proof.
  intros Hc.
  assert (Hunavail : Forall (fun a => isAvailable now a = false) (accounts m) <->
            Forall (fun a => isRateLimited a = true /\ now <= rateLimitResetTime a)
              (accounts m)).
  { apply Forall_iff. intros a. unfold isAvailable.
    destruct (isRateLimited a); simpl.
    - rewrite Z.ltb_ge. split; [by intros; split; [|lia] | intros [_ ?]; lia].
    - split; [done|]. by intros [? _]. }
  split; [|split].
  - rewrite <- Hunavail, <- (availableFrom_nil now (accounts m) 0).
    unfold getNext.
    destruct (availableFrom now 0 (accounts m)) as [|x xs] eqn:Hav; [done|].
    rewrite <- Hav. split; [|by rewrite Hav].
    set (N := Z.of_nat (length (availableFrom now 0 (accounts m)))).
    assert (HN : 0 < N) by (unfold N; rewrite Hav; simpl; lia).
    rewrite Z.rem_mod_nonneg by lia.
    pose proof (Z.mod_pos_bound (currentIndex m) N HN) as Hb.
    destruct (Z.ltb_spec (currentIndex m mod N) 0); [lia|].
    destruct (availableFrom now 0 (accounts m) !! Z.to_nat (currentIndex m mod N))
      eqn:Hl; [done|].
    apply lookup_ge_None in Hl. intros _.
    set (r := currentIndex m mod N) in *. clearbody r. unfold N in *. lia.
  - unfold getNext.
    destruct (availableFrom now 0 (accounts m)) as [|x xs] eqn:Hav; [done|].
    rewrite <- Hav.
    destruct (_ <? 0); [done|].
    by destruct (availableFrom now 0 (accounts m) !! _).
  - intros pos Hpos. destruct (getNext now m) as [r m'] eqn:E. simpl in Hpos. subst r.
    pose proof E as E'.
    apply getNext_Some in E as ((a & Ha & Hav & Ha') & _ & _).
    exists a, (set_lastUsed now (expireLimit now a)). simpl.
    repeat split; try done.
    + by apply expireLimit_available.
    + revert E'. unfold getNext.
      destruct (availableFrom now 0 (accounts m)) as [|x xs] eqn:Hav'; [done|].
      rewrite <- Hav'. destruct (_ <? 0); [done|].
      destruct (availableFrom now 0 (accounts m) !! _); [|done].
      by intros [= _ <-].
Qed.

Lemma getNext_availability_witness :
  (getNext 10 poolThree).1 = Some 1%nat
  /\ currentIndex (getNext 10 poolThree).2 = 2.
Proof.
  destruct (getNext_availability 10 poolThree) as (_ & _ & H); [simpl; lia|].
  destruct (H 1%nat eq_refl) as (a & a' & _ & _ & _ & _ & _ & Hc).
  split; [reflexivity | exact Hc].
Defined.

(** X4.  Cooldown.  [getCurrentOrNext] reads the clock at its test of the
    current account and again, later, inside [getNext].  Once the current
    account has been marked rate-limited for [d] ms at time [now]: a sticky
    selection whose readings are both at most [now + d] does not return it;
    one whose first reading is after [now + d] returns it, with its
    rate-limited flag cleared; and when [now + d] passes between the two
    readings the flag is cleared by the filter of [getNext], so that the
    account stands in the round robin like any other account, and is the one
    returned when no other is available. *)
Theorem cooldown_expiry (now d t1 t2 : Z) (pos : nat) (m : AccountManager) :
  currentAccountIndex m = Z.of_nat pos ->
  is_Some (accounts m !! pos) ->
  t1 <= t2 ->
  let m' := markRateLimited now pos d m in
  let selection := getCurrentOrNextAt t1 t2 m' in
  (t2 <= now + d -> selection.1 <> Some pos)
  /\ (now + d < t1 ->
        selection.1 = Some pos
        /\ (isRateLimited <$> accounts selection.2 !! pos) = Some false)
  /\ (t1 <= now + d < t2 ->
        (isRateLimited <$> accounts selection.2 !! pos) = Some false
        /\ (0 <= currentIndex m ->
            (forall q b, q <> pos -> accounts m !! q = Some b -> isAvailable t2 b = false) ->
            selection.1 = Some pos)).
Proof.
  intros Hc [a Ha] Hle m' selection.
  pose proof (markRateLimited_lookup now pos d m a Ha) as Ha'. fold m' in Ha'.
  set (a' := set_rateLimitResetTime (now + d) (set_isRateLimited true a)) in Ha'.
  assert (Hcur : getCurrentAccount m' = Some pos) by (by eapply getCurrentAccount_at).
  assert (Hswitch : t1 <= now + d ->
    selection =
      let '(next, m1) := getNext t2 m' in
      match next with
      | Some p =>
          (Some p,
           mkAccountManager (accounts m1) (currentIndex m1)
             (from_option index (currentAccountIndex m1) (accounts m1 !! p)))
      | None => (None, m1)
      end).
  { intros Ht. apply getCurrentOrNextAt_switch. right. exists pos, a'.
    repeat split; try done. }
  split; [|split].
  - intros Ht. rewrite Hswitch by lia.
    destruct (getNext t2 m') as [[p|] m1] eqn:E; cbn; [|done].
    intros [= ->].
    apply getNext_Some in E as ((b & Hb & Hav & _) & _).
    rewrite Ha' in Hb. injection Hb as <-.
    unfold isAvailable in Hav. cbn in Hav.
    destruct (Z.ltb_spec (now + d) t2); [lia|done].
  - intros Ht. unfold selection.
    rewrite (getCurrentOrNextAt_expired t1 t2 m' pos a') by (done || (cbn; lia)).
    cbn. split; [done|].
    rewrite list_lookup_insert_eq; [done|]. by eapply lookup_lt_Some.
  - intros [Ht1 Ht2].
    assert (Hflag : forall l,
      l = map (expireLimit t2) (accounts m')
      \/ (exists q, l = alter (set_lastUsed t2) q (map (expireLimit t2) (accounts m'))) ->
      (isRateLimited <$> l !! pos) = Some false).
    { assert (Hbase : map (expireLimit t2) (accounts m') !! pos
                      = Some (set_isRateLimited false a')).
      { rewrite list_lookup_fmap, Ha'. cbn. f_equal. unfold expireLimit. cbn.
        by destruct (Z.ltb_spec (now + d) t2); [|lia]. }
      intros l [->|[q ->]]; [by rewrite Hbase|].
      destruct (decide (q = pos)) as [->|Hne].
      - by rewrite list_lookup_alter_eq, Hbase.
      - by rewrite list_lookup_alter_ne, Hbase. }
    rewrite Hswitch by lia.
    pose proof (getNext_accounts t2 m') as Hacc.
    split.
    + destruct (getNext t2 m') as [[p|] m1] eqn:E; cbn [fst snd] in *; cbn [accounts];
        apply Hflag; rewrite Hacc; eauto.
    + intros Hcursor Hothers.
      assert (Hav : isAvailable t2 a' = true).
      { unfold isAvailable. cbn. by destruct (Z.ltb_spec (now + d) t2); [|lia]. }
      destruct (getNext_picks t2 m' pos a' Hcursor Ha' Hav) as (q & m1 & E).
      rewrite E. cbn [fst]. f_equal.
      apply getNext_Some in E as ((b & Hb & Hbav & _) & _).
      destruct (decide (q = pos)) as [->|Hne]; [done|].
      unfold m' in Hb. rewrite markRateLimited_other in Hb by done.
      rewrite (Hothers q b Hne Hb) in Hbav. discriminate.
Qed.

Lemma cooldown_expiry_witness :
  let m' := markRateLimited 0 1 120000 poolThreeCurrent in
  (getCurrentOrNextAt 119999 120000 m').1 <> Some 1%nat
  /\ (getCurrentOrNextAt 120001 120002 m').1 = Some 1%nat
  /\ (isRateLimited <$> accounts (getCurrentOrNextAt 120000 120001 m').2 !! 1%nat)
       = Some false.
Proof.
  intros m'.
  destruct (cooldown_expiry 0 120000 119999 120000 1 poolThreeCurrent) as [H1 _];
    [reflexivity | by eexists | lia |].
  destruct (cooldown_expiry 0 120000 120001 120002 1 poolThreeCurrent) as (_ & H2 & _);
    [reflexivity | by eexists | lia |].
  destruct (cooldown_expiry 0 120000 120000 120001 1 poolThreeCurrent) as (_ & _ & H3);
    [reflexivity | by eexists | lia |].
  split; [apply H1; lia|]. split; [apply H2; lia|]. apply H3. lia.
Defined.

(** X5.  Sticky preference.  While the current account is not rate-limited,
    any number of sticky selections return that same account, and neither the
    round-robin cursor nor the current pointer moves. *)
Theorem sticky_selection_never_switches (nows : list Z) : forall (m : AccountManager) pos a,
  currentAccountIndex m = Z.of_nat pos ->
  accounts m !! pos = Some a ->
  isRateLimited a = false ->
  (getCurrentOrNextMany nows m).1 = replicate (length nows) (Some pos)
  /\ currentIndex (getCurrentOrNextMany nows m).2 = currentIndex m
  /\ currentAccountIndex (getCurrentOrNextMany nows m).2 = currentAccountIndex m.
Proof.
  induction nows as [|now rest IH]; intros m pos a Hc Ha Hl; [done|].
  simpl. rewrite (getCurrentOrNext_sticky now m pos a Hc Ha Hl).
  set (m1 := set_accounts _ m).
  destruct (IH m1 pos (set_lastUsed now a)) as (H1 & H2 & H3); [done| |done|].
  { unfold m1. simpl. apply list_lookup_insert_eq. by eapply lookup_lt_Some. }
  destruct (getCurrentOrNextMany rest m1) as [rs m2]. simpl in *.
  by rewrite H1, H2, H3.
Qed.

Lemma sticky_selection_never_switches_witness :
  (getCurrentOrNextMany [1; 2; 3] poolThreeCurrent).1
    = [Some 1%nat; Some 1%nat; Some 1%nat].
Proof.
  destruct (sticky_selection_never_switches [1; 2; 3] poolThreeCurrent 1
              (set_lastSwitchReason InitialSwitch
                 (accountOfStored (mkOAuthAuthDetails "refresh-a" (Some "token") (Some 0))
                    (mkAccountMetadata None "refresh-b" None None 0 0 None None None) 1)))
    as [H _]; [reflexivity..|exact H].
Defined.

(** ** Waiting for an account *)

Lemma fold_min_spec (w : Z) (ws : list Z) :
  fold_right Z.min w ws ∈ w :: ws /\ Forall (fun x => fold_right Z.min w ws <= x) (w :: ws).
Proof.
  induction ws as [|x ws [Hmem Hlow]]; simpl.
  - split; [apply list_elem_of_here|]. constructor; [lia|constructor].
  - apply Forall_cons in Hlow as [Hw Hws]. split.
    + destruct (Z.min_spec x (fold_right Z.min w ws)) as [[_ ->]|[_ ->]].
      * apply list_elem_of_further, list_elem_of_here.
      * apply elem_of_cons in Hmem as [->|Hmem]; [apply list_elem_of_here|].
        by do 2 apply list_elem_of_further.
    + constructor; [lia|]. constructor; [lia|].
      eapply Forall_impl; [exact Hws|]. simpl. intros. lia.
Qed.

(** X6.  [getMinWaitTime] is 0 as soon as some account is available, and on
    an empty pool.  When the pool is not empty and no account is available it
    is the shortest remaining cooldown: not negative, no longer than any
    account's, and exactly some account's.  After waiting that long no account
    is available yet, the comparison with the reset time being strict; one
    millisecond later one is. *)
Theorem getMinWaitTime_spec (now : Z) (m : AccountManager) :
  (Exists (fun a => isAvailable now a = true) (accounts m) -> getMinWaitTime now m = 0)
  /\ (accounts m = [] -> getMinWaitTime now m = 0)
  /\ (accounts m <> [] ->
      Forall (fun a => isAvailable now a = false) (accounts m) ->
      let w := getMinWaitTime now m in
      0 <= w
      /\ Forall (fun a => w <= rateLimitResetTime a - now) (accounts m)
      /\ Exists (fun a => w = rateLimitResetTime a - now) (accounts m)
      /\ Forall (fun a => isAvailable (now + w) a = false) (accounts m)
      /\ Exists (fun a => isAvailable (now + w + 1) a = true) (accounts m)).
Proof.
  unfold getMinWaitTime. split; [|split].
  - intros (a & Hin & Hav)%Exists_exists.
    destruct (filter _ (accounts m)) as [|x xs] eqn:E; [|done].
    assert (a ∈ filter (fun a => isAvailable now a = true) (accounts m)) as Hf
      by (by apply list_elem_of_filter).
    rewrite E in Hf. by apply elem_of_nil in Hf.
  - by intros ->.
  - intros Hne Hall.
    assert (Hlim : Forall (fun a => isRateLimited a = true /\ now <= rateLimitResetTime a)
                     (accounts m)).
    { eapply Forall_impl; [exact Hall|]. intros a. unfold isAvailable.
      destruct (isRateLimited a); simpl; [|done].
      rewrite Z.ltb_ge. by split. }
    assert (filter (fun a => isAvailable now a = true) (accounts m) = []) as ->.
    { clear -Hall. induction Hall as [|a l Ha _ IH]; [done|].
      rewrite filter_cons_False by congruence. exact IH. }
    assert (filter (fun a => isRateLimited a = true) (accounts m) = accounts m) as ->.
    { clear -Hlim. induction Hlim as [|a l [Ha _] _ IH]; [done|].
      rewrite filter_cons_True by done. by rewrite IH. }
    destruct (accounts m) as [|a0 l] eqn:Eacc; [done|]. clear Hne.
    cbn [map].
    set (w0 := Z.max 0 (rateLimitResetTime a0 - now)).
    set (ws := map (fun a => Z.max 0 (rateLimitResetTime a - now)) l).
    destruct (fold_min_spec w0 ws) as [Hin Hle].
    set (w := fold_right Z.min w0 ws) in *.
    assert (Hmap : w0 :: ws = map (fun a => rateLimitResetTime a - now) (a0 :: l)).
    { change (w0 :: ws)
        with (map (fun a => Z.max 0 (rateLimitResetTime a - now)) (a0 :: l)).
      clear -Hlim. induction (a0 :: l) as [|a l' IH]; [done|].
      apply Forall_cons in Hlim as [[_ Ha] Hl].
      cbn [map]. f_equal; [lia|by apply IH]. }
    rewrite Hmap in Hin, Hle.
    apply list_elem_of_fmap in Hin as (a & Hw & Hain).
    rewrite Forall_fmap in Hle.
    assert (H0 : 0 <= w).
    { rewrite Forall_forall in Hlim. destruct (Hlim a Hain) as [_ ?]. lia. }
    split; [exact H0|]. split; [exact Hle|]. split; [|split].
    + apply Exists_exists. eauto.
    + rewrite Forall_forall in Hle, Hlim. apply Forall_forall. intros b Hb.
      specialize (Hle b Hb). destruct (Hlim b Hb) as [Hlb _]. simpl in Hle.
      unfold isAvailable. rewrite Hlb. simpl. apply Z.ltb_ge. lia.
    + apply Exists_exists. exists a. split; [done|].
      unfold isAvailable. apply orb_true_iff. right. apply Z.ltb_lt. lia.
Qed.

(** Both accounts cooling down, for 30 and for 60 seconds. *)
Lemma getMinWaitTime_spec_witness :
  let m := markRateLimited 0 1 60000 (markRateLimited 0 0 30000 Fetch.poolTwo) in
  getMinWaitTime 0 m = 30000
  /\ Forall (fun a => isAvailable (0 + getMinWaitTime 0 m) a = false) (accounts m).
Proof.
  intros m. destruct (getMinWaitTime_spec 0 m) as (_ & _ & H).
  destruct H as (_ & _ & _ & Hf & _); [done | by repeat constructor |].
  split; [reflexivity | exact Hf].
Defined.

(** ** Persistence *)

Lemma parts_eta (p : RefreshParts) :
  mkRefreshParts (refreshToken p) (projectId p) (managedProjectId p) = p.
Proof. by destruct p. Qed.

(** X7.  Saving the pool, loading the file and constructing a pool from it
    gives back every account with its credentials, email, rate-limit state and
    usage stamps; only the access token and expiry are taken anew from the
    host (first account) or dropped (the others).  The cursor of the new pool
    is the old current pointer (0 when there was none), so as long as no
    account is rate-limited the first sticky selection after the restart picks
    the account that was current before. *)
Theorem save_load_construct (now : Z) (m : AccountManager) (auth : OAuthAuthDetails)
    (multi : list RefreshParts) (single : RefreshParts) :
  indexed m ->
  accounts m <> [] ->
  currentAccountIndex m < Z.of_nat (length (accounts m)) ->
  exists st,
    loadAccounts (Some (writtenFile (toStorage now m))) = Some st
    /\ let m' := construct auth multi single (Some st) in
       currentIndex m' = Z.max 0 (currentAccountIndex m)
       /\ accounts m' =
            mapi (fun a i =>
                    mkManagedAccount (index a) (parts a) (firstOnly i (auth_access auth))
                      (firstOnly i (auth_expires auth)) (isRateLimited a)
                      (rateLimitResetTime a) (lastUsed a) (email a) (lastSwitchReason a))
                 (accounts m)
       /\ (noneLimited (accounts m) -> forall now',
             (getCurrentOrNext now' m').1
               = Some (Z.to_nat (Z.max 0 (currentAccountIndex m)))).
Proof.
  intros Hi Hne Hcur.
  set (c := Z.max 0 (currentAccountIndex m)).
  assert (Hlen : (0 < length (accounts m))%nat) by (destruct (accounts m); [done|simpl; lia]).
  exists (mkAccountStorage (st_accounts (toStorage now m)) c).
  split.
  { unfold loadAccounts, writtenFile. simpl. rewrite length_map. fold c.
    destruct (Z.ltb_spec c 0); [lia|].
    destruct (Z.leb_spec (Z.of_nat (length (accounts m))) c); [lia|]. done. }
  assert (Hacc : forall c0,
    accounts (construct auth multi single
                (Some (mkAccountStorage (st_accounts (toStorage now m)) c0)))
    = mapi (fun a i =>
              mkManagedAccount (index a) (parts a) (firstOnly i (auth_access auth))
                (firstOnly i (auth_expires auth)) (isRateLimited a)
                (rateLimitResetTime a) (lastUsed a) (email a) (lastSwitchReason a))
           (accounts m)
    /\ currentIndex (construct auth multi single
                (Some (mkAccountStorage (st_accounts (toStorage now m)) c0))) = c0
    /\ currentAccountIndex (construct auth multi single
                (Some (mkAccountStorage (st_accounts (toStorage now m)) c0))) = -1).
  { intros c0. unfold construct. simpl.
    destruct (accounts m) as [|a0 l] eqn:Eacc; [done|]. cbn [map].
    split; [|done]. rewrite <- Eacc in *.
    change (?x :: map ?f l) with (map f (a0 :: l)). rewrite <- Eacc.
    cbn [accounts]. apply list_eq. intros p. unfold mapi.
    rewrite !mapi_from_lookup, list_lookup_fmap.
    destruct (accounts m !! p) as [a|] eqn:Ea; [|done]. simpl. f_equal.
    unfold accountOfStored. simpl. rewrite parts_eta, (Hi p a Ea). done. }
  destruct (Hacc c) as (Ha & Hc & Hp).
  split; [exact Hc|]. split; [exact Ha|].
  intros Hnl now'.
  set (m' := construct auth multi single _) in *.
  assert (Hnl' : noneLimited (accounts m')).
  { rewrite Ha. unfold mapi. generalize 0%nat. clear -Hnl.
    induction Hnl as [|a l Hl _ IH]; intros i; [constructor|].
    constructor; [exact Hl|apply IH]. }
  assert (Hlen' : length (accounts m') = length (accounts m)).
  { rewrite Ha. unfold mapi. by rewrite mapi_from_length. }
  unfold getCurrentOrNext.
  assert (getCurrentAccount m' = None) as ->.
  { unfold getCurrentAccount. by rewrite Hp. }
  rewrite getNext_noneLimited by (rewrite ?Hlen', ?Hc; unfold c; (done || lia)).
  simpl. rewrite Hc, Hlen', Z.mod_small by (unfold c in *; lia). done.
Qed.

Lemma save_load_construct_witness :
  exists st,
    loadAccounts (Some (writtenFile (toStorage 50 poolThreeCurrent))) = Some st
    /\ (getCurrentOrNext 60
          (construct (mkOAuthAuthDetails "refresh-a" (Some "token") (Some 0)) []
             (mkRefreshParts "refresh-a" None None) (Some st))).1 = Some 1%nat.
Proof.
  destruct (save_load_construct 50 poolThreeCurrent
              (mkOAuthAuthDetails "refresh-a" (Some "token") (Some 0)) []
              (mkRefreshParts "refresh-a" None None)) as (st & Hl & _ & _ & H).
  - intros p a. destruct p as [|[|[|p]]]; simpl; try done; by intros [= <-].
  - done.
  - simpl. lia.
  - exists st. split; [exact Hl|]. apply (H ltac:(repeat constructor) 60).
Defined.

Lemma set_index_eta (a : ManagedAccount) : set_index (index a) a = a.
Proof. by destruct a. Qed.

(** X8.  Adding an account appends it with the next free index and leaves
    the accounts already there untouched; removing it again gives back the
    pool exactly as it was. *)
Theorem addAccount_then_remove (m : AccountManager) (p : RefreshParts)
    (acc : option string) (exp : option Z) (mail : option string) :
  indexed m ->
  let m1 := addAccount p acc exp mail m in
  (forall q, (q < length (accounts m))%nat -> accounts m1 !! q = accounts m !! q)
  /\ (index <$> accounts m1 !! length (accounts m)) = Some (Z.of_nat (length (accounts m)))
  /\ length (accounts m1) = S (length (accounts m))
  /\ removeAccount (Z.of_nat (length (accounts m))) m1 = (true, m).
Proof.
  intros Hi m1. unfold m1, addAccount. simpl. repeat split.
  - intros q Hq. by rewrite lookup_app_l.
  - rewrite lookup_app_r by lia. by rewrite Nat.sub_diag.
  - rewrite length_app. simpl. lia.
  - unfold removeAccount. simpl. rewrite length_app. simpl.
    destruct (Z.ltb_spec (Z.of_nat (length (accounts m))) 0); [lia|].
    destruct (Z.leb_spec (Z.of_nat (length (accounts m) + 1)) (Z.of_nat (length (accounts m))));
      [lia|]. simpl.
    destruct m as [l c k]. unfold set_accounts. simpl in *. do 2 f_equal.
    rewrite Nat2Z.id. apply list_eq. intros q. rewrite reindex_lookup.
    destruct (decide (q < length l)%nat) as [Hlt|Hge].
    + rewrite list_lookup_delete_lt, lookup_app_l by lia.
      destruct (l !! q) as [a|] eqn:Ea; [|done]. simpl.
      by rewrite <- (Hi q a Ea), set_index_eta.
    + rewrite list_lookup_delete_ge by lia.
      rewrite lookup_ge_None_2 by (rewrite length_app; simpl; lia).
      by rewrite lookup_ge_None_2 by lia.
Qed.

Lemma addAccount_then_remove_witness :
  removeAccount 3 (addAccount (mkRefreshParts "refresh-d" None None) None None None poolThree)
    = (true, poolThree).
Proof.
  destruct (addAccount_then_remove poolThree (mkRefreshParts "refresh-d" None None)
              None None None) as (_ & _ & _ & H).
  - intros p a. destruct p as [|[|[|p]]]; simpl; try done; by intros [= <-].
  - exact H.
Defined.

Lemma getMinWaitTime_nonneg (now : Z) (m : AccountManager) : 0 <= getMinWaitTime now m.
Proof.
  unfold getMinWaitTime. destruct (filter _ (accounts m)); [|done].
  destruct (map _ _) as [|w ws] eqn:E; [done|].
  destruct (fold_min_spec w ws) as [Hin _]. rewrite <- E in Hin.
  apply list_elem_of_fmap in Hin as (a & -> & _). lia.
Qed.

Lemma set_accounts_eta (m : AccountManager) : set_accounts (accounts m) m = m.
Proof. by destruct m. Qed.

Lemma expireLimit_unavailable now l :
  Forall (fun a => isAvailable now a = false) l -> map (expireLimit now) l = l.
Proof.
  induction 1 as [|a l Ha _ IH]; [done|]. cbn [map]. rewrite IH. f_equal.
  unfold isAvailable in Ha. unfold expireLimit.
  apply orb_false_iff in Ha as [_ ->]. by rewrite andb_false_r.
Qed.

(** With every account cooling down the selection finds none and changes
    nothing. *)
Lemma getCurrentOrNext_all_limited now m :
  Forall (fun a => isAvailable now a = false) (accounts m) ->
  getCurrentOrNext now m = (None, m).
Proof.
  intros Hall.
  assert (Hnext : getNext now m = (None, m)).
  { unfold getNext. rewrite (proj2 (availableFrom_nil now (accounts m) 0) Hall).
    by rewrite expireLimit_unavailable, set_accounts_eta. }
  unfold getCurrentOrNext. rewrite Hnext.
  destruct (getCurrentAccount m) as [pos|]; [|done].
  destruct (accounts m !! pos) as [a|] eqn:Ea; [|done].
  rewrite Forall_forall in Hall.
  specialize (Hall a (list_elem_of_lookup_2 _ _ _ Ea)).
  unfold isAvailable in Hall. apply orb_false_iff in Hall as [-> ->]. done.
Qed.

End AccountsLaws.

(** * The orchestrator: retry headers, waits and the passes of the loop *)
Module FetchLaws.
Import Accounts Fetch AccountsTheory FetchTheory AccountsLaws.

(** ** Reading the retry headers *)

Lemma pretty_N_char_digit (d : N) :
  (d < 10)%N ->
  isDigit (pretty_N_char d) = true /\ digitValue (pretty_N_char d) = Z.of_N d
  /\ isWhiteSpace (pretty_N_char d) = false.
Proof.
  intros Hd.
  assert (d = 0 \/ d = 1 \/ d = 2 \/ d = 3 \/ d = 4 \/ d = 5 \/ d = 6 \/ d = 7
          \/ d = 8 \/ d = 9)%N as H by lia.
  repeat (destruct H as [->|H]; [by vm_compute|]). subst. by vm_compute.
Qed.

(** Reading the digits [pretty_N_go] writes in front of [s] shifts the
    accumulator and adds the number written. *)
Lemma digitsValue_pretty_N_go (x : N) : forall s,
  exists k : Z, 0 <= k /\
    forall acc, digitsValue acc (pretty_N_go x s) = digitsValue (acc * 10 ^ k + Z.of_N x) s.
Proof.
  induction (N.lt_wf_0 x) as [x _ IH]. intros s.
  destruct (decide (x = 0%N)) as [->|Hx].
  - exists 0. split; [lia|]. intros acc. rewrite pretty_N_go_0. f_equal. lia.
  - rewrite pretty_N_go_step by lia.
    destruct (IH (x `div` 10)%N) with (s := String (pretty_N_char (x `mod` 10)) s)
      as (k & Hk & Hgo); [apply N.div_lt; lia|].
    exists (k + 1). split; [lia|]. intros acc. rewrite Hgo. cbn [digitsValue].
    destruct (pretty_N_char_digit (x `mod` 10)) as (-> & -> & _);
      [apply N.mod_lt; lia|].
    f_equal. rewrite Z.pow_add_r, Z.pow_1_r by lia.
    pose proof (N.div_mod x 10 ltac:(done)) as Hdm.
    apply (f_equal Z.of_N) in Hdm. rewrite N2Z.inj_add, N2Z.inj_mul in Hdm.
    change (Z.of_N 10) with 10 in Hdm.
    set (q := Z.of_N (x `div` 10)) in *. set (d := Z.of_N (x `mod` 10)) in *.
    rewrite Hdm. lia.
Qed.

Lemma pretty_N_go_head (x : N) : forall s,
  (0 < x)%N ->
  exists c r, pretty_N_go x s = String c r /\ isDigit c = true /\ isWhiteSpace c = false.
Proof.
  induction (N.lt_wf_0 x) as [x _ IH]. intros s Hx.
  rewrite pretty_N_go_step by done.
  destruct (decide (x `div` 10 = 0)%N) as [->|Hq].
  - rewrite pretty_N_go_0.
    destruct (pretty_N_char_digit (x `mod` 10)) as (? & _ & ?); [apply N.mod_lt; lia|].
    eauto.
  - apply IH; [apply N.div_lt; lia|by apply N.neq_0_lt_0].
Qed.

Lemma unsignedInt_pretty_pos (p : positive) :
  exists c r, pretty (Npos p) = String c r /\ isDigit c = true /\ isWhiteSpace c = false
              /\ unsignedInt (pretty (Npos p)) = Some (Zpos p).
Proof.
  unfold pretty, pretty_N. rewrite decide_False by done.
  destruct (pretty_N_go_head (Npos p) "") as (c & r & E & Hc & Hw); [lia|].
  exists c, r. repeat split; try done.
  unfold unsignedInt. rewrite E, Hc, <- E.
  destruct (digitsValue_pretty_N_go (Npos p) "") as (k & _ & ->). simpl. done.
Qed.

(** [parseInt(String(n), 10)] is [n]. *)
Lemma parseInt10_pretty (n : Z) : parseInt10 (pretty n) = Some n.
Proof.
  destruct n as [|p|p].
  - reflexivity.
  - change (pretty (Z.pos p)) with (pretty (Npos p)).
    destruct (unsignedInt_pretty_pos p) as (c & r & E & Hc & Hw & Hu).
    unfold parseInt10. rewrite E in Hu |- *. cbn [skipWhiteSpace]. rewrite Hw.
    destruct c as [[] [] [] [] [] [] [] []]; try (by vm_compute in Hc); exact Hu.
  - change (pretty (Z.neg p)) with ("-" +:+ pretty (Npos p)).
    destruct (unsignedInt_pretty_pos p) as (c & r & E & Hc & Hw & Hu).
    change (parseInt10 ("-" +:+ pretty (N.pos p)))
      with (Z.opp <$> unsignedInt (pretty (N.pos p))).
    by rewrite Hu.
Qed.

(** X9.  [parseRetryAfterMs]: a non-empty [retry-after-ms] header decides
    alone: written as the decimal numeral of a safe integer it is the result,
    and when it is not a number the result is the default of 60000 ms,
    whatever [retry-after] says.  [retry-after] counts, in seconds, only when
    [retry-after-ms] is missing or empty, and gives its thousandfold when
    that is a safe integer.  Without either header the result is 60000 ms.
    (Beyond the safe integers [parseInt] rounds, and the result is not the
    number written.) *)
Theorem parseRetryAfterMs_spec (response : Response) :
  (forall n : Z, isSafeInteger n = true ->
     headers response !! "retry-after-ms" = Some (pretty n) ->
     parseRetryAfterMs response = n)
  /\ (forall h, headers response !! "retry-after-ms" = Some h -> truthy h = true ->
        parseInt10 h = None -> parseRetryAfterMs response = 60000)
  /\ (forall n : Z, isSafeInteger (n * 1000) = true ->
        headerGet "retry-after-ms" response = None ->
        headers response !! "retry-after" = Some (pretty n) ->
        parseRetryAfterMs response = n * 1000)
  /\ (headerGet "retry-after-ms" response = None ->
      headerGet "retry-after" response = None ->
      parseRetryAfterMs response = 60000).
Proof.
  assert (Htruthy : forall n : Z, truthy (pretty n) = true).
  { intros n. pose proof (parseInt10_pretty n) as H.
    destruct (pretty n) eqn:E; [|done]. by vm_compute in H. }
  unfold parseRetryAfterMs. repeat split.
  - intros n _ H. unfold headerGet. by rewrite H, Htruthy, parseInt10_pretty.
  - intros h H Ht Hp. unfold headerGet. by rewrite H, Ht, Hp.
  - intros n _ -> H. unfold headerGet. by rewrite H, Htruthy, parseInt10_pretty.
  - by intros -> ->.
Qed.

Lemma parseRetryAfterMs_spec_witness :
  parseRetryAfterMs
    (mkResponse 429 (list_to_map [("retry-after-ms", "soon"); ("retry-after", "7")]) None)
  = 60000
  /\ parseRetryAfterMs (mkResponse 429 (list_to_map [("retry-after-ms", "1500")]) None)
     = 1500.
Proof.
  split.
  - apply (parseRetryAfterMs_spec
             (mkResponse 429 (list_to_map [("retry-after-ms", "soon"); ("retry-after", "7")])
                None)) with (h := "soon"); reflexivity.
  - apply (parseRetryAfterMs_spec
             (mkResponse 429 (list_to_map [("retry-after-ms", "1500")]) None));
      [reflexivity | vm_compute; reflexivity].
Defined.

(** ** The waits of [sleepWithBackoff] *)

Definition stepAt (k : nat) : Z := default (default 30000 (last stepsMs)) (stepsMs !! k).

Lemma sleepLoop_schedule (fuel : nat) : forall remainingMs stepIndex k w,
  sleepLoop fuel remainingMs stepIndex !! k = Some w ->
  0 < w <= stepAt (stepIndex + k)
  /\ (is_Some (sleepLoop fuel remainingMs stepIndex !! S k) -> w = stepAt (stepIndex + k)).
Proof.
  induction fuel as [|fuel IH]; intros r i k w; [done|].
  cbn [sleepLoop]. destruct (Z.ltb_spec 0 r) as [Hr|Hr]; [|done].
  fold (stepAt i). pose proof (stepMs_bounds i) as Hb. fold (stepAt i) in Hb.
  destruct k as [|k].
  - intros [= <-]. rewrite Nat.add_0_r. split; [lia|].
    cbn [lookup list_lookup]. intros [w' Hw'].
    destruct fuel as [|fuel]; [done|]. cbn [sleepLoop] in Hw'.
    destruct (Z.ltb_spec 0 (r - Z.min r (stepAt i))); [lia|done].
  - intros H. replace (i + S k)%nat with (S i + k)%nat by lia.
    by apply IH in H.
Qed.

(** X10.  For a time that is at most [Number.MAX_SAFE_INTEGER], the waits
    of a [sleepWithBackoff] that is not aborted are finitely many and add up
    to the time asked for (0 for a negative one).  The wait number [k] is positive and at most the
    step [k] of the schedule 3, 5, 10, 20, 30 s (30 s from the fifth on), and
    every wait but the last is exactly that step.  (For [Infinity], and for
    doubles that a step does not change, the loop of the source does not
    end.) *)
Theorem sleepWithBackoff_schedule (totalMs : Z) :
  totalMs <= MAX_SAFE_INTEGER ->
  let waits := sleepWithBackoff totalMs in
  foldr Z.add 0 waits = Z.max 0 totalMs
  /\ (forall k w, waits !! k = Some w -> 0 < w <= default 30000 (stepsMs !! k))
  /\ (forall k w, waits !! k = Some w -> is_Some (waits !! S k) ->
        w = default 30000 (stepsMs !! k))
  /\ (totalMs <= 0 <-> waits = []).
Proof.
  intros _ waits. split; [apply sleepWithBackoff_total|].
  split; [|split].
  - intros k w H. by apply sleepLoop_schedule in H as [H _].
  - intros k w H. by apply sleepLoop_schedule in H as [_ H].
  - unfold waits, sleepWithBackoff, sleepFuel. cbn [sleepLoop].
    destruct (Z.ltb_spec 0 (Z.max 0 totalMs)); split; try done; lia.
Qed.

Lemma sleepWithBackoff_schedule_witness :
  foldr Z.add 0 (sleepWithBackoff 12000) = 12000
  /\ (12000 <= 0 <-> sleepWithBackoff 12000 = []).
Proof.
  destruct (sleepWithBackoff_schedule 12000) as (Hsum & _ & _ & Hnone);
    [vm_compute; discriminate|].
  split; [exact Hsum | exact Hnone].
Defined.

(** ** What a pass of the endpoint loop leaves behind *)

Lemma last_attempt_cons e evs x :
  last (attempts evs) = Some x -> last (attempts (EvAttempt e :: evs)) = Some x.
Proof.
  change (attempts (EvAttempt e :: evs)) with (e :: attempts evs).
  destruct (attempts evs); [done|]. by rewrite last_cons_cons.
Qed.

Lemma handleRateLimit_result now response pos m accountCount :
  let '(r, m', evs) := handleRateLimit now response pos m accountCount in
  (r = RetrySoon /\ m' = m)
  \/ (r = RateLimit (parseRetryAfterMs response)
      /\ m' = markRateLimited now pos (parseRetryAfterMs response) m).
Proof.
  unfold handleRateLimit. repeat case_match; simplify_eq; auto.
Qed.

(** The result of the loop is never the one built after the [for] statement
    when the endpoints from [i] on are there and the last of them has index
    [n - 1]. *)
Lemma endpointLoop_not_all_failed fetchAt prepared now pos accountCount n rest :
  forall i lastError lastResponse lastAttemptInfo m,
  Forall (fun e => truthy e = true) rest -> rest <> [] ->
  i + Z.of_nat (length rest) = n ->
  match (endpointLoop fetchAt prepared now pos accountCount n i rest
           lastError lastResponse lastAttemptInfo m).1.1 with
  | Returned (AllFailedResponse _ _) | Returned (AllFailedError _) => False
  | _ => True
  end.
Proof.
  induction rest as [|e rest IH]; intros i le lr li m Ht Hne Hn; [done|].
  apply Forall_cons in Ht as [He Ht]. cbn [endpointLoop]. rewrite He. cbn [negb].
  assert (Hrec : i < n - 1 -> rest <> []).
  { intros Hi ->. simpl in Hn. lia. }
  assert (Hn' : i + 1 + Z.of_nat (length rest) = n) by (simpl in Hn; lia).
  destruct (fetchAt e) as [err|err|response].
  - destruct (Z.ltb_spec i (n - 1)) as [Hi|Hi]; [|done].
    specialize (IH (i + 1) (Some err) lr li m Ht (Hrec Hi) Hn').
    by destruct (endpointLoop _ _ _ _ _ _ _ _ _ _ _ _) as [[r m'] evs].
  - destruct (Z.ltb_spec i (n - 1)) as [Hi|Hi]; [|done].
    specialize (IH (i + 1) (Some err) lr (Some (attemptInfoOf prepared e)) m Ht (Hrec Hi) Hn').
    by destruct (endpointLoop _ _ _ _ _ _ _ _ _ _ _ _) as [[r m'] evs].
  - destruct (status response =? 429).
    { pose proof (handleRateLimit_result now response pos m accountCount) as H.
      destruct (handleRateLimit _ _ _ _ _) as [[r m'] evs].
      by destruct H as [[-> _]|[-> _]]. }
    destruct ((500 <=? status response) && (i =? n - 1)); [done|].
    destruct (Z.ltb_spec i (n - 1)) as [Hi|Hi]; [|by rewrite andb_false_r].
    rewrite andb_true_r. destruct (shouldRetryEndpoint (status response)); [|done].
    specialize (IH (i + 1) le (Some response) (Some (attemptInfoOf prepared e)) m
                  Ht (Hrec Hi) Hn').
    by destruct (endpointLoop _ _ _ _ _ _ _ _ _ _ _ _) as [[r m'] evs].
Qed.

(** X11.  With the three endpoints of the constant list, [tryEndpointFallbacks]
    never returns an all-failed result: the statements after its loop are not
    reached, because the last endpoint always ends the loop from inside, with
    a return or a throw.  So the orchestrator's branch for all-failed results
    is never taken. *)
Theorem tryEndpointFallbacks_never_all_failed
    fetchAt prepared now pos m accountCount :
  let out := tryEndpointFallbacks fetchAt prepared now pos m accountCount in
  (forall response info, out.1.1 <> Returned (AllFailedResponse response info))
  /\ (forall error, out.1.1 <> Returned (AllFailedError error)).
Proof.
  intros out.
  pose proof (endpointLoop_not_all_failed fetchAt prepared now pos accountCount
                (Z.of_nat (length CODE_ASSIST_ENDPOINT_FALLBACKS))
                CODE_ASSIST_ENDPOINT_FALLBACKS 0 None None None m) as H.
  fold (tryEndpointFallbacksOn CODE_ASSIST_ENDPOINT_FALLBACKS fetchAt prepared now pos m
          accountCount) in H.
  fold tryEndpointFallbacks in H. fold out in H.
  specialize (H ltac:(by repeat constructor) ltac:(done) ltac:(done)).
  destruct out as [[r m'] evs]. cbn [fst snd] in *.
  split; [by intros ?? ->|by intros ? ->].
Qed.

(** A successful result carries the answer of the endpoint attempted last. *)
Lemma endpointLoop_success fetchAt prepared now pos accountCount n rest :
  forall i lastError lastResponse lastAttemptInfo m response info m' evs,
  i + Z.of_nat (length rest) = n ->
  endpointLoop fetchAt prepared now pos accountCount n i rest
    lastError lastResponse lastAttemptInfo m = (Returned (Success response info), m', evs) ->
  exists e,
    last (attempts evs) = Some e /\ e ∈ rest
    /\ fetchAt e = Responded response
    /\ info = Some (attemptInfoOf prepared e)
    /\ status response <> 429 /\ status response < 500
    /\ (status response = 403 \/ status response = 404 -> last rest = Some e)
    /\ m' = m.
Proof.
  induction rest as [|e rest IH]; intros i le lr li m response info m' evs Hn.
  { cbn [endpointLoop]. by repeat case_match. }
  assert (Hn' : i + 1 + Z.of_nat (length rest) = n) by (simpl in Hn; lia).
  assert (Hnext : forall le lr li,
    (let '(r, m1, evs1) :=
       endpointLoop fetchAt prepared now pos accountCount n (i + 1) rest le lr li m in
     (r, m1, EvAttempt e :: evs1)) = (Returned (Success response info), m', evs) ->
    i < n - 1 ->
    exists e0, last (attempts evs) = Some e0 /\ e0 ∈ e :: rest
      /\ fetchAt e0 = Responded response /\ info = Some (attemptInfoOf prepared e0)
      /\ status response <> 429 /\ status response < 500
      /\ (status response = 403 \/ status response = 404 -> last (e :: rest) = Some e0)
      /\ m' = m).
  { intros le' lr' li' H Hi.
    destruct (endpointLoop _ _ _ _ _ _ _ _ _ _ _ _) as [[r m1] evs1] eqn:E.
    simplify_eq. apply IH in E as (e0 & Hl & Hin & Hf & Hinfo & H1 & H2 & H3 & ->); [|done].
    exists e0. split; [by apply last_attempt_cons|].
    split; [by apply list_elem_of_further|]. repeat (split; [done|]). split; [|done].
    intros Hs. destruct rest; [by apply elem_of_nil in Hin|].
    rewrite last_cons_cons. auto. }
  cbn [endpointLoop]. destruct (truthy e) eqn:He; cbn [negb].
  2:{ intros H. apply IH in H as (e0 & Hl & Hin & Hf & Hinfo & H1 & H2 & H3 & ->); [|done].
      exists e0. repeat (split; [done|]).
      split; [by apply list_elem_of_further|]. repeat (split; [done|]). split; [|done].
      intros Hs. destruct rest; [by apply elem_of_nil in Hin|].
      rewrite last_cons_cons. auto. }
  destruct (fetchAt e) as [err|err|resp] eqn:Hf.
  - destruct (Z.ltb_spec i (n - 1)) as [Hi|Hi]; [|done]. intros H. by eapply Hnext.
  - destruct (Z.ltb_spec i (n - 1)) as [Hi|Hi]; [|done]. intros H. by eapply Hnext.
  - destruct (Z.eqb_spec (status resp) 429) as [H429|H429].
    { pose proof (handleRateLimit_result now resp pos m accountCount) as H.
      destruct (handleRateLimit _ _ _ _ _) as [[r m1] evs1].
      intros ?. simplify_eq. by destruct H as [[? _]|[? _]]. }
    destruct (Z.leb_spec 500 (status resp)) as [H500|H500];
      destruct (Z.eqb_spec i (n - 1)) as [Hlast|Hlast]; cbn [andb].
    + unfold handleServerError. intros ?. simplify_eq.
    + destruct (Z.ltb_spec i (n - 1)) as [Hi|Hi]; [|lia]. rewrite andb_true_r.
      assert (shouldRetryEndpoint (status resp) = true) as ->.
      { unfold shouldRetryEndpoint. destruct (Z.leb_spec 500 (status resp)); [|lia].
        by rewrite orb_true_r. }
      intros H. by eapply Hnext.
    + destruct (Z.ltb_spec i (n - 1)) as [Hi|Hi]; [lia|]. rewrite andb_false_r.
      intros ?. simplify_eq. exists e. repeat split; try done; try lia.
      * apply list_elem_of_here.
      * intros _. destruct rest; [done|]. simpl in *. lia.
    + destruct (Z.ltb_spec i (n - 1)) as [Hi|Hi]; [|lia]. rewrite andb_true_r.
      destruct (shouldRetryEndpoint (status resp)) eqn:Hre.
      { intros H. by eapply Hnext. }
      intros ?. simplify_eq. exists e. repeat split; try done; try lia.
      * apply list_elem_of_here.
      * unfold shouldRetryEndpoint in Hre. intros [Hs|Hs]; rewrite Hs in Hre; done.
Qed.

(** ** The events of the endpoint loop *)

Lemma attempts_map_EvAttempt (l : list string) : attempts (map EvAttempt l) = l.
Proof. induction l as [|e l IH]; [done|]. cbn. by f_equal. Qed.

(** The events of the loop are its attempts, one after the other, followed
    by what the handler of a 429 or of a last server error does; the
    normalizer is called from there only, on the 429 of a single account. *)
Lemma endpointLoop_trace fetchAt prepared now pos accountCount n rest :
  forall i lastError lastResponse lastAttemptInfo m,
  Forall (fun e => truthy e = true) rest ->
  i + Z.of_nat (length rest) = n ->
  let out := endpointLoop fetchAt prepared now pos accountCount n i rest
               lastError lastResponse lastAttemptInfo m in
  exists closing,
    out.2 = map EvAttempt (attempted fetchAt rest) ++ closing
    /\ attempts closing = []
    /\ (forall response, EvNormalized response ∈ closing ->
          accountCount = 1 /\ status response = 429)
    /\ (forall response info, out.1.1 = Returned (Success response info) -> closing = []).
Proof.
  induction rest as [|e rest IH]; intros i le lr li m Ht Hn out.
  { exists []. unfold out. cbn [endpointLoop].
    destruct lr; cbn; (split; [done|]); (split; [done|]);
      (split; [by intros ? ?%elem_of_nil|done]). }
  apply Forall_cons in Ht as [He Ht].
  assert (Hn' : i + 1 + Z.of_nat (length rest) = n) by (simpl in Hn; lia).
  assert (Hlast : (i <? n - 1) = false -> rest = []).
  { intros H%Z.ltb_ge. destruct rest; [done|]. simpl in Hn. lia. }
  assert (Hstop : forall r m',
    out = (r, m', [EvAttempt e]) ->
    ((i <? n - 1) = false \/ fallsThrough (fetchAt e) = false) ->
    (forall response info, r = Returned (Success response info) -> True) ->
    exists closing,
      out.2 = map EvAttempt (attempted fetchAt (e :: rest)) ++ closing
      /\ attempts closing = []
      /\ (forall response, EvNormalized response ∈ closing ->
            accountCount = 1 /\ status response = 429)
      /\ (forall response info, out.1.1 = Returned (Success response info) -> closing = [])).
  { intros r m' -> Hor _. exists []. cbn [snd attempted].
    assert (Hatt : (if fallsThrough (fetchAt e) then attempted fetchAt rest else []) = []).
    { destruct Hor as [Hi| ->]; [|done]. rewrite (Hlast Hi). by destruct (fallsThrough _). }
    rewrite Hatt. split; [done|]. split; [done|].
    split; [by intros ? ?%elem_of_nil|done]. }
  assert (Hgo : forall le' lr' li',
    out = (let '(r, m', evs) :=
             endpointLoop fetchAt prepared now pos accountCount n (i + 1) rest le' lr' li' m in
           (r, m', EvAttempt e :: evs)) ->
    fallsThrough (fetchAt e) = true ->
    exists closing,
      out.2 = map EvAttempt (attempted fetchAt (e :: rest)) ++ closing
      /\ attempts closing = []
      /\ (forall response, EvNormalized response ∈ closing ->
            accountCount = 1 /\ status response = 429)
      /\ (forall response info, out.1.1 = Returned (Success response info) -> closing = [])).
  { intros le' lr' li' -> Hfall.
    destruct (IH (i + 1) le' lr' li' m Ht Hn') as (closing & Hevs & Hatt & Hnorm & Hsucc).
    destruct (endpointLoop fetchAt prepared now pos accountCount n (i + 1) rest le' lr' li' m)
      as [[r m'] evs].
    cbn [fst snd] in *. exists closing. cbn [attempted]. rewrite Hfall, Hevs. done. }
  unfold out in *. clear out. cbn [endpointLoop] in *. rewrite He in *. cbn [negb] in *.
  destruct (fetchAt e) as [err|err|response] eqn:Hf.
  - destruct (i <? n - 1) eqn:Hi.
    + by eapply Hgo.
    + eapply Hstop; [done|by left|done].
  - destruct (i <? n - 1) eqn:Hi.
    + by eapply Hgo.
    + eapply Hstop; [done|by left|done].
  - destruct (Z.eqb_spec (status response) 429) as [Hs|Hs].
    { exists (handleRateLimit now response pos m accountCount).2.
      pose proof (handleRateLimit_attempts now response pos m accountCount) as Ha.
      unfold handleRateLimit in *.
      cbn [attempted]. rewrite Hf. cbn [fallsThrough]. rewrite Hs. cbn [Z.eqb negb andb].
      destruct (Z.eqb_spec accountCount 1) as [Hc|Hc]; cbn [fst snd] in *.
      - split; [done|]. split; [done|]. split; [|done].
        intros r Hin. apply elem_of_cons in Hin as [[= ->]|Hin]; [done|].
        apply elem_of_cons in Hin as [?|?%elem_of_nil]; done.
      - destruct (parseRetryAfterMs response <=? 5000); cbn [fst snd] in *.
        + split; [done|]. split; [done|]. split; [|done].
          intros r Hin. apply elem_of_cons in Hin as [?|Hin]; [done|].
          apply list_elem_of_fmap in Hin as (? & ? & _). done.
        + split; [done|]. split; [done|]. split; [|done].
          intros r Hin. apply elem_of_cons in Hin as [?|Hin]; [done|].
          apply elem_of_cons in Hin as [?|?%elem_of_nil]; done. }
    destruct ((500 <=? status response) && (i =? n - 1)) eqn:H5.
    { exists (handleServerError now response pos m accountCount).2.
      pose proof (handleServerError_attempts now response pos m accountCount) as Ha.
      apply andb_true_iff in H5 as [H5 Hi%Z.eqb_eq].
      assert (rest = []) as -> by (apply Hlast, Z.ltb_ge; lia).
      unfold handleServerError in *. cbn [fst snd attempted] in *.
      rewrite Hf.
      destruct (fallsThrough (Responded response)); cbn [map app].
      all: split; [done|]; split; [done|]; split; [|done].
      all: intros r Hin; destruct (1 <? accountCount); cbn in Hin;
        repeat (apply elem_of_cons in Hin as [?|Hin]; [done|]);
        by apply elem_of_nil in Hin. }
    destruct (shouldRetryEndpoint (status response) && (i <? n - 1)) eqn:Hr.
    + eapply Hgo; [done|]. apply andb_true_iff in Hr as [Hr _].
      cbn [fallsThrough]. rewrite Hr. by destruct (Z.eqb_spec (status response) 429).
    + eapply Hstop; [done| |done].
      apply andb_false_iff in Hr as [Hr|Hr]; [right|by left].
      cbn [fallsThrough]. by rewrite Hr, andb_false_r.
Qed.

Lemma selectAccount_attempts now m :
  attempts (selectAccount now m).2 = [].
Proof.
  unfold selectAccount. destruct (getCurrentOrNext now m) as [[pos|] m1]; [|done].
  by case_match.
Qed.

Lemma selectAccount_events now m :
  (selectAccount now m).2 = [] \/ (selectAccount now m).2 = [EvSave].
Proof.
  unfold selectAccount. destruct (getCurrentOrNext now m) as [[pos|] m1]; [|by left].
  case_match; [by right|by left].
Qed.

(** X12.  When a pass ends by answering the caller, the response it hands
    to the normalizer for that answer is one that an endpoint gave in this
    pass, at the endpoint tried last; its status is neither 429 nor a server
    error, and it is 403 or 404 only when it comes from the last endpoint of
    the list.  It is passed on with the streaming flag and the requested
    model of the prepared request, and it is the only response the
    normalizer is given in that pass.  (The other call of the normalizer,
    on the 429 of a single account, belongs to passes that go on looping,
    and its answer is dropped.) *)
Theorem returned_response_origin (env : IterationEnv) (accountCount : Z)
    (m : AccountManager) response streaming requestedModel m' evs :
  iteration env accountCount m
    = (ReturnNormalized response streaming requestedModel, m', evs) ->
  (exists e,
     last (attempts evs) = Some e
     /\ env_fetchAt env e = Responded response
     /\ status response <> 429 /\ status response < 500
     /\ (status response = 403 \/ status response = 404 -> e = CODE_ASSIST_ENDPOINT_PROD)
     /\ streaming = prep_streaming (env_prepared env)
     /\ requestedModel = prep_requestedModel (env_prepared env))
  /\ (forall other, EvNormalized other ∉ evs).
Proof.
  unfold iteration.
  pose proof (selectAccount_attempts (env_nowSelect env) m) as Hsel.
  pose proof (selectAccount_events (env_nowSelect env) m) as Hsev.
  destruct (selectAccount (env_nowSelect env) m) as [[[pos|] m2] evSwitch]; [|done].
  cbn [snd] in Hsel, Hsev.
  set (afterToken := if env_tokenExpired env then _ else _).
  assert (Htok : forall acc m3 evToken, afterToken = Some (acc, m3, evToken) ->
                 attempts evToken = [] /\ (evToken = [] \/ evToken = [EvSave])).
  { unfold afterToken. intros acc m3 evToken.
    repeat case_match; intros [= <- <- <-]; split; auto. }
  destruct afterToken as [[[accessToken m3] evToken]|]; [|done].
  destruct (Htok _ _ _ eq_refl) as [Htok1 Htok2].
  destruct (negb _); [done|].
  destruct (env_projectContext env); [|done].
  destruct (tryEndpointFallbacks _ _ _ _ _ _) as [[result m4] evTry] eqn:Etry.
  pose proof (endpointLoop_not_all_failed (env_fetchAt env) (env_prepared env)
                (env_nowAttempt env) pos accountCount
                (Z.of_nat (length CODE_ASSIST_ENDPOINT_FALLBACKS))
                CODE_ASSIST_ENDPOINT_FALLBACKS 0 None None None m3
                ltac:(by repeat constructor) ltac:(done) ltac:(done)) as Hnaf.
  pose proof (endpointLoop_trace (env_fetchAt env) (env_prepared env)
                (env_nowAttempt env) pos accountCount
                (Z.of_nat (length CODE_ASSIST_ENDPOINT_FALLBACKS))
                CODE_ASSIST_ENDPOINT_FALLBACKS 0 None None None m3
                ltac:(by repeat constructor) ltac:(done)) as Htrace.
  unfold tryEndpointFallbacks, tryEndpointFallbacksOn in Etry.
  rewrite Etry in Hnaf, Htrace.
  cbn [fst snd] in Hnaf, Htrace.
  destruct result as [[resp info|r| |resp info|err]|err]; cbn [dispatch]; try done; cycle 1.
  { by destruct (accountCount =? 1). }
  destruct Htrace as (closing & Hevs & _ & _ & Hsucc).
  rewrite (Hsucc resp info eq_refl), app_nil_r in Hevs.
  intros [= -> <- <- <- <-].
  apply endpointLoop_success in Etry as (e & Hl & Hin & Hf & -> & H1 & H2 & H3 & ->); [|done].
  split.
  - exists e. rewrite !attempts_app, Hsel, Htok1. cbn [app].
    change (attempts [EvAuthSet; EvSave]) with (@nil string). rewrite app_nil_r.
    repeat (split; [done|]). split; [|done].
    intros Hs. specialize (H3 Hs). by injection H3.
  - intros other Hin'. rewrite Hevs in Hin'.
    rewrite !elem_of_app in Hin'.
    destruct Hin' as [Hin'|[Hin'|[Hin'|Hin']]].
    + destruct Hsev as [->| ->]; [by apply elem_of_nil in Hin'|].
      apply elem_of_cons in Hin' as [?|?%elem_of_nil]; done.
    + destruct Htok2 as [->| ->]; [by apply elem_of_nil in Hin'|].
      apply elem_of_cons in Hin' as [?|?%elem_of_nil]; done.
    + apply list_elem_of_fmap in Hin' as (? & ? & _). done.
    + apply elem_of_cons in Hin' as [?|Hin']; [done|].
      apply elem_of_cons in Hin' as [?|?%elem_of_nil]; done.
Qed.

Lemma returned_response_origin_witness :
  exists e,
    last (attempts (iteration (sampleEnv notFoundTwice 100) 2 poolTwo).2) = Some e
    /\ notFoundTwice e = Responded (mkResponse 200 ∅ None).
Proof.
  destruct (returned_response_origin (sampleEnv notFoundTwice 100) 2 poolTwo
              (mkResponse 200 ∅ None) false (Some "gemini-3-pro-preview"%string)
              (iteration (sampleEnv notFoundTwice 100) 2 poolTwo).1.2
              (iteration (sampleEnv notFoundTwice 100) 2 poolTwo).2)
    as [(e & Hl & Hf & _) _]; [reflexivity|].
  exists e. by split.
Defined.

Lemma endpointLoop_pool fetchAt prepared now pos accountCount n rest :
  forall i lastError lastResponse lastAttemptInfo m,
  let m' := (endpointLoop fetchAt prepared now pos accountCount n i rest
               lastError lastResponse lastAttemptInfo m).1.2 in
  m' = m \/ exists r, m' = markRateLimited now pos r m.
Proof.
  induction rest as [|e rest IH]; intros i le lr li m; cbn [endpointLoop].
  { left. by repeat case_match. }
  destruct (negb (truthy e)); [apply IH|].
  assert (Hnext : forall le lr li,
    (let '(r, m1, evs1) :=
       endpointLoop fetchAt prepared now pos accountCount n (i + 1) rest le lr li m in
     (r, m1, EvAttempt e :: evs1)).1.2 = m
    \/ exists r0, (let '(r, m1, evs1) :=
       endpointLoop fetchAt prepared now pos accountCount n (i + 1) rest le lr li m in
     (r, m1, EvAttempt e :: evs1)).1.2 = markRateLimited now pos r0 m).
  { intros le' lr' li'. specialize (IH (i + 1) le' lr' li' m).
    by destruct (endpointLoop _ _ _ _ _ _ _ _ _ _ _ _) as [[r m1] evs1]. }
  destruct (fetchAt e) as [err|err|resp].
  - destruct (i <? n - 1); [apply Hnext|by left].
  - destruct (i <? n - 1); [apply Hnext|by left].
  - destruct (status resp =? 429).
    { pose proof (handleRateLimit_result now resp pos m accountCount) as H.
      destruct (handleRateLimit _ _ _ _ _) as [[r m1] evs1]. cbn [fst snd].
      destruct H as [[_ ->]|[_ ->]]; eauto. }
    destruct ((500 <=? status resp) && (i =? n - 1)); [right; by eexists|].
    destruct (shouldRetryEndpoint (status resp) && (i <? n - 1)); [apply Hnext|by left].
Qed.

(** X13.  Whatever the endpoints answer, [tryEndpointFallbacks] leaves the
    rotation cursor, the current-account pointer and the number of accounts as
    they are, and changes no account but the one it was called with.  Of that
    account it changes at most the rate-limit flag and the reset time, and
    when it does the flag is set. *)
Theorem endpointLoop_frame fetchAt prepared now pos accountCount n i rest
    lastError lastResponse lastAttemptInfo m :
  let m' := (endpointLoop fetchAt prepared now pos accountCount n i rest
               lastError lastResponse lastAttemptInfo m).1.2 in
  currentIndex m' = currentIndex m
  /\ currentAccountIndex m' = currentAccountIndex m
  /\ length (accounts m') = length (accounts m)
  /\ (forall q, q <> pos -> accounts m' !! q = accounts m !! q)
  /\ (forall a, accounts m !! pos = Some a ->
        accounts m' !! pos = Some a
        \/ exists t, accounts m' !! pos
                       = Some (set_rateLimitResetTime t (set_isRateLimited true a))).
Proof.
  intros m'.
  destruct (endpointLoop_pool fetchAt prepared now pos accountCount n rest i
              lastError lastResponse lastAttemptInfo m) as [H|[r H]];
    fold m' in H; rewrite H; clear H.
  { repeat split; auto. }
  repeat split.
  - unfold markRateLimited. simpl. by rewrite length_alter.
  - intros q Hq. by apply markRateLimited_other.
  - intros a Ha. right. exists (now + r). by apply markRateLimited_lookup.
Qed.

(** ** Running out of endpoints *)


Lemma endpointLoop_all_throw fetchAt prepared now pos accountCount n rest :
  forall i lastError lastResponse lastAttemptInfo m,
  Forall (fun e => truthy e = true /\ is_Some (threw (fetchAt e))) rest ->
  rest <> [] ->
  i + Z.of_nat (length rest) = n ->
  exists error,
    (last rest ≫= fun e => threw (fetchAt e)) = Some error
    /\ endpointLoop fetchAt prepared now pos accountCount n i rest
         lastError lastResponse lastAttemptInfo m
       = (Thrown error, m, map EvAttempt rest).
Proof.
  induction rest as [|e rest IH]; intros i le lr li m Hall Hne Hn; [done|].
  apply Forall_cons in Hall as [[He [err Herr]] Hall].
  assert (Hn' : i + 1 + Z.of_nat (length rest) = n) by (simpl in Hn; lia).
  cbn [endpointLoop]. rewrite He. cbn [negb].
  destruct rest as [|e' rest].
  - exists err. split; [done|]. simpl in Hn.
    destruct (Z.ltb_spec i (n - 1)); [lia|].
    destruct (fetchAt e); simplify_eq/=; done.
  - assert (i < n - 1) by (simpl in Hn'; lia).
    destruct (Z.ltb_spec i (n - 1)); [|lia].
    rewrite last_cons_cons.
    destruct (fetchAt e) as [err0|err0|resp]; [| |done]; clear Herr.
    + destruct (IH (i + 1) (Some err0) lr li m Hall ltac:(done) Hn') as (error & Hl & ->).
      by exists error.
    + destruct (IH (i + 1) (Some err0) lr (Some (attemptInfoOf prepared e)) m Hall
                  ltac:(done) Hn') as (error & Hl & ->).
      by exists error.
Qed.

(** X14.  When preparing or sending the request throws at every endpoint,
    all three endpoints are tried in order, the error of the last one is
    thrown on, and the account pool is left untouched. *)
Theorem all_endpoints_throw fetchAt prepared now pos m accountCount :
  (forall e, e ∈ CODE_ASSIST_ENDPOINT_FALLBACKS -> is_Some (threw (fetchAt e))) ->
  exists error,
    threw (fetchAt CODE_ASSIST_ENDPOINT_PROD) = Some error
    /\ tryEndpointFallbacks fetchAt prepared now pos m accountCount
       = (Thrown error, m, map EvAttempt CODE_ASSIST_ENDPOINT_FALLBACKS)
    /\ (dispatch now accountCount (Thrown error) m).1.1 = Throw error.
Proof.
  intros Hall.
  destruct (endpointLoop_all_throw fetchAt prepared now pos accountCount
              (Z.of_nat (length CODE_ASSIST_ENDPOINT_FALLBACKS))
              CODE_ASSIST_ENDPOINT_FALLBACKS 0 None None None m)
    as (error & Hl & Hloop); try done.
  { apply Forall_forall. intros e He. split; [|by apply Hall].
    repeat (apply elem_of_cons in He as [->|He]; [done|]). by apply elem_of_nil in He. }
  exists error. done.
Qed.

Lemma all_endpoints_throw_witness :
  tryEndpointFallbacks (fun e => FetchThrew ("unreachable: " ++ e)) samplePrepared 100 0
    poolTwo 2
  = (Thrown ("unreachable: " ++ CODE_ASSIST_ENDPOINT_PROD), poolTwo,
     map EvAttempt CODE_ASSIST_ENDPOINT_FALLBACKS).
Proof.
  destruct (all_endpoints_throw (fun e => FetchThrew ("unreachable: " ++ e))
              samplePrepared 100 0 poolTwo 2) as (error & He & Ht & _).
  - intros e _. by eexists.
  - injection He as <-. exact Ht.
Defined.


Lemma endpointLoop_all_server_errors fetchAt prepared now pos accountCount n rest :
  forall i lastError lastResponse lastAttemptInfo m,
  Forall (fun e => truthy e = true /\ serverError (fetchAt e) = true) rest ->
  rest <> [] ->
  i + Z.of_nat (length rest) = n ->
  endpointLoop fetchAt prepared now pos accountCount n i rest
    lastError lastResponse lastAttemptInfo m
  = (Returned (RateLimit 60000), markRateLimited now pos 60000 m,
     map EvAttempt rest
       ++ (if 1 <? accountCount then [EvToast (ToastServerError pos)] else []) ++ [EvSave]).
Proof.
  induction rest as [|e rest IH]; intros i le lr li m Hall Hne Hn; [done|].
  apply Forall_cons in Hall as [[He Hse] Hall].
  assert (Hn' : i + 1 + Z.of_nat (length rest) = n) by (simpl in Hn; lia).
  cbn [endpointLoop]. rewrite He. cbn [negb].
  destruct (fetchAt e) as [err|err|resp]; [done|done|]. cbn [serverError] in Hse.
  apply Z.leb_le in Hse.
  destruct (Z.eqb_spec (status resp) 429); [lia|].
  destruct (Z.leb_spec 500 (status resp)); [|lia]. cbn [andb].
  destruct rest as [|e' rest].
  - simpl in Hn. destruct (Z.eqb_spec i (n - 1)); [|lia]. done.
  - assert (i < n - 1) by (simpl in Hn'; lia).
    destruct (Z.eqb_spec i (n - 1)); [lia|].
    assert (shouldRetryEndpoint (status resp) = true) as ->.
    { unfold shouldRetryEndpoint. destruct (Z.leb_spec 500 (status resp)); [|lia].
      by rewrite orb_true_r. }
    destruct (Z.ltb_spec i (n - 1)); [|lia]. cbn [andb].
    by rewrite (IH (i + 1) le (Some resp) (Some (attemptInfoOf prepared e)) m Hall
                  ltac:(done) Hn').
Qed.

(** X15.  When every endpoint answers with a server error (status 500 or
    above), all three are tried in order and the account is then treated as
    rate-limited for 60 seconds: it is marked until [now + 60000], the pool is
    saved, and the result is a rate limit of 60000 ms.  The toast about the
    server error appears only when there are several accounts. *)
Theorem all_endpoints_server_error fetchAt prepared now pos m accountCount a :
  (forall e, e ∈ CODE_ASSIST_ENDPOINT_FALLBACKS -> serverError (fetchAt e) = true) ->
  accounts m !! pos = Some a ->
  let out := tryEndpointFallbacks fetchAt prepared now pos m accountCount in
  out.1.1 = Returned (RateLimit 60000)
  /\ attempts out.2 = CODE_ASSIST_ENDPOINT_FALLBACKS
  /\ last out.2 = Some EvSave
  /\ (EvToast (ToastServerError pos) ∈ out.2 <-> 1 < accountCount)
  /\ accounts out.1.2 !! pos
       = Some (set_rateLimitResetTime (now + 60000) (set_isRateLimited true a))
  /\ isAvailable (now + 60000) (set_rateLimitResetTime (now + 60000)
                                   (set_isRateLimited true a)) = false.
Proof.
  intros Hall Ha out. unfold out, tryEndpointFallbacks, tryEndpointFallbacksOn.
  rewrite endpointLoop_all_server_errors; try done.
  2:{ apply Forall_forall. intros e He. split; [|by apply Hall].
      repeat (apply elem_of_cons in He as [->|He]; [done|]). by apply elem_of_nil in He. }
  cbn [fst snd]. split; [done|]. split.
  { rewrite attempts_app. by destruct (1 <? accountCount). }
  split; [by destruct (1 <? accountCount)|]. split.
  { destruct (Z.ltb_spec 1 accountCount); split; try done; try lia.
    - intros _. cbn. do 3 apply list_elem_of_further. apply list_elem_of_here.
    - cbn. intros Hin.
      repeat (apply elem_of_cons in Hin as [Heq|Hin]; [done|]).
      by apply elem_of_nil in Hin. }
  split; [by apply markRateLimited_lookup|].
  unfold isAvailable. simpl. apply Z.ltb_ge. lia.
Qed.

Lemma all_endpoints_server_error_witness :
  (tryEndpointFallbacks (fun _ => answer 503 []) samplePrepared 100 0 poolTwo 2).1.1
    = Returned (RateLimit 60000).
Proof.
  destruct (all_endpoints_server_error (fun _ => answer 503 []) samplePrepared 100 0
              poolTwo 2
              (mkManagedAccount 0 (mkRefreshParts "refresh-a" None None) (Some "token-a")
                 None false 0 0 None None)) as [H _]; [done..|exact H].
Defined.

(** ** Passes that make no request *)

(** X16.  When no account is available the pass makes no request and
    changes nothing in the pool: it shows the toast and sleeps.  The time
    slept is the shortest remaining cooldown, or 60 seconds when that is 0,
    which is the case when an account's reset time is exactly the current
    time; it is always positive. *)
Theorem all_accounts_limited_pass (env : IterationEnv) (accountCount : Z)
    (m : AccountManager) :
  Forall (fun a => isAvailable (env_nowSelect env) a = false) (accounts m) ->
  let w := orElse (getMinWaitTime (env_nowSelect env) m) 60000 in
  let out := iteration env accountCount m in
  out = (Continue, m,
         EvToast (ToastAllLimited (ceilSeconds w)) :: map EvSleep (sleepWithBackoff w))
  /\ attempts out.2 = []
  /\ slept out.2 = w
  /\ 0 < w
  /\ (w = 60000 \/ w = getMinWaitTime (env_nowSelect env) m).
Proof.
  intros Hall w out.
  assert (Hw : 0 < w /\ (w = 60000 \/ w = getMinWaitTime (env_nowSelect env) m)).
  { pose proof (getMinWaitTime_nonneg (env_nowSelect env) m). unfold w, orElse.
    destruct (Z.eqb_spec (getMinWaitTime (env_nowSelect env) m) 0); split; auto; lia. }
  assert (Hout : out = (Continue, m,
            EvToast (ToastAllLimited (ceilSeconds w)) :: map EvSleep (sleepWithBackoff w))).
  { unfold out, iteration, selectAccount.
    by rewrite getCurrentOrNext_all_limited. }
  rewrite Hout. cbn [fst snd]. split; [done|]. split; [|split; [|exact Hw]].
  - change (attempts (map EvSleep (sleepWithBackoff w)) = []). apply attempts_sleeps.
  - change (slept (map EvSleep (sleepWithBackoff w)) = w).
    rewrite slept_sleeps, sleepWithBackoff_total. lia.
Qed.

Lemma all_accounts_limited_pass_witness :
  slept (iteration (sampleEnv notFoundTwice 30000) 2
           (markRateLimited 0 1 60000 (markRateLimited 0 0 30000 poolTwo))).2 = 60000.
Proof.
  destruct (all_accounts_limited_pass (sampleEnv notFoundTwice 30000) 2
              (markRateLimited 0 1 60000 (markRateLimited 0 0 30000 poolTwo)))
    as (_ & _ & H & _); [by repeat constructor|exact H].
Defined.

(** ** A single account *)

(** X17.  With a single account a 429 ends the endpoint loop at once: the
    response is handed to the normalizer and the answer dropped (what the
    normalizer shows or caches on the way is its own doing), the account is
    marked rate-limited until [now + retryAfterMs] and the pool saved; the
    orchestrator shows no toast of its own there and tries no other
    endpoint.  It then sleeps for [retryAfterMs], or for one second when
    that is 0, and starts over; it does not sleep at all when the server sent
    a negative value; this whatever the clock reads by then.  Stated for a
    retry-after and a reset time that are safe integers. *)
Theorem single_account_rate_limited fetchAt prepared now n i e rest
    lastError lastResponse lastAttemptInfo m a response :
  accounts m = [a] ->
  truthy e = true ->
  fetchAt e = Responded response ->
  status response = 429 ->
  let r := parseRetryAfterMs response in
  isSafeInteger r = true ->
  isSafeInteger (now + r) = true ->
  let out := endpointLoop fetchAt prepared now 0 (getAccountCount m) n i (e :: rest)
               lastError lastResponse lastAttemptInfo m in
  out = (Returned (RateLimit r), markRateLimited now 0 r m,
         [EvAttempt e; EvNormalized response; EvSave])
  /\ accounts out.1.2
       = [set_rateLimitResetTime (now + r) (set_isRateLimited true a)]
  /\ (forall now', now <= now' ->
        let after := dispatch now' (getAccountCount m) out.1.1 out.1.2 in
        after.1 = (Continue, out.1.2)
        /\ slept after.2 = (if r =? 0 then 1000 else Z.max 0 r)
        /\ (forall ev, ev ∈ after.2 -> exists ms, ev = EvSleep ms)).
Proof.
  intros Hacc He Hf Hs r _ _ out.
  assert (Hout : out = (Returned (RateLimit r), markRateLimited now 0 r m,
                        [EvAttempt e; EvNormalized response; EvSave])).
  { unfold out, getAccountCount. rewrite Hacc. cbn [endpointLoop]. rewrite He, Hf, Hs.
    reflexivity. }
  rewrite Hout. cbn [fst snd]. split; [done|].
  assert (Hacc' : accounts (markRateLimited now 0 r m)
                  = [set_rateLimitResetTime (now + r) (set_isRateLimited true a)]).
  { unfold markRateLimited. simpl. by rewrite Hacc. }
  split; [exact Hacc'|].
  intros now' Hlater.
  unfold getAccountCount. rewrite Hacc. change (Z.of_nat (length [a])) with 1.
  cbn [dispatch]. change (1 =? 1) with true. cbv iota.
  split; [done|]. cbn [snd]. split.
  2:{ intros ev (ms & -> & _)%list_elem_of_fmap. by exists ms. }
  rewrite slept_sleeps, sleepWithBackoff_total.
  unfold orElse. destruct (Z.eqb_spec r 0) as [Hr|Hr]; [|done].
  assert (getMinWaitTime now' (markRateLimited now 0 r m) = 0) as ->.
  { unfold getMinWaitTime. rewrite Hacc'. rewrite Hr.
    destruct (isAvailable now' (set_rateLimitResetTime (now + 0) (set_isRateLimited true a)))
      eqn:Hav.
    - by rewrite filter_cons_True.
    - rewrite filter_cons_False by (rewrite Hav; done).
      rewrite filter_nil, filter_cons_True by done. simpl. lia. }
  done.
Qed.

Lemma single_account_rate_limited_witness :
  let m := mkAccountManager
             [mkManagedAccount 0 (mkRefreshParts "refresh-a" None None) (Some "token-a") None
                false 0 0 None None] 0 0 in
  let out := endpointLoop (fun _ => Responded brief429) samplePrepared 100 0 1 3 0
               CODE_ASSIST_ENDPOINT_FALLBACKS None None None m in
  attempts out.2 = [CODE_ASSIST_ENDPOINT_DAILY]
  /\ slept (dispatch 130 1 out.1.1 out.1.2).2 = 1000.
Proof.
  intros m.
  destruct (single_account_rate_limited (fun _ => Responded brief429) samplePrepared 100 3 0
              CODE_ASSIST_ENDPOINT_DAILY
              [CODE_ASSIST_ENDPOINT_AUTOPUSH; CODE_ASSIST_ENDPOINT_PROD] None None None m
              (mkManagedAccount 0 (mkRefreshParts "refresh-a" None None) (Some "token-a") None
                 false 0 0 None None) brief429) as (Hout & _ & Hafter); try reflexivity.
  destruct (Hafter 130 ltac:(lia)) as (_ & Hs & _).
  intros out. split; [|exact Hs].
  unfold out. change (getAccountCount m) with 1 in Hout.
  change (CODE_ASSIST_ENDPOINT_DAILY
            :: [CODE_ASSIST_ENDPOINT_AUTOPUSH; CODE_ASSIST_ENDPOINT_PROD])
    with CODE_ASSIST_ENDPOINT_FALLBACKS in Hout.
  by rewrite Hout.
Defined.

(** ** Why the selection switches *)

Lemma markSwitched_reason pos reason m a :
  accounts m !! pos = Some a ->
  (lastSwitchReason <$> accounts (markSwitched pos reason m) !! pos) = Some (Some reason).
Proof.
  intros Ha. unfold markSwitched. rewrite Ha. cbn [accounts].
  rewrite list_lookup_insert_eq by (by eapply lookup_lt_Some). done.
Qed.

(** X18.  The selection of a pass reads the clock at the test of the
    current account ([now]) and again inside [getNext] ([now']).  When it
    returns an account, one of these has happened.  There was no current
    account: the account is recorded as switched to for the reason
    [initial] and the pool is saved.  The current account is returned again
    and nothing is recorded or saved.  Or the current account was
    rate-limited with its reset time not passed at the first reading, and
    another account is returned and recorded, the pool being saved: for the
    reason [rate-limit] when the reset time has not passed at the second
    reading either, and for the reason [rotation] when it passed between the
    two readings, the filter of [getNext] having then cleared the flag of the
    account left.  With a clock that does not advance during the selection
    the reason [rotation] is never recorded. *)
Theorem selectAccount_reasons (now now' : Z) (m : AccountManager) pos m2 evs :
  indexed m ->
  selectAccountAt now now' m = (Some pos, m2, evs) ->
  match getCurrentAccount m with
  | None =>
      evs = [EvSave]
      /\ (lastSwitchReason <$> accounts m2 !! pos) = Some (Some InitialSwitch)
  | Some prev =>
      (prev = pos /\ evs = []
       /\ (lastSwitchReason <$> accounts m2 !! pos)
            = (lastSwitchReason <$> accounts m !! pos))
      \/ (prev <> pos /\ evs = [EvSave]
          /\ exists a, accounts m !! prev = Some a /\ isRateLimited a = true
                       /\ now <= rateLimitResetTime a
                       /\ (lastSwitchReason <$> accounts m2 !! pos)
                          = Some (Some (if rateLimitResetTime a <? now'
                                        then RotationSwitch else RateLimitSwitch)))
  end.
Proof.
  intros Hi. unfold selectAccountAt.
  destruct (getCurrentOrNextAt now now' m) as [[pos'|] m1] eqn:Eg; [|done].
  destruct (getCurrentOrNextAt_Some now now' m pos' m1 Hi Eg) as (Hi1 & Hc1 & a1 & Ha1 & Hl1).
  assert (Hat : forall q b, accounts m1 !! q = Some b -> indexAt m1 q = Z.of_nat q).
  { intros q b Hb. unfold indexAt. rewrite Hb. simpl. by apply Hi1. }
  destruct (getCurrentAccount m) as [prev|] eqn:Ecur.
  2:{ intros [= -> <- <-]. split; [done|]. by eapply markSwitched_reason. }
  pose proof Ecur as Ecur'.
  apply getCurrentAccount_Some in Ecur as [Hcur [a Ha]].
  destruct (isRateLimited a) eqn:Hlim.
  2:{ rewrite (getCurrentOrNextAt_sticky now now' m prev a Hcur Ha Hlim) in Eg.
      injection Eg as <- <-. rewrite Z.eqb_refl. cbn [negb].
      intros [= <- <- <-]. left. repeat split. cbn [set_accounts accounts].
      rewrite list_lookup_insert_eq by (by eapply lookup_lt_Some). by rewrite Ha. }
  destruct (Z.ltb_spec (rateLimitResetTime a) now) as [Hexp|Hexp].
  { rewrite (getCurrentOrNextAt_expired now now' m prev a Hcur Ha Hlim Hexp) in Eg.
    injection Eg as <- <-. rewrite Z.eqb_refl. cbn [negb].
    intros [= <- <- <-]. left. repeat split. cbn [set_accounts accounts].
    rewrite list_lookup_insert_eq by (by eapply lookup_lt_Some). by rewrite Ha. }
  rewrite getCurrentOrNextAt_switch in Eg by (right; by exists prev, a).
  destruct (getNext now' m) as [[q|] m'] eqn:En; [|done].
  injection Eg as -> <-.
  destruct (getNext_Some now' m pos' m' En) as ((b & Hb & Hav & Hb') & Hacc & Hcur').
  cbn [accounts] in *.
  destruct (decide (prev = pos')) as [<-|Hne].
  { rewrite Z.eqb_refl. cbn [negb]. intros [= <- <-]. left.
    split; [done|]. split; [done|]. cbn [accounts].
    rewrite Hb', Hb. cbn. unfold expireLimit. by destruct (_ && _). }
  assert (Hprev : accounts m' !! prev = Some (expireLimit now' a)).
  { rewrite Hacc, list_lookup_alter_ne by done.
    by rewrite list_lookup_fmap, Ha. }
  rewrite (Hat prev _ Hprev), (Hat pos' _ Ha1), Hprev. cbn [from_option].
  destruct (Z.eqb_spec (Z.of_nat prev) (Z.of_nat pos')) as [Heq|_]; [lia|]. cbn [negb].
  intros [= <- <-]. right. split; [done|]. split; [done|].
  exists a. split; [done|]. split; [done|]. split; [done|].
  set (m1 := mkAccountManager _ _ _).
  assert (Hb1 : accounts m1 !! pos' = Some (set_lastUsed now' (expireLimit now' b)))
    by exact Hb'.
  unfold expireLimit at 1. rewrite Hlim. cbn [andb].
  destruct (rateLimitResetTime a <? now'); cbn [isRateLimited set_isRateLimited];
    [|rewrite Hlim]; by eapply markSwitched_reason.
Qed.

Lemma selectAccount_reasons_witness :
  let m := markRateLimited 0 0 100 (mkAccountManager (accounts poolTwo) 1 0) in
  (lastSwitchReason <$> accounts (selectAccountAt 100 100 m).1.2 !! 1%nat)
    = Some (Some RateLimitSwitch)
  /\ (lastSwitchReason <$> accounts (selectAccountAt 100 101 m).1.2 !! 1%nat)
       = Some (Some RotationSwitch).
Proof.
  intros m.
  assert (Hi : indexed m).
  { intros p a. destruct p as [|[|p]]; simpl; try done; by intros [= <-]. }
  split.
  - pose proof (selectAccount_reasons 100 100 m 1 (selectAccountAt 100 100 m).1.2
                  (selectAccountAt 100 100 m).2 Hi eq_refl) as H.
    change (getCurrentAccount m) with (Some 0%nat) in H. cbv iota in H.
    destruct H as [(H & _)|(_ & _ & a & Ha & _ & _ & Hr)]; [discriminate H|].
    injection Ha as <-. exact Hr.
  - pose proof (selectAccount_reasons 100 101 m 1 (selectAccountAt 100 101 m).1.2
                  (selectAccountAt 100 101 m).2 Hi eq_refl) as H.
    change (getCurrentAccount m) with (Some 0%nat) in H. cbv iota in H.
    destruct H as [(H & _)|(_ & _ & a & Ha & _ & _ & Hr)]; [discriminate H|].
    injection Ha as <-. exact Hr.
Defined.

(** ** A token refresh that fails *)

(** X29.  When the token of the selected account counts as expired and the
    refresh fails, the pass ends at once: no request is made, nothing is
    slept, and the pool is as the selection left it, the account still
    current and not rate-limited.  The next pass therefore selects the same
    account again, whatever the time, without recording a switch: a refresh
    that keeps failing is retried on the same account without any wait and
    without rotating to another one. *)
Theorem refresh_failure_pass (env : IterationEnv) (accountCount : Z) (m : AccountManager)
    (pos : nat) (m2 : AccountManager) (evs : list Event) :
  indexed m ->
  selectAccount (env_nowSelect env) m = (Some pos, m2, evs) ->
  env_tokenExpired env = true ->
  env_refreshed env = None ->
  iteration env accountCount m = (Continue, m2, evs)
  /\ attempts evs = [] /\ slept evs = 0
  /\ forall now', (selectAccount now' m2).1.1 = Some pos /\ (selectAccount now' m2).2 = [].
Proof.
  intros Hi Hsel Hexp Href.
  destruct (selectAccount_current _ _ _ _ _ Hi Hsel) as (Hi2 & Hcur & a & Ha & Hlim).
  split; [by unfold iteration; rewrite Hsel, Hexp, Href|].
  pose proof (selectAccount_attempts (env_nowSelect env) m) as Hatt.
  pose proof (selectAccount_events (env_nowSelect env) m) as Hev.
  rewrite Hsel in Hatt, Hev. cbn [snd] in Hatt, Hev.
  split; [exact Hatt|]. split; [by destruct Hev as [-> | ->]|].
  intros now'. unfold selectAccount.
  rewrite (getCurrentAccount_at m2 pos a Hcur Ha).
  rewrite (getCurrentOrNext_sticky now' m2 pos a Hcur Ha Hlim).
  rewrite Z.eqb_refl. done.
Qed.

Lemma refresh_failure_pass_witness :
  let env := mkIterationEnv 10 10 true None (Returned "project") notFoundTwice samplePrepared in
  (iteration env 3 poolThree).1.1 = Continue
  /\ attempts (iteration env 3 poolThree).2 = []
  /\ (selectAccount 20 (iteration env 3 poolThree).1.2).1.1 = Some 1%nat.
Proof.
  intros env.
  destruct (refresh_failure_pass env 3 poolThree 1 (selectAccount 10 poolThree).1.2
              (selectAccount 10 poolThree).2) as (Hit & Hatt & _ & Hnext);
    try reflexivity.
  - intros p a. destruct p as [|[|[|p]]]; simpl; try done; by intros [= <-].
  - rewrite Hit. cbn [fst snd]. split; [done|]. split; [exact Hatt|].
    exact (proj1 (Hnext 20)).
Defined.

(** ** What a successful pass saves *)

Lemma updateAccount_lookup pos acc exp p m a :
  accounts m !! pos = Some a ->
  accounts (updateAccount pos acc exp p m) !! pos
  = Some (mkManagedAccount (index a) (default (parts a) p) acc exp (isRateLimited a)
            (rateLimitResetTime a) (lastUsed a) (email a) (lastSwitchReason a)).
Proof.
  intros Ha. unfold updateAccount. cbn [set_accounts accounts].
  by rewrite list_lookup_alter_eq, Ha.
Qed.

(** X30.  When a pass ends with a response for the caller, the pool is the
    one left by the selection and the token step, the account selected in
    this pass is the current one and holds the non-empty access token the
    request was made with; [toAuthDetails] does not throw and hands the host
    that account: its refresh parts, that token, and its expiry (0 when it has
    none).  The host's record is set and the pool saved, the save coming
    last. *)
Theorem success_saves_used_account (formatRefreshParts : RefreshParts -> string)
    (env : IterationEnv) (accountCount : Z) (m : AccountManager)
    response streaming requestedModel m' evs :
  indexed m ->
  iteration env accountCount m
    = (ReturnNormalized response streaming requestedModel, m', evs) ->
  exists pos a token,
    (selectAccount (env_nowSelect env) m).1.1 = Some pos
    /\ getCurrentAccount m' = Some pos
    /\ accounts m' !! pos = Some a
    /\ access a = Some token /\ truthy token = true
    /\ toAuthDetails formatRefreshParts m'
       = Some (mkOAuthAuthDetails (formatRefreshParts (parts a)) (Some token)
                 (Some (default 0 (expires a))))
    /\ last evs = Some EvSave
    /\ EvAuthSet ∈ evs.
Proof.
  intros Hi. unfold iteration.
  destruct (selectAccount (env_nowSelect env) m) as [[[pos|] m2] evSwitch] eqn:Hsel; [|done].
  destruct (selectAccount_current _ _ _ _ _ Hi Hsel) as (Hi2 & Hcur & a & Ha & Hlim).
  set (afterToken := if env_tokenExpired env then _ else _).
  assert (Htok : forall acc m3 evToken, afterToken = Some (acc, m3, evToken) ->
            currentAccountIndex m3 = Z.of_nat pos
            /\ exists a3, accounts m3 !! pos = Some a3 /\ access a3 = acc).
  { unfold afterToken. intros acc m3 evToken.
    destruct (env_tokenExpired env).
    - destruct (env_refreshed env) as [[[acc' exp] p]|]; [|done].
      intros [= <- <- <-]. split; [done|]. eexists. split; [by apply updateAccount_lookup|done].
    - intros [= <- <- <-]. split; [done|]. exists a. rewrite Ha. by split. }
  destruct afterToken as [[[accessToken m3] evToken]|]; [|done].
  destruct (Htok _ _ _ eq_refl) as (Hcur3 & a3 & Ha3 & Hacc3).
  destruct accessToken as [token|]; [|done]. cbn [from_option].
  destruct (truthy token) eqn:Htruthy; [|done]. cbn [negb].
  destruct (env_projectContext env); [|done].
  destruct (tryEndpointFallbacks _ _ _ _ _ _) as [[result m4] evTry] eqn:Etry.
  pose proof (endpointLoop_not_all_failed (env_fetchAt env) (env_prepared env)
                (env_nowAttempt env) pos accountCount
                (Z.of_nat (length CODE_ASSIST_ENDPOINT_FALLBACKS))
                CODE_ASSIST_ENDPOINT_FALLBACKS 0 None None None m3
                ltac:(by repeat constructor) ltac:(done) ltac:(done)) as Hnaf.
  unfold tryEndpointFallbacks, tryEndpointFallbacksOn in Etry. rewrite Etry in Hnaf.
  cbn [fst] in Hnaf.
  destruct result as [[resp info|r| |resp info|err]|err]; cbn [dispatch]; try done; cycle 1.
  { by destruct (accountCount =? 1). }
  intros [= -> <- <- <- <-].
  apply endpointLoop_success in Etry as (e & _ & _ & _ & _ & _ & _ & _ & ->); [|done].
  exists pos, a3, token.
  assert (Hget : getCurrentAccount m3 = Some pos) by (by eapply getCurrentAccount_at).
  split; [done|]. split; [exact Hget|]. split; [exact Ha3|]. split; [exact Hacc3|].
  split; [exact Htruthy|]. split.
  { unfold toAuthDetails. rewrite Hget. cbn [mbind option_bind]. rewrite Ha3.
    cbn [nullish fmap option_fmap option_map]. by rewrite Hacc3, Htruthy. }
  split.
  - change [EvAuthSet; EvSave] with ([EvAuthSet] ++ [EvSave]).
    rewrite !app_assoc. apply last_snoc.
  - rewrite !elem_of_app. do 3 right. apply list_elem_of_here.
Qed.

Lemma success_saves_used_account_witness :
  exists a,
    accounts (iteration (sampleEnv notFoundTwice 100) 2 poolTwo).1.2 !! 0%nat = Some a
    /\ toAuthDetails refreshToken (iteration (sampleEnv notFoundTwice 100) 2 poolTwo).1.2
       = Some (mkOAuthAuthDetails "refresh-a" (Some "token-a") (Some 0)).
Proof.
  destruct (success_saves_used_account refreshToken (sampleEnv notFoundTwice 100) 2 poolTwo
              (mkResponse 200 ∅ None) false (Some "gemini-3-pro-preview"%string)
              (iteration (sampleEnv notFoundTwice 100) 2 poolTwo).1.2
              (iteration (sampleEnv notFoundTwice 100) 2 poolTwo).2)
    as (pos & a & token & Hsel & _ & Ha & _ & _ & Hto & _).
  - intros p b. destruct p as [|[|p]]; simpl; try done; by intros [= <-].
  - reflexivity.
  - injection Hsel as <-. exists a. split; [exact Ha|]. reflexivity.
Defined.

End FetchLaws.

(** * The transformers: what leaves for the backend *)
Module TransformLaws.
Import Transform TransformTheory.


(** ** Model turns under the Gemini transformer *)

Section GeminiTurns.
Variable sha256 : string -> string.
Variable context : TransformContext.
Variable signatureCache : gmap string string.

Local Notation "'geminiSigned'" := (geminiSigned sha256 context signatureCache).

Lemma geminiPart_signed p p' :
  geminiPart sha256 context signatureCache p = Some p' -> geminiSigned p'.
Proof.
  unfold geminiPart, geminiSigned.
  destruct (thought p) eqn:Ht.
  - destruct (text p) as [t|] eqn:Et; [|done].
    destruct (truthy t) eqn:Htt; [|done].
    destruct (truthy (sessionId context)) eqn:Hs; [|done]. cbn [andb].
    destruct (getCachedSignature _ _ _ _) as [sig|] eqn:Ec; [|done].
    destruct (truthy sig) eqn:Hsig; [|done].
    intros [= <-]. cbn [thought set_thoughtSignature text thoughtSignature].
    rewrite Ht. exists t, sig. by rewrite Et.
  - destruct (functionCall p) eqn:Ef; intros [= <-]; simpl; rewrite Ht.
    + done.
    + rewrite Ef. by intros [? ?].
Qed.

Lemma geminiPart_plain p :
  thought p = false ->
  geminiPart sha256 context signatureCache p = Some (bypassed p).
Proof. unfold geminiPart, bypassed. intros ->. by destruct (functionCall p). Qed.

Lemma geminiPart_thought p p' :
  thought p = true ->
  geminiPart sha256 context signatureCache p = Some p' -> thought p' = true.
Proof.
  unfold geminiPart. intros Ht. rewrite Ht. repeat case_match; try done.
  by intros [= <-].
Qed.

Lemma bypassed_thought p : thought (bypassed p) = thought p.
Proof. unfold bypassed. by destruct (functionCall p). Qed.

Lemma geminiParts_spec (ps : list Part) :
  let ps' := omap (geminiPart sha256 context signatureCache) ps in
  Forall geminiSigned ps'
  /\ filter (fun p => thought p = false) ps'
     = map bypassed (filter (fun p => thought p = false) ps).
Proof.
  induction ps as [|p ps [IH1 IH2]]; [by split|]. cbn [omap list_omap].
  destruct (thought p) eqn:Ht.
  - rewrite (filter_cons_False _ p) by congruence.
    destruct (geminiPart _ _ _ p) as [p'|] eqn:Ep; [|by split].
    split; [constructor; [by eapply geminiPart_signed|done]|].
    rewrite filter_cons_False; [done|].
    rewrite (geminiPart_thought p p' Ht Ep). congruence.
  - rewrite (filter_cons_True _ p) by done. rewrite (geminiPart_plain p Ht).
    split.
    + constructor; [|done]. eapply geminiPart_signed. by apply geminiPart_plain.
    + rewrite filter_cons_True by (by rewrite bypassed_thought).
      cbn [map]. by f_equal.
Qed.

(** X19.  In a model turn the Gemini transformer lets a reasoning part
    through only when the part has a non-empty text, the context a session
    identifier and the cache a non-empty value under the key of (family,
    session), and it writes that value on the part as its signature; the
    lookup, as the call evaluates against cache.ts, does not depend on the
    part's text.  Every other reasoning part is dropped, all of them when
    there is no session.  The parts that are not reasoning parts all stay, in
    order: a function call gets the sentinel signature, anything else is
    unchanged. *)
Theorem gemini_model_turn (body : RequestPayload) (cs : list Content) (i : nat)
    (content : Content) (ps : list Part) :
  contents body = Some cs ->
  cs !! i = Some content ->
  role content = Some "model"%string ->
  parts content = Some ps ->
  exists cs' ps',
    req_contents (wb_request (transformGeminiRequest sha256 context
                                signatureCache body)) = Some cs'
    /\ cs' !! i = Some (mkContent (Some "model"%string) (Some ps'))
    /\ Forall geminiSigned ps'
    /\ filter (fun p => thought p = false) ps'
       = map bypassed (filter (fun p => thought p = false) ps)
    /\ (truthy (sessionId context) = false -> Forall (fun p => thought p = false) ps').
Proof.
  intros Hc Hi Hr Hp.
  exists (map (geminiContent sha256 context signatureCache) cs),
         (omap (geminiPart sha256 context signatureCache) ps).
  destruct (geminiParts_spec ps) as [H1 H2].
  split; [by unfold transformGeminiRequest; simpl; rewrite Hc|].
  split.
  { rewrite list_lookup_fmap, Hi. cbn. f_equal. unfold geminiContent.
    rewrite Hr, bool_decide_true by done. cbn [negb]. rewrite Hp.
    unfold set_parts. by rewrite Hr. }
  split; [done|]. split; [done|].
  intros Hs. eapply Forall_impl; [exact H1|]. intros p. unfold geminiSigned.
  destruct (thought p); [|done]. intros (t & sig & _ & _ & Hs' & _). congruence.
Qed.
End GeminiTurns.

Lemma gemini_model_turn_witness :
  exists cs',
    req_contents (wb_request (transformGeminiRequest sampleDigest geminiContext ∅
                                (conversationOf unsignedTurn))) = Some cs'
    /\ cs' !! 1%nat
       = Some (mkContent (Some "model"%string) (Some [textPart "Here is my response"])).
Proof.
  destruct (gemini_model_turn sampleDigest geminiContext ∅ (conversationOf unsignedTurn)
              [mkContent (Some "user"%string) (Some [textPart "Hello"]); unsignedTurn] 1
              unsignedTurn [thinkingPart None; textPart "Here is my response"])
    as (cs' & ps' & Hc & Hi & _); try reflexivity.
  exists cs'. split; [exact Hc|].
  rewrite Hi. simpl in Hc. injection Hc as <-. simpl in Hi. by injection Hi as <-.
Defined.

(** ** Tool names over the whole payload *)


Lemma sanitizeToolNameForGemini_idem (name : string) :
  sanitizeToolNameForGemini (sanitizeToolNameForGemini name) = sanitizeToolNameForGemini name.
Proof.
  unfold sanitizeToolNameForGemini. destruct (startsWithDigit name) eqn:E; [|by rewrite E].
  reflexivity.
Qed.

Lemma sanitizeToolNameForGemini_no_digit (name : string) :
  startsWithDigit (sanitizeToolNameForGemini name) = false.
Proof.
  unfold sanitizeToolNameForGemini. by destruct (startsWithDigit name) eqn:E.
Qed.

(** X20.  [sanitizeToolNames] keeps the tools, their declarations and all
    their other fields in place and rewrites only the names: every declared
    name becomes its sanitized form, a declaration without a name stays
    without one, and afterwards no declared name starts with a digit.
    Running the pass again changes nothing. *)
Theorem sanitizeToolNames_spec (ts : option (list Tool)) :
  declaredNames (sanitizeToolNames ts)
    = map (map (fmap sanitizeToolNameForGemini)) (declaredNames ts)
  /\ Forall (Forall (fun n => from_option startsWithDigit false n = false))
       (declaredNames (sanitizeToolNames ts))
  /\ map toolRest (default [] (sanitizeToolNames ts)) = map toolRest (default [] ts)
  /\ map (fun tool => map fd_rest <$> functionDeclarations tool)
       (default [] (sanitizeToolNames ts))
     = map (fun tool => map fd_rest <$> functionDeclarations tool) (default [] ts)
  /\ (is_Some (sanitizeToolNames ts) <-> is_Some ts)
  /\ sanitizeToolNames (sanitizeToolNames ts) = sanitizeToolNames ts.
Proof.
  assert (Hnames : declaredNames (sanitizeToolNames ts)
                   = map (map (fmap sanitizeToolNameForGemini)) (declaredNames ts)).
  { destruct ts as [l|]; [|done]. unfold declaredNames, sanitizeToolNames. cbn.
    rewrite !map_map. apply map_ext. intros tool. cbn.
    destruct (functionDeclarations tool) as [decls|]; [|done]. cbn.
    rewrite !map_map. done. }
  split; [exact Hnames|]. split.
  { rewrite Hnames. apply Forall_fmap, Forall_true. intros names.
    apply Forall_fmap, Forall_true. intros [n|]; [|done]. cbn.
    apply sanitizeToolNameForGemini_no_digit. }
  destruct ts as [l|]; [|by repeat split]. cbn.
  split; [by rewrite map_map|]. split.
  { rewrite map_map. apply map_ext. intros tool. cbn.
    destruct (functionDeclarations tool); [|done]. cbn. by rewrite map_map. }
  split; [by split; eauto|].
  f_equal. rewrite map_map. apply map_ext. intros tool. cbn. f_equal.
  destruct (functionDeclarations tool) as [decls|]; [|done]. cbn. f_equal.
  rewrite map_map. apply map_ext. intros func. cbn. f_equal.
  destruct (fd_name func); [|done]. cbn. f_equal. apply sanitizeToolNameForGemini_idem.
Qed.

(** ** [normalizeThinkingConfig] *)

Lemma lowerAscii_idem (c : ascii) : lowerAscii (lowerAscii c) = lowerAscii c.
Proof. destruct c as [[] [] [] [] [] [] [] []]; reflexivity. Qed.

Lemma toLowerCase_idem (s : string) : toLowerCase (toLowerCase s) = toLowerCase s.
Proof. induction s as [|c s IH]; [done|]. cbn. by rewrite lowerAscii_idem, IH. Qed.

Lemma toLowerCase_truthy (s : string) : truthy (toLowerCase s) = truthy s.
Proof. by destruct s. Qed.

(** X21.  [normalizeThinkingConfig] on an object: a numeric camel-case
    [thinkingBudget] is the budget of the result, whatever [thinking_budget]
    says; a camel-case [thinkingBudget] of another type, null apart, leaves
    the result without budget even when [thinking_budget] is a number.  A
    level in the result is never empty and is in lower case.  A result always
    carries at least one setting, and never the snake-case
    [include_thoughts]. *)
Theorem normalizeThinkingConfig_spec (record : JValue) :
  isObjectLike record = true ->
  let result := normalizeThinkingConfig (Some record) in
  (forall n, getField "thinkingBudget" record = Some (JNum n) ->
     (thinkingBudget <$> result) = Some (Some n))
  /\ (forall v, getField "thinkingBudget" record = Some v -> v <> JNull ->
        (forall n, v <> JNum n) -> result ≫= thinkingBudget = None)
  /\ (forall c l, result = Some c -> thinkingLevel c = Some l ->
        truthy l = true /\ toLowerCase l = l)
  /\ (forall c, result = Some c ->
        include_thoughts c = None
        /\ (is_Some (thinkingBudget c) \/ is_Some (thinkingLevel c)
            \/ is_Some (includeThoughts c))).
Proof.
  intros Hobj result. unfold result, normalizeThinkingConfig. rewrite Hobj.
  set (levelRaw := nullishField (getField "thinkingLevel" record) _).
  set (includeRaw := nullishField (getField "includeThoughts" record) _).
  set (level := match levelRaw with
                | Some (JStr s) => if truthy s then Some (toLowerCase s) else None
                | _ => None end).
  set (incl := match includeRaw with Some (JBool b) => Some b | _ => None end).
  assert (Hlevel : forall l, level = Some l -> truthy l = true /\ toLowerCase l = l).
  { unfold level. intros l. destruct levelRaw as [[]|]; try done.
    destruct (truthy s) eqn:Hs; [|done]. intros [= <-].
    by rewrite toLowerCase_truthy, toLowerCase_idem. }
  clearbody level incl. clear levelRaw includeRaw.
  split; [|split; [|split]].
  - intros n ->. cbn. by destruct level, incl.
  - intros v -> Hnull Hnum. destruct v; try done; cbn; try (by destruct level, incl).
    by destruct (Hnum n).
  - intros c l. set (budget := match nullishField _ _ with Some (JNum n) => Some n | _ => None end).
    clearbody budget. destruct budget, level, incl; intros [= <-]; cbn; try done; apply Hlevel.
  - intros c. set (budget := match nullishField _ _ with Some (JNum n) => Some n | _ => None end).
    clearbody budget. destruct budget, level, incl; intros [= <-]; cbn; (split; [done|]);
      eauto.
Qed.

Lemma normalizeThinkingConfig_spec_witness :
  normalizeThinkingConfig
    (Some (JObj [("thinkingBudget", JStr "high"); ("thinking_budget", JNum 1000)]))
    ≫= thinkingBudget = None.
Proof.
  apply (normalizeThinkingConfig_spec
           (JObj [("thinkingBudget", JStr "high"); ("thinking_budget", JNum 1000)]) eq_refl)
    with (v := JStr "high"); done.
Defined.

(** ** What the Claude transformer sends *)


Section ClaudeOutput.
Variable sha256 : string -> string.
Variable randomUUID : nat -> string.
Variable context : TransformContext.

Local Notation "'claudePart'" := (claudePart sha256 randomUUID context).
Local Notation "'claudeParts'" := (claudeParts sha256 randomUUID context).
Local Notation "'claudeContents'" := (claudeContents sha256 randomUUID context).

Local Notation "'cachedAfter'" := (cachedAfter sha256 context).

Lemma lastThoughtText_app (l k : list Part) :
  lastThoughtText (l ++ k)
  = match lastThoughtText k with Some t => Some t | None => lastThoughtText l end.
Proof.
  unfold lastThoughtText. rewrite omap_app, last_app.
  by destruct (last (omap _ k)).
Qed.

Lemma cachedAfter_app (l k : list Part) (c : gmap string string) :
  cachedAfter (l ++ k) c = cachedAfter k (cachedAfter l c).
Proof.
  unfold Transform.cachedAfter. rewrite lastThoughtText_app.
  destruct (lastThoughtText k) as [t|]; [|done].
  destruct (truthy (sessionId context)); [|by destruct (lastThoughtText l)].
  destruct (lastThoughtText l); [|done]. by rewrite insert_insert_eq.
Qed.

Lemma cachedAfter_plain (p : Part) (c : gmap string string) :
  thought p = false -> cachedAfter [p] c = c.
Proof. intros H. unfold Transform.cachedAfter, lastThoughtText. cbn. by rewrite H. Qed.

Lemma claudeFunctionCall_thought st p :
  thought (claudeFunctionCall randomUUID st p).1 = thought p.
Proof. unfold claudeFunctionCall. by repeat case_match. Qed.

Lemma claudeFunctionResponse_thought st p :
  thought (claudeFunctionResponse st p).1 = thought p.
Proof. unfold claudeFunctionResponse. by repeat case_match. Qed.

Lemma claudeThought_signed signatureCache p p1 signatureCache1 :
  claudeThought sha256 context signatureCache p = Some (p1, signatureCache1) ->
  thought p1 = thought p
  /\ (exists s, thoughtSignature p1 = Some s /\ (50 < String.length s)%nat)
  /\ (thought p = true -> signatureCache1 = cachedAfter [p1] signatureCache).
Proof.
  unfold claudeThought, Transform.cachedAfter, lastThoughtText.
  set (restored := if needsRestore (thoughtSignature p) then _ else None).
  destruct restored as [c|] eqn:Er.
  - destruct (Nat.ltb_spec 50 (String.length c)) as [Hlen|]; [|done].
    assert (Hp1 : thought (set_thoughtSignature (Some c) p) = thought p
                  /\ exists s, thoughtSignature (set_thoughtSignature (Some c) p) = Some s
                               /\ (50 < String.length s)%nat) by (split; [done|by exists c]).
    destruct (text p) as [t|] eqn:Et; [destruct (truthy (sessionId context)) eqn:Hs|];
      intros [= <- <-]; (split; [apply Hp1|split; [apply Hp1|]]);
      intros Ht; cbn; rewrite Ht, Et; cbn; by rewrite ?Hs.
  - destruct (thoughtSignature p) as [s|] eqn:Es; [|done].
    destruct (Nat.ltb_spec 50 (String.length s)) as [Hlen|]; [|done].
    destruct (text p) as [t|] eqn:Et; [destruct (truthy (sessionId context)) eqn:Hs|];
      intros [= <- <-]; (split; [done|split; [by exists s|]]);
      intros Ht; cbn; rewrite Ht, Et; cbn; by rewrite ?Hs.
Qed.

Lemma claudeFunctionCall_identified st p :
  callIdentified (claudeFunctionCall randomUUID st p).1
  /\ (forall fc id, functionCall p = Some fc -> fc_id fc = Some id -> truthy id = true ->
        functionCall (claudeFunctionCall randomUUID st p).1 = Some fc
        /\ drawn (claudeFunctionCall randomUUID st p).2 = drawn st).
Proof.
  unfold claudeFunctionCall, callIdentified.
  destruct (functionCall p) as [fc|] eqn:Ef.
  2:{ cbn. split; [intros fc; by rewrite Ef|done]. }
  destruct (fc_name fc) as [name|] eqn:En.
  2:{ cbn. rewrite Ef. split; [|by intros ?? [= <-]].
      intros fc' [= <-] [? ?]. congruence. }
  assert (Hnew : truthy (name ++ "-" ++ randomUUID (drawn st)) = true).
  { destruct name; reflexivity. }
  destruct (fc_id fc) as [id|] eqn:Eid; cbn [from_option].
  - destruct (truthy id) eqn:Hid; cbn.
    + split; [|by intros ?? [= <-]]. intros fc' [= <-] _. eauto.
    + split; [|intros ?? [= <-]; congruence]. intros fc' [= <-] _. cbn. eauto.
  - cbn. split; [|intros ?? [= <-]; congruence]. intros fc' [= <-] _. cbn. eauto.
Qed.

Lemma claudeFunctionResponse_functionCall st p :
  functionCall (claudeFunctionResponse st p).1 = functionCall p.
Proof. unfold claudeFunctionResponse. by repeat case_match. Qed.

Lemma claudePart_output st p :
  signatures (claudePart st p).2
  = cachedAfter (option_list (claudePart st p).1) (signatures st)
  /\ forall p', (claudePart st p).1 = Some p' ->
       thought p' = thought p /\ claudeSigned p' /\ callIdentified p'
       /\ (forall fc id, functionCall p = Some fc -> fc_id fc = Some id ->
             truthy id = true -> functionCall p' = Some fc).
Proof.
  unfold claudePart.
  destruct (thought p) eqn:Ht.
  - destruct (claudeThought _ _ _ p) as [[p1 cache1]|] eqn:Et.
    2:{ cbn. split; [|done]. unfold Transform.cachedAfter, lastThoughtText. done. }
    destruct (claudeThought_signed _ _ _ _ Et) as (Ht1 & (s & Hs & Hlen) & Hg).
    destruct (claudeThought_function_fields _ context _ _ _ _ Et) as [Hfc _].
    set (st1 := mkClaudeState cache1 (funcCallIdQueues st) (drawn st)).
    pose proof (claudeFunctionCall_signature randomUUID st1 p1) as [Hs2 Hc2].
    pose proof (claudeFunctionCall_reasoning randomUUID st1 p1) as [Ht2 Hx2].
    pose proof (claudeFunctionCall_identified st1 p1) as [Hid2 Hkeep2].
    destruct (claudeFunctionCall randomUUID st1 p1) as [p2 st2]. cbn [fst snd] in *.
    pose proof (claudeFunctionResponse_signature st2 p2) as [Hs3 Hc3].
    pose proof (claudeFunctionResponse_reasoning st2 p2) as [Ht3 Hx3].
    pose proof (claudeFunctionResponse_functionCall st2 p2) as Hf3.
    destruct (claudeFunctionResponse st2 p2) as [p3 st3]. cbn [fst snd] in *.
    split.
    { rewrite Hc3, Hc2. cbn [signatures st1 option_list]. rewrite (Hg Ht).
      unfold Transform.cachedAfter, lastThoughtText. cbn.
      by rewrite Ht3, Ht2, Hx3, Hx2. }
    intros p' [= <-].
    split; [congruence|]. split; [|split].
    + intros _. exists s. split; [congruence|done].
    + unfold callIdentified. rewrite Hf3. exact Hid2.
    + intros fc id Hf Hi Hti. rewrite Hf3. apply (Hkeep2 fc id); [congruence|done..].
  - pose proof (claudeFunctionCall_signature randomUUID st p) as [Hs2 Hc2].
    pose proof (claudeFunctionCall_thought st p) as Ht2.
    pose proof (claudeFunctionCall_identified st p) as [Hid2 Hkeep2].
    destruct (claudeFunctionCall randomUUID st p) as [p2 st2]. cbn [fst snd] in *.
    pose proof (claudeFunctionResponse_signature st2 p2) as [Hs3 Hc3].
    pose proof (claudeFunctionResponse_thought st2 p2) as Ht3.
    pose proof (claudeFunctionResponse_functionCall st2 p2) as Hf3.
    destruct (claudeFunctionResponse st2 p2) as [p3 st3]. cbn [fst snd] in *.
    split.
    { rewrite Hc3, Hc2. change (option_list (Some p3)) with [p3].
      rewrite cachedAfter_plain; [done|congruence]. }
    intros p' [= <-].
    split; [congruence|]. split; [|split].
    + intros Hth. congruence.
    + unfold callIdentified. rewrite Hf3. exact Hid2.
    + intros fc id Hf Hi Hti. rewrite Hf3. by apply (Hkeep2 fc id).
Qed.

Lemma claudeParts_output (ps : list Part) : forall st,
  signatures (claudeParts st ps).2 = cachedAfter (claudeParts st ps).1 (signatures st)
  /\ Forall (fun p => claudeSigned p /\ callIdentified p) (claudeParts st ps).1.
Proof.
  induction ps as [|p ps IH]; intros st; cbn [Transform.claudeParts].
  { split; [done|constructor]. }
  destruct (claudePart_output st p) as [Hg Hp].
  destruct (claudePart st p) as [kept st1]. cbn [fst snd] in *.
  destruct (IH st1) as [Hg' Hall].
  destruct (claudeParts st1 ps) as [filtered st2]. cbn [fst snd] in *.
  split.
  { rewrite Hg', Hg. destruct kept as [p'|].
    - change (option_list (Some p')) with [p']. by rewrite <- cachedAfter_app.
    - change (option_list None) with (@nil Part). by rewrite <- cachedAfter_app. }
  destruct kept as [p'|]; [|done]. constructor; [|done].
  by destruct (Hp p' eq_refl) as (_ & ? & ? & _).
Qed.

(** X22.  Whatever the conversation and the cache hold, every reasoning part
    the Claude transformer sends carries a signature of more than 50
    characters, and every named function call it sends carries a non-empty
    identifier.  The signature cache is written at one key at most, the key
    of (family, session): when the context has a session identifier and a
    reasoning part with a text is sent, the cache ends with the text of the
    last such part under that key (the call of [cacheSignature], as it
    evaluates against cache.ts, stores the text where the signature was
    meant); otherwise the cache is as it was.  UUIDs are only drawn, never
    given back. *)
Theorem claude_output_invariants (signatureCache : gmap string string) (drawn0 : nat)
    (body : RequestPayload) :
  let out := transformClaudeRequest sha256 randomUUID context signatureCache
               drawn0 body in
  let sent := allParts (default [] (req_contents (wb_request out.1.1))) in
  Forall (fun p => claudeSigned p /\ callIdentified p) sent
  /\ out.1.2 = cachedAfter sent signatureCache
  /\ (drawn0 <= out.2)%nat.
Proof.
  intros out sent. unfold sent, out, transformClaudeRequest.
  destruct (contents body) as [cs|]; cbn.
  2:{ split; [constructor|]. split; [done|done]. }
  set (st0 := mkClaudeState signatureCache ∅ drawn0).
  destruct (claudeContents_allParts sha256 randomUUID context cs st0) as [Ha Hst].
  destruct (claudeParts_output (allParts cs) st0) as [Hg Hall].
  assert (Hd : forall ps st, (drawn st <= drawn (claudeParts st ps).2)%nat).
  { clear. induction ps as [|p ps IH]; intros st; cbn [Transform.claudeParts]; [done|].
    assert (drawn st <= drawn (claudePart st p).2)%nat.
    { unfold Transform.claudePart.
      assert (Hcall : forall st p, (drawn st <= drawn (claudeFunctionCall randomUUID st p).2)%nat).
      { intros st' p'. unfold claudeFunctionCall. repeat case_match; simplify_eq/=; lia. }
      assert (Hresp : forall st p, drawn (claudeFunctionResponse st p).2 = drawn st).
      { intros st' p'. unfold claudeFunctionResponse. by repeat case_match. }
      destruct (thought p).
      - destruct (claudeThought _ _ _ _) as [[p1 c1]|]; [|done].
        specialize (Hcall (mkClaudeState c1 (funcCallIdQueues st) (drawn st)) p1).
        destruct (claudeFunctionCall _ _ _) as [p2 st2].
        specialize (Hresp st2 p2). destruct (claudeFunctionResponse _ _) as [p3 st3].
        cbn in *. lia.
      - specialize (Hcall st p). destruct (claudeFunctionCall _ _ _) as [p2 st2].
        specialize (Hresp st2 p2). destruct (claudeFunctionResponse _ _) as [p3 st3].
        cbn in *. lia. }
    destruct (claudePart st p) as [kept st1]. specialize (IH st1).
    destruct (claudeParts st1 ps) as [f st2]. cbn in *. lia. }
  specialize (Hd (allParts cs) st0).
  destruct (claudeContents st0 cs) as [cs' st'] eqn:E. cbn [fst snd] in *.
  cbn [wb_request req_contents from_option id fst snd]. rewrite Ha.
  split; [exact Hall|]. rewrite Hst. split; [exact Hg|exact Hd].
Qed.

End ClaudeOutput.

End TransformLaws.

(** * The normalizer: status, headers, bodies and streams *)
Module NormalizerLaws.
Import Normalizer NormalizerTheory.


(** ** Strings *)

Lemma string_app_nil_r (s : string) : (s ++ "")%string = s.
Proof.
  induction s as [|c s IH]; [done|].
  change (String c (s ++ "") = String c s). by rewrite IH.
Qed.

Lemma string_app_assoc (a b c : string) :
  ((a ++ b) ++ c)%string = (a ++ (b ++ c))%string.
Proof.
  induction a as [|x a IH]; [done|].
  change (String x ((a ++ b) ++ c) = String x (a ++ (b ++ c))). by rewrite IH.
Qed.

(** ** Status and headers *)




(** ** The body of a buffered JSON response *)



(** ** The rate-limit rewrite *)

Lemma assoc_assocSet_eq {A} (k : string) (v : A) (l : list (string * A)) :
  assoc k (assocSet k v l) = Some v.
Proof.
  induction l as [|[k0 v0] l IH]; simpl.
  - by rewrite String.eqb_refl.
  - destruct (String.eqb_spec k k0) as [->|Hk]; simpl.
    + by rewrite String.eqb_refl.
    + by destruct (String.eqb_spec k k0).
Qed.

Lemma assocSet_idem {A} (k : string) (v : A) (l : list (string * A)) :
  assocSet k v (assocSet k v l) = assocSet k v l.
Proof.
  induction l as [|[k0 v0] l IH]; simpl.
  - by rewrite String.eqb_refl.
  - destruct (String.eqb_spec k k0) as [->|Hk]; simpl.
    + by rewrite String.eqb_refl.
    + destruct (String.eqb_spec k k0); [done|]. by rewrite IH.
Qed.

Lemma setField_idem (k : string) (v body : JValue) :
  setField k v (setField k v body) = setField k v body.
Proof.
  destruct body; simpl; rewrite ?String.eqb_refl; try done. by rewrite assocSet_idem.
Qed.

Lemma errorFields_setField (fields : list (string * JValue)) (body : JValue) :
  errorFields (setField "error" (JObj fields) body) = fields.
Proof.
  unfold errorFields.
  assert (getField "error" (setField "error" (JObj fields) body) = Some (JObj fields)) as ->.
  { destruct body; simpl; try done. apply assoc_assocSet_eq. }
  done.
Qed.

(** X25.  When [rewriteGeminiRateLimitError] rewrites a body, the error of
    the result has a message that is not null: the upstream one when there is
    one, the default one otherwise.  The other properties of the error and of
    the body are unchanged, and rewriting the result again gives the result
    itself. *)
Theorem rewriteGeminiRateLimitError_spec (body body' : JValue) :
  rewriteGeminiRateLimitError body = Some body' ->
  (exists m, assoc "message" (errorFields body') = Some m /\ m <> JNull
             /\ (forall m0, assoc "message" (errorFields body) = Some m0 -> m0 <> JNull ->
                   m = m0))
  /\ (forall k, k <> "message"%string ->
        assoc k (errorFields body') = assoc k (errorFields body))
  /\ (forall k, k <> "error"%string -> getField k body' = getField k body)
  /\ rewriteGeminiRateLimitError body' = Some body'.
Proof.
  unfold rewriteGeminiRateLimitError at 1.
  set (error := errorFields body).
  set (isRateLimit := _ || _).
  set (message := match assoc "message" error with
                  | None | Some JNull => JStr _
                  | Some m => m end).
  destruct isRateLimit eqn:Hrl; [|done]. intros [= <-].
  assert (Hm : message <> JNull).
  { unfold message. by destruct (assoc "message" error) as [[]|]. }
  assert (Hfields : errorFields (setField "error" (JObj (assocSet "message" message error)) body)
                    = assocSet "message" message error) by apply errorFields_setField.
  split; [|split; [|split]].
  - exists message. rewrite Hfields, assoc_assocSet_eq. split; [done|]. split; [done|].
    intros m0 Hm0 Hn. unfold message. rewrite Hm0. by destruct m0.
  - intros k Hk. rewrite Hfields. by apply assoc_assocSet_ne.
  - intros k Hk. by apply getField_setField_ne.
  - unfold rewriteGeminiRateLimitError. rewrite Hfields.
    rewrite !(assoc_assocSet_ne "message") by done.
    fold error. fold isRateLimit. rewrite Hrl.
    rewrite assoc_assocSet_eq.
    assert (match message with JNull => JStr "You have exhausted your capacity on this model. Please try again later." | _ => message end = message) as Hsame
      by (by destruct message).
    destruct message; try done; by rewrite assocSet_idem, setField_idem.
Qed.

Lemma rewriteGeminiRateLimitError_spec_witness :
  exists m,
    assoc "message"
      (errorFields (setField "error"
         (JObj [("code"%string, JNum 429);
                ("message"%string,
                 JStr "You have exhausted your capacity on this model. Please try again later.")])
         (JObj [("error"%string, JObj [("code"%string, JNum 429)])]))) = Some m
    /\ m <> JNull.
Proof.
  destruct (rewriteGeminiRateLimitError_spec
              (JObj [("error"%string, JObj [("code"%string, JNum 429)])])
              (setField "error"
                 (JObj [("code"%string, JNum 429);
                        ("message"%string,
                         JStr "You have exhausted your capacity on this model. Please try again later.")])
                 (JObj [("error"%string, JObj [("code"%string, JNum 429)])])))
    as ((m & Hm & Hn & _) & _); [reflexivity|].
  exists m. by split.
Defined.

(** ** The preview-access rewrite *)

Lemma prefix_app (n b : string) : String.prefix n (n ++ b) = true.
Proof.
  induction n as [|c n IH]; [by destruct b|].
  change (String c n ++ b)%string with (String c (n ++ b)). cbn [String.prefix].
  by destruct (ascii_dec c c).
Qed.

Lemma includes_app (needle a b : string) :
  Transform.includes needle (a ++ needle ++ b) = true.
Proof.
  induction a as [|c a IH].
  - change ("" ++ needle ++ b)%string with (needle ++ b)%string.
    destruct (needle ++ b)%string eqn:E; cbn [Transform.includes];
      rewrite <- E, prefix_app; done.
  - change (String c a ++ needle ++ b)%string with (String c (a ++ needle ++ b)).
    cbn [Transform.includes]. rewrite IH. by rewrite orb_true_r.
Qed.

(** X26.  [rewriteGeminiPreviewAccessError] rewrites only a 404, and always
    a 404 for a requested model that is a Gemini 3 model, also when the body
    has no error object.  The message of the result is the upstream message,
    trimmed, or the default sentence when that is empty, followed by the
    request to ask for preview access; it contains the preview link.  When
    the body is a plain object whose error is absent, [null] or a plain
    object, the other properties of the error and of the body are
    unchanged. *)
Theorem rewriteGeminiPreviewAccessError_spec (body : JValue) (st : Z)
    (requestedModel : option string) :
  (st = 404 -> from_option isGeminiThreeModel false requestedModel = true ->
     is_Some (rewriteGeminiPreviewAccessError body st requestedModel))
  /\ (forall body', rewriteGeminiPreviewAccessError body st requestedModel = Some body' ->
        st = 404
        /\ (exists messagePrefix,
              errorMessage body'
                = (messagePrefix ++ " Request preview access at " ++ GEMINI_PREVIEW_LINK
                     ++ " before using Gemini 3 models.")%string
              /\ truthy messagePrefix = true
              /\ (truthy (trim (errorMessage body)) = true ->
                    messagePrefix = trim (errorMessage body)))
        /\ Transform.includes GEMINI_PREVIEW_LINK (errorMessage body') = true
        /\ (plainError body = true ->
            (forall k, k <> "message"%string ->
               assoc k (errorFields body') = assoc k (errorFields body))
            /\ (forall k, k <> "error"%string -> getField k body' = getField k body))).
Proof.
  unfold rewriteGeminiPreviewAccessError, needsPreviewAccessOverride. split.
  - intros -> ->. cbn. by eexists.
  - intros body'. destruct (Z.eqb_spec st 404) as [Hst|]; [|done]. cbn [negb].
    destruct (if from_option isGeminiThreeModel false requestedModel then true
              else isGeminiThreeModel (errorMessage body)); [|done].
    set (messagePrefix := if truthy (trim (errorMessage body)) then _ else _).
    intros [= <-]. split; [done|].
    assert (Hmsg : errorMessage
              (setField "error"
                 (JObj (assocSet "message"
                          (JStr (messagePrefix ++ " Request preview access at "
                                   ++ GEMINI_PREVIEW_LINK
                                   ++ " before using Gemini 3 models."))
                          (errorFields body))) body)
            = (messagePrefix ++ " Request preview access at " ++ GEMINI_PREVIEW_LINK
                 ++ " before using Gemini 3 models.")%string).
    { unfold errorMessage. by rewrite errorFields_setField, assoc_assocSet_eq. }
    split; [|split].
    + exists messagePrefix. split; [exact Hmsg|]. unfold messagePrefix.
      destruct (truthy (trim (errorMessage body))) eqn:Ht; by split.
    + rewrite Hmsg.
      change (messagePrefix ++ " Request preview access at " ++ GEMINI_PREVIEW_LINK
                ++ " before using Gemini 3 models.")%string
        with (messagePrefix ++ " Request preview access at "
                ++ (GEMINI_PREVIEW_LINK ++ " before using Gemini 3 models."))%string.
      rewrite <- string_app_assoc. apply includes_app.
    + intros _. split.
      * intros k Hk. rewrite errorFields_setField. by apply assoc_assocSet_ne.
      * intros k Hk. by apply getField_setField_ne.
Qed.

Lemma rewriteGeminiPreviewAccessError_spec_witness :
  is_Some (rewriteGeminiPreviewAccessError (JObj []) 404 (Some "gemini-3-pro-preview"%string)).
Proof.
  apply (rewriteGeminiPreviewAccessError_spec (JObj []) 404
           (Some "gemini-3-pro-preview"%string)); reflexivity.
Defined.

(** ** Server-sent events *)

Section SseTheory.
Variable parseJson : string -> option JValue.
Variable stringify : JValue -> string.
Variable onError : option (JValue -> option JValue).
Variable sessionId : option string.

Local Notation "'streamedLine'" :=
  (transformSseLine parseJson stringify onError (Some (cachingThrows sessionId))).
Local Notation "'flushedLine'" := (transformSseLine parseJson stringify onError None).
Local Notation "'transformStreamingPayload'" :=
  (transformStreamingPayload parseJson stringify onError).
Local Notation "'sseStream'" := (sseStream parseJson stringify onError sessionId).
Local Notation "'newline'" := (String "010" EmptyString).

Lemma splitLines_nonempty (s : string) : splitLines s <> [].
Proof.
  destruct s as [|c s]; [done|]. cbn [splitLines].
  destruct (Ascii.eqb c "010"); [done|]. by destruct (splitLines s).
Qed.

Lemma splitLines_app (a b : string) :
  splitLines (a ++ b)
  = removelast (splitLines a) ++ splitLines (List.last (splitLines a) EmptyString ++ b).
Proof.
  induction a as [|c a IH]; [done|].
  change (String c a ++ b)%string with (String c (a ++ b)). cbn [splitLines].
  pose proof (splitLines_nonempty a) as Hne.
  destruct (Ascii.eqb c "010") eqn:Hc.
  - rewrite IH. destruct (splitLines a) as [|l ls] eqn:E; [done|]. reflexivity.
  - rewrite IH. destruct (splitLines a) as [|l ls] eqn:E; [done|].
    destruct ls as [|l2 ls].
    + cbn [removelast List.last app].
      change (String c l ++ b)%string with (String c (l ++ b)). cbn [splitLines].
      by rewrite Hc.
    + reflexivity.
Qed.

Lemma splitLines_last (s : string) :
  splitLines (List.last (splitLines s) EmptyString) = [List.last (splitLines s) EmptyString].
Proof.
  induction s as [|c s IH]; [done|]. cbn [splitLines].
  pose proof (splitLines_nonempty s) as Hne.
  destruct (Ascii.eqb c "010") eqn:Hc.
  - destruct (splitLines s) as [|l ls] eqn:E; [done|]. exact IH.
  - destruct (splitLines s) as [|l ls] eqn:E; [done|].
    destruct ls as [|l2 ls]; [|exact IH].
    cbn [List.last] in *. cbn [splitLines]. rewrite Hc, IH. done.
Qed.

Lemma concat_empty_cons (x : string) (l : list string) :
  String.concat "" (x :: l) = (x ++ String.concat "" l)%string.
Proof.
  destruct l as [|y l]; [|reflexivity].
  change (x = (x ++ "")%string). by rewrite string_app_nil_r.
Qed.

Lemma concat_empty_app (l k : list string) :
  String.concat "" (l ++ k) = (String.concat "" l ++ String.concat "" k)%string.
Proof.
  induction l as [|x l IH]; [done|].
  change ((x :: l) ++ k) with (x :: (l ++ k)).
  by rewrite !concat_empty_cons, IH, string_app_assoc.
Qed.

Lemma joinLines_app (f : string -> string) (xs zs : list string) :
  zs <> [] ->
  joinLines (map f xs ++ zs)
  = (String.concat "" (map (fun line => (f line ++ newline)%string) xs)
     ++ joinLines zs)%string.
Proof.
  intros Hne. induction xs as [|x xs IH]; [done|].
  change (map f (x :: xs) ++ zs) with (f x :: (map f xs ++ zs)).
  change (map (fun line => (f line ++ newline)%string) (x :: xs))
    with ((f x ++ newline)%string :: map (fun line => (f line ++ newline)%string) xs).
  rewrite concat_empty_cons, string_app_assoc, <- IH.
  destruct (map f xs ++ zs) as [|w ws] eqn:E; [by destruct xs, zs|].
  unfold joinLines.
  change (String.concat newline (f x :: w :: ws))
    with (f x ++ (newline ++ String.concat newline (w :: ws)))%string.
  by rewrite string_app_assoc.
Qed.

Lemma removelast_last_app {A} (xs ys : list A) (d : A) :
  ys <> [] ->
  removelast (xs ++ ys) = xs ++ removelast ys /\ List.last (xs ++ ys) d = List.last ys d.
Proof.
  intros Hne. induction xs as [|x xs [IH1 IH2]]; [done|].
  change ((x :: xs) ++ ys) with (x :: (xs ++ ys)).
  destruct (xs ++ ys) as [|w ws] eqn:E; [by destruct xs, ys|].
  cbn [removelast List.last]. cbn [removelast List.last] in IH1, IH2.
  rewrite IH1, IH2. done.
Qed.

(** The text the stream makes of [payload]: every line that is followed by a
    line break goes through the line transform with the caching callback, the
    rest after the last line break without it. *)
Lemma sseStream_spec (chunks : list string) : forall buffer,
  splitLines buffer = [buffer] ->
  String.concat "" (sseStream buffer chunks)
  = let lines := splitLines (buffer ++ String.concat "" chunks) in
    joinLines (map streamedLine (removelast lines)
                 ++ [flushedLine (List.last lines EmptyString)]).
Proof.
  induction chunks as [|chunk rest IH]; intros buffer Hb.
  - cbn [Normalizer.sseStream String.concat]. rewrite string_app_nil_r.
    unfold sseFlush. rewrite Hb. cbn [removelast List.last map app].
    destruct buffer; [done|]. reflexivity.
  - cbn [Normalizer.sseStream]. unfold sseTransform.
    rewrite concat_empty_app, IH by apply splitLines_last.
    rewrite concat_empty_cons, <- string_app_assoc.
    cbv zeta. rewrite (splitLines_app (buffer ++ chunk)).
    set (b' := List.last (splitLines (buffer ++ chunk)) EmptyString).
    set (tail := splitLines (b' ++ String.concat "" rest)).
    destruct (removelast_last_app (removelast (splitLines (buffer ++ chunk))) tail
                EmptyString (splitLines_nonempty _)) as [-> ->].
    rewrite map_app, <- app_assoc.
    rewrite (joinLines_app _ (removelast (splitLines (buffer ++ chunk)))); [done|].
    by destruct (map _ (removelast tail)).
Qed.

(** X27.  What the stream of [createSseTransformStream] enqueues depends only
    on the text it is fed, not on the places where the text is cut into
    chunks: a line cut by a chunk boundary is held back until its end arrives
    and is transformed once, as a whole.  Without a session identifier, or
    whenever the caching callback throws on no line, the pieces enqueued add
    up to exactly the text that [transformStreamingPayload] makes of the
    whole. *)
Theorem sse_stream_chunking (chunks : list string) :
  String.concat "" (sseStream EmptyString chunks)
    = String.concat "" (sseStream EmptyString [String.concat "" chunks])
  /\ ((forall line, streamedLine line = flushedLine line) ->
        String.concat "" (sseStream EmptyString chunks)
          = transformStreamingPayload (String.concat "" chunks))
  /\ (from_option truthy false sessionId = false ->
        forall line, streamedLine line = flushedLine line).
Proof.
  split; [|split].
  - rewrite !sseStream_spec by done. cbn [String.concat]. done.
  - intros Hsame. rewrite sseStream_spec by done.
    change ("" ++ String.concat "" chunks)%string with (String.concat "" chunks).
    cbv zeta. unfold Normalizer.transformStreamingPayload. f_equal.
    pose proof (splitLines_nonempty (String.concat "" chunks)) as Hne.
    rewrite (map_ext _ _ Hsame).
    set (lines := splitLines (String.concat "" chunks)) in *.
    change [flushedLine (List.last lines EmptyString)]
      with (map flushedLine [List.last lines EmptyString]).
    by rewrite <- map_app, <- app_removelast_last.
  - intros Hs line. unfold Normalizer.transformSseLine, cachingThrows.
    rewrite Hs. cbn [negb from_option]. by repeat case_match.
Qed.
End SseTheory.

Lemma sse_stream_chunking_witness :
  String.concat ""
    (sseStream (fun _ => None) (fun _ => EmptyString) None None EmptyString
       ["da"; "ta: 1" ++ String "010" "x"]%string)
  = transformStreamingPayload (fun _ => None) (fun _ => EmptyString) None
      ("data: 1" ++ String "010" "x")%string.
Proof.
  destruct (sse_stream_chunking (fun _ => None) (fun _ => EmptyString) None None
              ["da"; "ta: 1" ++ String "010" "x"]%string) as (_ & H & Hs).
  apply H. by apply Hs.
Defined.

End NormalizerLaws.

(** * The auth cache *)
Module AuthCacheTheory.
Import Accounts AuthCache.

Section ResolveTheory.
Variable accessTokenExpired : OAuthAuthDetails -> bool.

Local Notation "'resolveCachedAuth'" := (resolveCachedAuth accessTokenExpired).

(** X28.  [resolveCachedAuth] answers with the snapshot it was given or
    with the one cached under the same refresh token, and with an expired one
    only when both are expired (or nothing was cached).  Afterwards the cache
    holds the answer under that token and is otherwise unchanged, and asking
    again gives the same answer and the same cache.  A snapshot just stored
    is the answer for itself. *)
Theorem resolveCachedAuth_spec (auth : OAuthAuthDetails)
    (authCache : gmap string OAuthAuthDetails) (key : string) :
  keyOf auth = Some key ->
  let r := (resolveCachedAuth auth authCache).1 in
  let authCache' := (resolveCachedAuth auth authCache).2 in
  (r = auth \/ authCache !! key = Some r)
  /\ (accessTokenExpired r = true ->
        accessTokenExpired auth = true
        /\ forall cached, authCache !! key = Some cached -> accessTokenExpired cached = true)
  /\ authCache' !! key = Some r
  /\ (forall k, k <> key -> authCache' !! k = authCache !! k)
  /\ resolveCachedAuth auth authCache' = (r, authCache')
  /\ resolveCachedAuth auth (storeCachedAuth auth authCache)
     = (auth, storeCachedAuth auth authCache).
Proof.
  intros Hkey r authCache'. unfold keyOf in Hkey. unfold r, authCache', storeCachedAuth.
  unfold AuthCache.resolveCachedAuth. rewrite Hkey.
  rewrite lookup_insert_eq.
  assert (Hlast : (if negb (accessTokenExpired auth)
                   then (auth, <[key:=auth]> (<[key:=auth]> authCache))
                   else if negb (accessTokenExpired auth)
                        then (auth, <[key:=auth]> authCache)
                        else (auth, <[key:=auth]> (<[key:=auth]> authCache)))
                  = (auth, <[key:=auth]> authCache)).
  { rewrite insert_insert_eq. by destruct (accessTokenExpired auth). }
  destruct (authCache !! key) as [cached|] eqn:Ec; cbn [fst snd].
  2:{ rewrite lookup_insert_eq.
      repeat split; auto; try congruence; try exact Hlast.
      intros k Hk. by rewrite lookup_insert_ne. }
  destruct (accessTokenExpired auth) eqn:Ha; cbn [negb fst snd];
    [destruct (accessTokenExpired cached) eqn:Hc; cbn [negb fst snd]|];
    rewrite ?lookup_insert_eq, ?Ec; rewrite ?Ha, ?Hc; cbn [negb];
    rewrite ?insert_insert_eq;
    repeat split; auto; try congruence;
    try (intros k Hk; by rewrite lookup_insert_ne).
Qed.
End ResolveTheory.

Lemma resolveCachedAuth_spec_witness :
  let fresh := mkOAuthAuthDetails "refresh-a" (Some "new") (Some 200) in
  let stale := mkOAuthAuthDetails " refresh-a " (Some "old") (Some 50) in
  let expired (a : OAuthAuthDetails) := from_option (fun e => e <=? 100) true (auth_expires a) in
  (resolveCachedAuth expired stale (storeCachedAuth fresh ∅)).1 = fresh.
Proof.
  intros fresh stale expired.
  destruct (resolveCachedAuth_spec expired stale (storeCachedAuth fresh ∅) "refresh-a")
    as ([H|H] & _); [reflexivity| |].
  - exfalso. by vm_compute in H.
  - reflexivity.
Defined.
End AuthCacheTheory.

(** * The logical call *)
Module CallTheory.
Import Accounts Fetch Normalizer Call AccountsTheory FetchTheory AccountsLaws FetchLaws.

(** ** A 429 with several accounts *)

(** C1, as amended.  With more than one account in the pool, an endpoint
    attempt that answers 429 ends the endpoint loop at once.  If the parsed
    retry-after is at most 5000 ms: the loop returns RETRY_SOON with the pool
    untouched (the account is not marked rate-limited) after sleeping, in
    backoff steps, for that duration in total (nothing when it is negative);
    the orchestrator loop continues without further effect, its next pass
    selects the same account again, without recording a switch, as long as
    that account is the current one and not rate-limited, and that pass
    starts over at the first endpoint of the fallback list, whichever
    endpoint had answered 429.  If the retry-after exceeds 5000 ms: the
    account is marked rate-limited until [now + retry-after], RATE_LIMIT is
    returned with that duration and the orchestrator loop continues without
    sleeping.  Its next pass, made while the window is open (at both readings
    of the clock the selection makes), does not select that account: it
    rotates to another account, which becomes the current one and is
    recorded as switched to for the reason [rate-limit], whenever an account
    is available then; when none is, it selects no account. *)
Theorem rate_limit_with_several_accounts
    fetchAt prepared now pos accountCount n i e rest
    lastError lastResponse lastAttemptInfo m response :
  1 < accountCount ->
  truthy e = true ->
  fetchAt e = Responded response ->
  status response = 429 ->
  let r := parseRetryAfterMs response in
  let out := endpointLoop fetchAt prepared now pos accountCount n i (e :: rest)
               lastError lastResponse lastAttemptInfo m in
  (r <= 5000 ->
     out = (Returned RetrySoon, m,
            EvAttempt e :: EvToast (ToastBriefRetry (ceilSeconds r))
              :: map EvSleep (sleepWithBackoff r))
     /\ slept out.2 = Z.max 0 r
     /\ (forall now', dispatch now' accountCount (Returned RetrySoon) m = (Continue, m, []))
     /\ (forall t1 t2 a,
           currentAccountIndex m = Z.of_nat pos -> accounts m !! pos = Some a ->
           isRateLimited a = false ->
           selectAccountAt t1 t2 m
           = (Some pos, set_accounts (<[pos := set_lastUsed t1 a]> (accounts m)) m, []))
     /\ (forall fetchAt' prepared' now' pos' m',
           head (attempts (tryEndpointFallbacks fetchAt' prepared' now' pos' m'
                             accountCount).2) = Some CODE_ASSIST_ENDPOINT_DAILY))
  /\ (5000 < r ->
     out = (Returned (RateLimit r), markRateLimited now pos r m,
            [EvAttempt e; EvToast (ToastSwitching pos); EvSave])
     /\ (forall a, accounts m !! pos = Some a ->
           accounts (markRateLimited now pos r m) !! pos =
             Some (set_rateLimitResetTime (now + r) (set_isRateLimited true a)))
     /\ (forall now',
           dispatch now' accountCount (Returned (RateLimit r)) (markRateLimited now pos r m)
           = (Continue, markRateLimited now pos r m, []))
     /\ (forall t1 t2,
           indexed m ->
           currentAccountIndex m = Z.of_nat pos -> is_Some (accounts m !! pos) ->
           t1 <= now + r -> t2 <= now + r ->
           let next := selectAccountAt t1 t2 (markRateLimited now pos r m) in
           next.1.1 <> Some pos
           /\ (0 <= currentIndex m ->
               (exists q b, q <> pos /\ accounts m !! q = Some b
                            /\ isAvailable t2 b = true) ->
               exists q,
                 next.1.1 = Some q /\ q <> pos
                 /\ currentAccountIndex next.1.2 = Z.of_nat q
                 /\ next.2 = [EvSave]
                 /\ (lastSwitchReason <$> accounts next.1.2 !! q)
                    = Some (Some RateLimitSwitch))
           /\ ((forall q b, q <> pos -> accounts m !! q = Some b ->
                  isAvailable t2 b = false) ->
               next.1.1 = None /\ next.2 = []))).
Proof.
  intros Hcount He Hf Hs r out.
  assert (Hout : out =
    let '(res, m', evs) := handleRateLimit now response pos m accountCount in
    (Returned res, m', EvAttempt e :: evs)).
  { unfold out. cbn [endpointLoop]. rewrite He, Hf, Hs. done. }
  assert (Hne : (accountCount =? 1) = false) by (apply Z.eqb_neq; lia).
  unfold handleRateLimit in Hout. rewrite Hne in Hout. fold r in Hout.
  split; intros Hr.
  - destruct (Z.leb_spec r 5000) as [_|?]; [|lia].
    split; [exact Hout|]. split; [|split; [|split]].
    + rewrite Hout. change (slept (map EvSleep (sleepWithBackoff r)) = Z.max 0 r).
      by rewrite slept_sleeps, sleepWithBackoff_total.
    + done.
    + intros t1 t2 a Hc Ha Hl. unfold selectAccountAt.
      rewrite (getCurrentAccount_at m pos a Hc Ha).
      rewrite (getCurrentOrNextAt_sticky t1 t2 m pos a Hc Ha Hl).
      by rewrite Z.eqb_refl.
    + intros. apply tryEndpointFallbacks_first_attempt.
  - destruct (Z.leb_spec r 5000) as [?|_]; [lia|].
    split; [exact Hout|]. split; [|split].
    + intros a Ha. by apply markRateLimited_lookup.
    + intros now'. simpl. by rewrite Hne.
    + intros t1 t2 Hi Hc [a Ha] Ht1 Ht2 next.
      pose proof (markRateLimited_lookup now pos r m a Ha) as Ha'.
      destruct (selectAccountAt_rotates t1 t2 (markRateLimited now pos r m) pos _
                  (indexed_markRateLimited now pos r m Hi) Hc Ha' eq_refl Ht1 Ht2)
        as (H1 & H2 & H3).
      split; [exact H1|]. split.
      * intros Hcursor (q & b & Hq & Hb & Hav). apply H2; [exact Hcursor|].
        exists q, b. split; [|exact Hav]. by rewrite markRateLimited_other.
      * intros Hnone. apply H3. intros q b Hq Hb.
        rewrite markRateLimited_other in Hb by done. by eapply Hnone.
Qed.

Lemma rate_limit_with_several_accounts_witness :
  endpointLoop brief429OnSecond samplePrepared 100 0 2 3 1
    [CODE_ASSIST_ENDPOINT_AUTOPUSH; CODE_ASSIST_ENDPOINT_PROD] None None None poolTwo
  = (Returned RetrySoon, poolTwo,
     [EvAttempt CODE_ASSIST_ENDPOINT_AUTOPUSH; EvToast (ToastBriefRetry 1); EvSleep 1000]).
Proof.
  destruct (rate_limit_with_several_accounts brief429OnSecond samplePrepared 100 0%nat 2 3 1
              CODE_ASSIST_ENDPOINT_AUTOPUSH [CODE_ASSIST_ENDPOINT_PROD] None None None
              poolTwo brief429) as [H _].
  - lia.
  - reflexivity.
  - reflexivity.
  - reflexivity.
  - destruct H as [H _]; [vm_compute; discriminate|]. exact H.
Defined.

(** The claim as first stated fails twice.  It has the brief retry go to the
    same endpoint: the first endpoint answers 404, the second 429 with a
    one-second retry-after; the pass sleeps that second and the next pass,
    on the same account, starts at the first endpoint again.  And it has the
    pass after RATE_LIMIT rotate: with two accounts of which the other is
    cooling down as well, a 429 asking for a minute marks the account in use,
    and the next pass finds no account to rotate to; it waits instead. *)
Lemma retry_soon_restarts_at_first_endpoint :
  (let pass1 := iteration (sampleEnv brief429OnSecond 100) 2 poolTwo in
   let pass2 := iteration (sampleEnv brief429OnSecond 1200) 2 pass1.1.2 in
   pass1.1.1 = Continue
   /\ last (attempts pass1.2) = Some CODE_ASSIST_ENDPOINT_AUTOPUSH
   /\ slept pass1.2 = 1000
   /\ getCurrentAccount pass1.1.2 = Some 0%nat
   /\ head (attempts pass2.2) = Some CODE_ASSIST_ENDPOINT_DAILY
   /\ CODE_ASSIST_ENDPOINT_DAILY <> CODE_ASSIST_ENDPOINT_AUTOPUSH)
  /\ (let pool := markRateLimited 0 1 600000 poolTwo in
      let pass1 := iteration (sampleEnv (fun _ => Responded long429) 100) 2 pool in
      let pass2 := iteration (sampleEnv (fun _ => Responded long429) 200) 2 pass1.1.2 in
      pass1.1.1 = Continue
      /\ attempts pass1.2 = [CODE_ASSIST_ENDPOINT_DAILY]
      /\ (isRateLimited <$> accounts pass1.1.2) = [true; true]
      /\ getCurrentAccount pass1.1.2 = Some 0%nat
      /\ pass2.1.1 = Continue
      /\ attempts pass2.2 = []
      /\ getCurrentAccount pass2.1.2 = Some 0%nat
      /\ 0 < slept pass2.2).
Proof. vm_compute. repeat split; discriminate. Qed.


(** ** The order of the endpoint attempts *)

Lemma dispatch_attempts now accountCount result m :
  attempts (dispatch now accountCount result m).2 = [].
Proof.
  unfold dispatch. destruct result as [[response info|r| |response info|err]|err]; try done.
  - destruct (accountCount =? 1); [apply attempts_sleeps|done].
  - by destruct info.
Qed.

(** One round of [tryEndpointFallbacks]: its events, and the cursor and the
    pointer of the pool it leaves. *)
Lemma tryEndpointFallbacks_trace fetchAt prepared now pos m accountCount :
  let out := tryEndpointFallbacks fetchAt prepared now pos m accountCount in
  exists closing,
    out.2 = map EvAttempt (attempted fetchAt CODE_ASSIST_ENDPOINT_FALLBACKS) ++ closing
    /\ attempts closing = []
    /\ currentAccountIndex out.1.2 = currentAccountIndex m
    /\ currentIndex out.1.2 = currentIndex m.
Proof.
  intros out.
  destruct (endpointLoop_trace fetchAt prepared now pos accountCount
              (Z.of_nat (length CODE_ASSIST_ENDPOINT_FALLBACKS))
              CODE_ASSIST_ENDPOINT_FALLBACKS 0 None None None m
              ltac:(by repeat constructor) ltac:(done))
    as (closing & Hevs & Hatt & _).
  exists closing. split; [exact Hevs|]. split; [exact Hatt|].
  destruct (endpointLoop_pool fetchAt prepared now pos accountCount
              (Z.of_nat (length CODE_ASSIST_ENDPOINT_FALLBACKS))
              CODE_ASSIST_ENDPOINT_FALLBACKS 0 None None None m) as [H|[r H]];
    unfold out, tryEndpointFallbacks, tryEndpointFallbacksOn; by rewrite H.
Qed.

(** The attempts of a pass: none when the pass does not get to the
    endpoints, and otherwise those of its one round. *)
Lemma iteration_attempts env accountCount m :
  attempts (iteration env accountCount m).2 = []
  \/ attempts (iteration env accountCount m).2
     = attempted (env_fetchAt env) CODE_ASSIST_ENDPOINT_FALLBACKS.
Proof.
  unfold iteration.
  pose proof (selectAccount_attempts (env_nowSelect env) m) as Hsel.
  destruct (selectAccount (env_nowSelect env) m) as [[[pos|] m2] evSwitch]; cbn [snd] in *.
  2:{ left. apply (attempts_sleeps). }
  set (afterToken := if env_tokenExpired env then _ else _).
  assert (Htok : forall acc m3 evToken, afterToken = Some (acc, m3, evToken) ->
                 attempts evToken = []).
  { unfold afterToken. intros acc m3 evToken. repeat case_match; by intros [= <- <- <-]. }
  destruct afterToken as [[[accessToken m3] evToken]|]; [|by left].
  specialize (Htok _ _ _ eq_refl).
  destruct (negb _); [left; cbn [snd]; by rewrite attempts_app, Hsel, Htok|].
  destruct (env_projectContext env);
    [|left; cbn [snd]; by rewrite attempts_app, Hsel, Htok].
  destruct (tryEndpointFallbacks_trace (env_fetchAt env) (env_prepared env)
              (env_nowAttempt env) pos m3 accountCount) as (closing & Hevs & Hatt & _).
  destruct (tryEndpointFallbacks _ _ _ _ _ _) as [[result m4] evTry].
  cbn [snd] in Hevs.
  pose proof (dispatch_attempts (env_nowAttempt env) accountCount result m4) as Hd.
  destruct (dispatch _ _ _ _) as [[step m5] evAfter]. cbn [snd] in *.
  right. rewrite !attempts_app, Hsel, Htok, Hd, Hevs, attempts_app, Hatt.
  rewrite attempts_map_EvAttempt. cbn [app]. by rewrite !app_nil_r.
Qed.

Lemma fetchLoop_passes runtime sessionId reading (envs : list IterationEnv) :
  forall accountCount m,
  let passes := (fetchLoop runtime sessionId reading envs accountCount m).2 in
  (length passes <= length envs)%nat
  /\ forall k env evs, envs !! k = Some env -> passes !! k = Some evs ->
       attempts evs = []
       \/ attempts evs = attempted (env_fetchAt env) CODE_ASSIST_ENDPOINT_FALLBACKS.
Proof.
  induction envs as [|env envs IH]; intros accountCount m; cbn [fetchLoop].
  { split; [done|]. by intros k env evs ?. }
  pose proof (iteration_attempts env accountCount m) as Hpass.
  destruct (iteration env accountCount m) as [[step m'] evs0]. cbn [snd] in Hpass.
  assert (Hone :
    (length [evs0] <= length (env :: envs))%nat
    /\ forall k env0 evs, (env :: envs) !! k = Some env0 -> [evs0] !! k = Some evs ->
         attempts evs = []
         \/ attempts evs = attempted (env_fetchAt env0) CODE_ASSIST_ENDPOINT_FALLBACKS).
  { cbn. split; [lia|].
    intros [|k] env0 evs; cbn; [|done]. by intros [= <-] [= <-]. }
  destruct step as [|response streaming requestedModel|error]; [|exact Hone..].
  specialize (IH accountCount m').
  destruct (fetchLoop runtime sessionId reading envs accountCount m') as [[result m''] passes].
  cbn [snd] in *. destruct IH as [Hlen IH]. split; [cbn; lia|].
  intros [|k] env0 evs; cbn.
  - by intros [= <-] [= <-].
  - apply IH.
Qed.

(** C2, as amended.  A logical call is a sequence of passes, and each pass
    that gets to the endpoints makes one round through the fallback list,
    from its first endpoint on: the endpoints are attempted one after the
    other in the order of the list, an endpoint being attempted exactly when
    the one before it fell through, that is, threw or answered 403, 404 or a
    status of 500 or above; that happens within the round, with the same
    account, the round-robin cursor and the current pointer of the pool being
    what they were.  A call that loops begins its next pass at the first
    endpoint again.  When, in the first pass of a call, the account selected
    has a token and the three endpoints answer 404, 404 and 200, the call
    answers with what the response normalizer makes of the third endpoint's
    response, after exactly those three attempts (the calls of the host
    awaited on the way, saving the auth among them, returning). *)
Theorem endpoint_fallback_order :
  (forall fetchAt prepared now pos m accountCount,
     let out := tryEndpointFallbacks fetchAt prepared now pos m accountCount in
     exists closing,
       out.2 = map EvAttempt (attempted fetchAt CODE_ASSIST_ENDPOINT_FALLBACKS) ++ closing
       /\ attempts closing = []
       /\ currentAccountIndex out.1.2 = currentAccountIndex m
       /\ currentIndex out.1.2 = currentIndex m)
  /\ (forall response,
        status response = 403 \/ status response = 404 \/ 500 <= status response ->
        fallsThrough (Responded response) = true)
  /\ (forall runtime sessionId reading envs accountCount m,
        let passes := (fetchLoop runtime sessionId reading envs accountCount m).2 in
        (length passes <= length envs)%nat
        /\ forall k env evs, envs !! k = Some env -> passes !! k = Some evs ->
             attempts evs = []
             \/ attempts evs = attempted (env_fetchAt env) CODE_ASSIST_ENDPOINT_FALLBACKS)
  /\ (forall runtime sessionId reading env envs accountCount m pos m2 evSwitch token
             project r1 r2 r3,
        selectAccount (env_nowSelect env) m = (Some pos, m2, evSwitch) ->
        env_tokenExpired env = false ->
        accounts m2 !! pos ≫= access = Some token ->
        truthy token = true ->
        env_projectContext env = Returned project ->
        env_fetchAt env CODE_ASSIST_ENDPOINT_DAILY = Responded r1 -> status r1 = 404 ->
        env_fetchAt env CODE_ASSIST_ENDPOINT_AUTOPUSH = Responded r2 -> status r2 = 404 ->
        env_fetchAt env CODE_ASSIST_ENDPOINT_PROD = Responded r3 -> status r3 = 200 ->
        exists evs,
          fetchLoop runtime sessionId reading (env :: envs) accountCount m
          = (Answered
               (transformAntigravityResponse runtime sessionId r3
                  (prep_streaming (env_prepared env))
                  (prep_requestedModel (env_prepared env))
                  (reading r3).1 (reading r3).2),
             m2, [evs])
          /\ attempts evs = CODE_ASSIST_ENDPOINT_FALLBACKS).
Proof.
  split; [|split; [|split]].
  - intros. apply tryEndpointFallbacks_trace.
  - intros response Hs. cbn [fallsThrough]. unfold shouldRetryEndpoint.
    destruct (Z.eqb_spec (status response) 429) as [E|_]; [lia|]. cbn [negb andb].
    destruct Hs as [->|[->|H5]]; [done..|].
    destruct (Z.leb_spec 500 (status response)); [|lia]. by rewrite orb_true_r.
  - intros. apply fetchLoop_passes.
  - intros runtime sessionId reading env envs accountCount m pos m2 evSwitch token project
      r1 r2 r3 Hsel Hexp Htoken Htruthy Hproject F1 S1 F2 S2 F3 S3.
    pose proof (selectAccount_attempts (env_nowSelect env) m) as Hsa.
    rewrite Hsel in Hsa. cbn [snd] in Hsa.
    assert (Htry : tryEndpointFallbacks (env_fetchAt env) (env_prepared env)
                     (env_nowAttempt env) pos m2 accountCount
                   = (Returned (Success r3 (Some (attemptInfoOf (env_prepared env)
                                                    CODE_ASSIST_ENDPOINT_PROD))),
                      m2, map EvAttempt CODE_ASSIST_ENDPOINT_FALLBACKS)).
    { unfold tryEndpointFallbacks, tryEndpointFallbacksOn, CODE_ASSIST_ENDPOINT_FALLBACKS.
      rewrite (endpointLoop_next _ _ _ _ _ _ _ _ _ _ _ _ _ r1) by (auto; simpl; lia).
      rewrite (endpointLoop_next _ _ _ _ _ _ _ _ _ _ _ _ _ r2) by (auto; simpl; lia).
      cbn [endpointLoop]. rewrite F3, S3. reflexivity. }
    exists (evSwitch ++ [] ++ map EvAttempt CODE_ASSIST_ENDPOINT_FALLBACKS
              ++ [EvAuthSet; EvSave]).
    split.
    + cbn [fetchLoop]. unfold iteration.
      rewrite Hsel, Hexp, Htoken. cbn [from_option]. rewrite Htruthy. cbn [negb].
      rewrite Hproject, Htry. cbn [dispatch]. reflexivity.
    + rewrite !attempts_app, Hsa, attempts_map_EvAttempt. reflexivity.
Qed.

Lemma endpoint_fallback_order_witness :
  exists evs,
    fetchLoop quietRuntime (Some "session"%string) (fun _ => (false, None))
      [sampleEnv notFoundTwice 100] 2 poolTwo
    = (Answered (PassedThrough (mkResponse 200 ∅ None)),
       (selectAccount 100 poolTwo).1.2, [evs])
    /\ attempts evs = CODE_ASSIST_ENDPOINT_FALLBACKS.
Proof.
  destruct endpoint_fallback_order as (_ & _ & _ & H).
  destruct (H quietRuntime (Some "session"%string) (fun _ => (false, None))
              (sampleEnv notFoundTwice 100) [] 2 poolTwo 0%nat
              (selectAccount 100 poolTwo).1.2 (selectAccount 100 poolTwo).2
              "token-a"%string "project"%string
              (mkResponse 404 ∅ None) (mkResponse 404 ∅ None) (mkResponse 200 ∅ None))
    as (evs & E & Ha); try reflexivity.
  exists evs. split; [exact E | exact Ha].
Defined.

(** The claim as first stated fails for the call as a whole: after a brief
    429 on the second endpoint the call goes back to the first endpoint, so
    its attempts, taken together, do not follow the list, which has three
    endpoints and each of them once. *)
Lemma call_restarts_the_list :
  let out := fetchLoop quietRuntime (Some "session"%string) (fun _ => (false, None))
               retriedCall 2 poolTwo in
  out.1.1 = Answered (PassedThrough (mkResponse 200 ∅ None))
  /\ map attempts out.2
     = [ [CODE_ASSIST_ENDPOINT_DAILY; CODE_ASSIST_ENDPOINT_AUTOPUSH];
         [CODE_ASSIST_ENDPOINT_DAILY; CODE_ASSIST_ENDPOINT_AUTOPUSH;
          CODE_ASSIST_ENDPOINT_PROD] ]
  /\ ~ (concat (map attempts out.2) `sublist_of` CODE_ASSIST_ENDPOINT_FALLBACKS).
Proof.
  split; [vm_compute; reflexivity|]. split; [vm_compute; reflexivity|].
  intros H. apply sublist_length in H. vm_compute in H. lia.
Qed.

End CallTheory.
